(** * The MeeseOS server-side VFS gateway

    A shallow embedding of the virtual-filesystem core of the server:

    - [utils/vfs.js]: [getPrefix], [sanitize], the group validators,
      [checkMountpointPermission], [createError], [mountpointResolver];
    - [vfs.js]: [respondNumber], [respondBoolean], [createOptions], the
      single-target and cross-target request factories and the route table;
    - [adapters/vfs/system.js]: segment resolution, [getRealPath] and the
      operations of the system adapter.

    JavaScript strings are sequences of code units; they are modelled by
    [string], one [ascii] per code unit (the Latin-1 range).  Promises are
    modelled by their settlement ([Resolved] or [Rejected]); code that
    awaits is written in a state-and-error monad whose state carries the
    backend and the log of what the dispatcher did. *)

From Stdlib Require Import String Ascii List ZArith Bool Lia.
From Stdlib Require Import Floats.PrimFloat Uint63.
From stdpp Require Import base option list strings pretty gmap.
Import ListNotations.

Set Warnings "-register-all".

Local Open Scope string_scope.
Local Open Scope list_scope.

(** ** JavaScript values *)

Module Js.

(** The values that cross the dispatcher: request fields, parsed JSON,
      adapter results.  A stream carries the bytes it will deliver. *)
Inductive value : Type :=
| Undefined
| Null
| Bool (b : bool)
| Num (n : float)
| Str (s : string)
| Arr (l : list value)
| Obj (o : gmap string value)
| Stream (data : string).

Inductive type_name := TUndefined | TObject | TBoolean | TNumber | TString.

(** [typeof v]. *)
Definition typeof (v : value) : type_name :=
    match v with
    | Undefined => TUndefined
    | Null => TObject
    | Bool _ => TBoolean
    | Num _ => TNumber
    | Str _ => TString
    | Arr _ | Obj _ | Stream _ => TObject
    end.

(** [Boolean(v)]: the falsy values are [undefined], [null], [false],
      [0], [-0], [NaN] and the empty string. *)
Definition truthy (v : value) : bool :=
    match v with
    | Undefined | Null => false
    | Bool b => b
    | Num n => negb (PrimFloat.eqb n 0%float || PrimFloat.is_nan n)
    | Str s => negb (String.eqb s EmptyString)
    | Arr _ | Obj _ | Stream _ => true
    end.

(** [v instanceof Stream]. *)
Definition is_stream (v : value) : bool :=
    match v with Stream _ => true | _ => false end.

(** Errors.  [code] is absent on built-in errors, numeric on errors made
      by [createError], and a string ("ENOENT") on errors of the backend. *)
Inductive error_class := ErrorC | TypeErrorC | SyntaxErrorC.

Inductive error_code := NoCode | NumCode (n : Z) | StrCode (s : string).

Record error := mkError {
    eclass : error_class;
    code : error_code;
    message : string
}.

(** The settlement of a promise. *)
Inductive promise (A : Type) : Type :=
| Resolved (a : A)
| Rejected (e : error).
Arguments Resolved {A} a.
Arguments Rejected {A} e.

Definition is_rejected {A} (p : promise A) : bool :=
    match p with Rejected _ => true | Resolved _ => false end.

End Js.

Import Js.

(** ** Strings: the built-ins the gateway uses *)

Module Str.

(** [s.split(sep)] for a one-character separator: never empty. *)
Fixpoint split (sep : ascii) (s : string) : list string :=
  match s with
  | EmptyString => [EmptyString]
  | String c s' =>
      if Ascii.eqb c sep then EmptyString :: split sep s'
      else match split sep s' with
           | [] => [String c EmptyString]
           | x :: xs => String c x :: xs
           end
  end.

(** [l.join(sep)]. *)
Fixpoint join (sep : string) (l : list string) : string :=
  match l with
  | [] => EmptyString
  | [x] => x
  | x :: xs => x +:+ sep +:+ join sep xs
  end.

(** [s.replace(/\/+/g, "/")]: every run of slashes becomes one slash. *)
Fixpoint collapse (s : string) : string :=
  match s with
  | EmptyString => EmptyString
  | String c s' =>
      if Ascii.eqb c "/" then
        match s' with
        | String d _ => if Ascii.eqb d "/" then collapse s' else String c (collapse s')
        | EmptyString => String c EmptyString
        end
      else String c (collapse s')
  end.

(** The longest prefix whose characters satisfy [p], and the rest. *)
Fixpoint span (p : ascii -> bool) (s : string) : string * string :=
  match s with
  | EmptyString => (EmptyString, EmptyString)
  | String c s' =>
      if p c then let '(a, b) := span p s' in (String c a, b)
      else (EmptyString, s)
  end.

Fixpoint forallb (p : ascii -> bool) (s : string) : bool :=
  match s with
  | EmptyString => true
  | String c s' => p c && forallb p s'
  end.

Fixpoint filter (p : ascii -> bool) (s : string) : string :=
  match s with
  | EmptyString => EmptyString
  | String c s' => if p c then String c (filter p s') else filter p s'
  end.

(** [s.substring(n)]. *)
Fixpoint drop (n : nat) (s : string) : string :=
  match n, s with
  | O, _ => s
  | S n', String _ s' => drop n' s'
  | S _, EmptyString => EmptyString
  end.

(** [s.startsWith(p)] *)
Fixpoint prefix (p s : string) : bool :=
  match p, s with
  | EmptyString, _ => true
  | String a p', String b s' => Ascii.eqb a b && prefix p' s'
  | String _ _, EmptyString => false
  end.

(** [s.replace(pat, rep)] for a literal, non-empty [pat] and a
    replacement without dollar patterns: the first occurrence only. *)
Fixpoint replace_first (pat rep s : string) : string :=
  if prefix pat s then rep +:+ drop (String.length pat) s
  else match s with
       | EmptyString => EmptyString
       | String c s' => String c (replace_first pat rep s')
       end.

Definition between (lo hi : nat) (c : ascii) : bool :=
  (lo <=? nat_of_ascii c)%nat && (nat_of_ascii c <=? hi)%nat.

(** The class [\w]: [A-Za-z0-9_]. *)
Definition is_word (c : ascii) : bool :=
  between 65 90 c || between 97 122 c || between 48 57 c || Ascii.eqb c "_".

(** The line terminators that [.] does not match (U+2028 and U+2029 lie
    outside the code units modelled here). *)
Definition is_line_terminator (c : ascii) : bool :=
  Ascii.eqb c "010" || Ascii.eqb c "013".

End Str.

(** ** The data model of the gateway *)

(** A sanitized VFS address: [sanitize] maps a string to a string and an
    array to the array of its sanitized elements. *)
Inductive address : Type :=
| One (s : string)
| Many (l : list address).

(** [String(path)]: an array prints its elements separated by commas. *)
Fixpoint address_to_string (a : address) : string :=
  match a with
  | One s => s
  | Many l => Str.join "," (map address_to_string l)
  end.

(** An entry of [attributes.groups]: a plain group name, or an object
    that maps method names to lists of group names.  The object is given
    by its own properties; the method names the dispatcher passes are
    never properties of [Object.prototype]. *)
Inductive group_entry : Type :=
| Named (g : string)
| MethodMap (m : gmap string (list string)).

Record attributes := mkAttributes {
  attr_root : string;
  attr_readOnly : value;
  attr_groups : option (list group_entry);
  attr_strictGroups : value;
  attr_searchable : value;
  attr_ranges : value;
  attr_adapter : value
}.

Record mountpoint := mkMount {
  mount_name : string;
  mount_root : string;
  mount_adapter : option string;
  mount_attributes : option attributes
}.

(** [session.user], as the authentication provider populates it. *)
Record user := mkUser {
  username : string;
  user_groups : list string
}.

Record session := mkSession { session_user : user }.

(** [req.files.upload]: a stream, or a temporary file on disk. *)
Inductive upload : Type :=
| UploadStream (data : string)
| UploadFile (filepath : string) (data : string).

(** The request after the parsing middleware has run. *)
Record request := mkRequest {
  req_fields : gmap string value;
  req_range : option string;
  req_session : option session;
  req_upload : option upload
}.

(** [req.fields.k] *)
Definition field (req : request) (k : string) : value :=
  default Undefined (req_fields req !! k).

(** What the dispatcher does, in order. *)
Inductive event : Type :=
| Lookup (prefix : string) (found : bool)
| GroupCheck (mount method : string) (ok : bool)
| Granted (mount method : string)
| Denied (mount method : string)
| AdapterCall (oid : nat) (method : string)
| Header (name : string).

(** ** Awaiting: a state-and-error monad *)

Module Async.

(** A computation over a state [S] that settles with an [A] or with an
    error. *)
Definition M (S A : Type) : Type := S -> promise A * S.

Definition resolve {S A} (a : A) : M S A := fun st => (Resolved a, st).
Definition reject {S A} (e : error) : M S A := fun st => (Rejected e, st).

(** [const x = await c; k x]: a rejection of [c] ends the function. *)
Definition await {S A B} (c : M S A) (k : A -> M S B) : M S B :=
  fun st =>
    match c st with
    | (Resolved a, st') => k a st'
    | (Rejected e, st') => (Rejected e, st')
    end.

(** [c.catch(h)] *)
Definition catch {S A} (c : M S A) (h : error -> M S A) : M S A :=
  fun st =>
    match c st with
    | (Resolved a, st') => (Resolved a, st')
    | (Rejected e, st') => h e st'
    end.

(** A settled promise, awaited. *)
Definition settle {S A} (p : promise A) : M S A := fun st => (p, st).

(** The state of the dispatcher: the log of what it did, and the
    backend [W] the adapters work on. *)
Record state (W : Type) := mkState { log : list event; backend : W }.
Arguments mkState {W} log backend.
Arguments log {W} s.
Arguments backend {W} s.

Definition tell {W} (ev : event) : M (state W) unit :=
  fun st => (Resolved tt, mkState (log st ++ [ev]) (backend st)).

(** An operation of the backend: it sees and changes the backend only. *)
Definition lift {W A} (f : M W A) : M (state W) A :=
  fun st => let '(r, w) := f (backend st) in (r, mkState (log st) w).

End Async.

Import Async.

Notation "x <~ c ; k" := (await c (fun x => k))
  (at level 20, c at level 100, k at level 200, only parsing).
Notation "'do' c ; k" := (await c (fun _ => k))
  (at level 20, c at level 100, k at level 200, only parsing).

(** ** [utils/vfs.js] *)

Module VfsUtils.

Definition type_error (msg : string) : error := mkError TypeErrorC NoCode msg.

(** [createError(code, message)] *)
Definition createError (code : Z) (message : string) : error :=
  mkError ErrorC (NumCode code) message.

(** [errorCodes] and the status the router's error handler answers with:
    a numeric code as it is, a known string code by the table, 400
    otherwise. *)
Definition errorCodes (c : string) : option Z :=
  if String.eqb c "ENOENT" then Some 404%Z
  else if String.eqb c "EACCES" then Some 401%Z
  else None.

Definition status_of (e : error) : Z :=
  match code e with
  | NumCode n => n
  | StrCode s => default 400%Z (errorCodes s)
  | NoCode => 400%Z
  end.

(** [getPrefix(path)]: [String(path).split(":")[0]] *)
Definition getPrefix (path : address) : string :=
  hd EmptyString (Str.split ":" (address_to_string path)).

(** The character class [[\w-_]]. *)
Definition is_name_char (c : ascii) : bool :=
  Str.is_word c || Ascii.eqb c "-" || Ascii.eqb c "_".

(** The match of the address pattern (start of input, one or more name
    characters, one or more colons, then any characters): the two
    groups, when the string matches.  The first group is greedy and must be followed by a colon,
    so it is the longest run of name characters; the colons are greedy
    too; [.] stops at a line terminator. *)
Definition match_address (s : string) : option (string * string) :=
  let '(nm, rest) := Str.span is_name_char s in
  match nm, rest with
  | String _ _, String c rest' =>
      if Ascii.eqb c ":" then
        let after := snd (Str.span (Ascii.eqb ":") rest') in
        Some (nm, fst (Str.span (fun c => negb (Str.is_line_terminator c)) after))
      else None
  | _, _ => None
  end.

(** [sanitize] on one string, over the segment sanitizer [sf]
    ([sanitize-filename]).  When the string does not match, [str] is
    [undefined] and [str.split] throws. *)
Definition sanitize_string (sf : string -> string) (path : string) : promise string :=
  match match_address (Str.collapse path) with
  | None =>
      Rejected (type_error "Cannot read properties of undefined (reading 'split')")
  | Some (nm, str) =>
      let sane := Str.collapse (Str.join "/" (map sf (Str.split "/" str))) in
      Resolved (nm +:+ ":" +:+ sane)
  end.

(** [sanitize(path)]: an array is mapped element by element; a value
    that is neither an array nor a string has no [replace] to call. *)
Fixpoint sanitize_with (sf : string -> string) (path : value) : promise address :=
  match path with
  | Arr l =>
      let fix each (l : list value) : promise (list address) :=
        match l with
        | [] => Resolved []
        | x :: xs =>
            match sanitize_with sf x with
            | Rejected e => Rejected e
            | Resolved y =>
                match each xs with
                | Rejected e => Rejected e
                | Resolved ys => Resolved (y :: ys)
                end
            end
        end in
      match each l with
      | Rejected e => Rejected e
      | Resolved ys => Resolved (Many ys)
      end
  | Str s =>
      match sanitize_string sf s with
      | Rejected e => Rejected e
      | Resolved r => Resolved (One r)
      end
  | _ => Rejected (type_error "path.replace is not a function")
  end.

(** Modelled from the spec: [sanitize-filename] is a dependency installed
    from the package registry, not code of this repository.  The spec
    says it strips the characters that are illegal in filenames; the set
    below is the one the repository's test exercises (the double quote
    goes, parentheses, dots and letters stay) together with the path and
    drive separators and the control characters. *)
Definition illegal_in_filename (c : ascii) : bool :=
  existsb (Ascii.eqb c) ["/"; "?"; "<"; ">"; "\"; ":"; "*"; "|"; "034"]%char
  || Str.between 0 31 c || Str.between 128 159 c.

Definition sanitizeFilename (s : string) : string :=
  Str.filter (fun c => negb (illegal_in_filename c)) s.

Definition sanitize : value -> promise address := sanitize_with sanitizeFilename.

(** [compare.indexOf(g) !== -1] *)
Definition includes (compare : list string) (g : string) : bool :=
  existsb (String.eqb g) compare.

(** [validateAll(arr, compare, strict = true)]: [every] or [some]. *)
Definition validateAll (arr compare : list string) (strict : option bool) : bool :=
  if default true strict
  then forallb (includes compare) arr
  else existsb (includes compare) arr.

(** [validateNamedGroups(groups, userGroups, strict)] *)
Definition validateNamedGroups (groups : list group_entry) (userGroups : list string)
    (strict : option bool) : bool :=
  let namedGroups :=
    omap (fun g => match g with Named s => Some s | MethodMap _ => None end) groups in
  match namedGroups with
  | [] => true
  | _ => validateAll namedGroups userGroups strict
  end.

(** [validateMethodGroups(groups, userGroups, method, strict)] *)
Definition validateMethodGroups (groups : list group_entry) (userGroups : list string)
    (method : string) (strict : option bool) : bool :=
  let methodGroups :=
    List.find (fun g => match g with
                        | Named _ => false
                        | MethodMap m => bool_decide (is_Some (m !! method))
                        end) groups in
  match methodGroups with
  | Some (MethodMap m) => validateAll (default [] (m !! method)) userGroups strict
  | _ => true
  end.

(** [validateGroups(userGroups, method, mountpoint, strict)]; reading
    [groups] of a mount without [attributes] throws. *)
Definition validateGroups (userGroups : list string) (method : string)
    (mountpoint : mountpoint) (strict : option bool) : promise bool :=
  match mount_attributes mountpoint with
  | None => Rejected (type_error "Cannot read properties of undefined (reading 'groups')")
  | Some attrs =>
      let groups := default [] (attr_groups attrs) in
      match groups with
      | [] => Resolved true
      | _ =>
          let namedValid := validateNamedGroups groups userGroups strict in
          let methodValid := validateMethodGroups groups userGroups method strict in
          Resolved (namedValid && methodValid)
      end
  end.

(** The [readOnly] argument of the gate: a boolean, or a function of the
    request that returns an address. *)
Inductive readOnlyArg : Type :=
| RoBool (b : bool)
| RoFn (f : request -> address).

Definition readOnly_truthy (r : readOnlyArg) : bool :=
  match r with RoBool b => b | RoFn _ => true end.

Section WithBackend.
Context {W : Type}.

(** An adapter: an object with an identity, whose properties are
    operations.  [single_ops] are called as [op(vfs)(file, ...rest, options)],
    [cross_ops] as [op(srcVfs, destVfs)(src, dest, options)]. *)
Definition single_op : Type :=
  mountpoint -> address -> list value -> gmap string value -> M W value.
Definition cross_op : Type :=
  mountpoint -> mountpoint -> address -> address -> gmap string value -> M W value.

Record adapter := mkAdapter {
  oid : nat;
  single_ops : gmap string single_op;
  cross_ops : gmap string cross_op
}.

(** The frozen [{ mount, adapter }]. *)
Record resolved := mkResolved {
  found_mount : mountpoint;
  found_adapter : option adapter
}.

(** [core.make("meeseOS/vfs")] *)
Record vfs_service := mkService {
  adapters : gmap string adapter;
  mountpoints : list mountpoint
}.

Definition read_only_error (name : string) : error :=
  createError 403 ("Mountpoint '" +:+ name +:+ "' is read-only").

Definition denied_error (method name : string) : error :=
  createError 403 ("Permission was denied for '" +:+ method +:+ "' in '" +:+ name +:+ "'").

(** [checkMountpointPermission(req, res, method, readOnly, strict)({ mount })].
    The log records the evaluation of [validateGroups] and how the gate
    settles: [Granted] when it resolves, [Denied] when it rejects. *)
Definition deny {A} (name method : string) (e : error) : M (state W) A :=
  do tell (Denied name method); reject e.

Definition checkMountpointPermission (req : request) (method : string)
    (readOnly : readOnlyArg) (strict : option bool) (found : resolved) : M (state W) bool :=
  let mount := found_mount found in
  let name := mount_name mount in
  match req_session req with
  | None =>
      deny name method (type_error "Cannot read properties of undefined (reading 'user')")
  | Some sess =>
      let userGroups := user_groups (session_user sess) in
      do (if readOnly_truthy readOnly then
            match mount_attributes mount with
            | None =>
                deny name method
                  (type_error "Cannot read properties of undefined (reading 'readOnly')")
            | Some attrs =>
                if truthy (attr_readOnly attrs) then
                  let failed :=
                    match readOnly with
                    | RoFn f => String.eqb (getPrefix (f req)) name
                    | RoBool b => b
                    end in
                  if failed
                  then deny name method (read_only_error name)
                  else resolve tt
                else resolve tt
            end
          else resolve tt);
      match validateGroups userGroups method mount strict with
      | Rejected e => deny name method e
      | Resolved valid =>
          do tell (GroupCheck name method valid);
          if valid
          then do tell (Granted name method); resolve true
          else deny name method (denied_error method name)
      end
  end.

Definition not_found_error (prefix : string) : error :=
  createError 403 ("Mountpoint not found for '" +:+ prefix +:+ "'").

(** [mountpointResolver(core)(path)] *)
Definition mountpointResolver (svc : vfs_service) (path : address) : M (state W) resolved :=
  let prefix := getPrefix path in
  match List.find (fun m => String.eqb (mount_name m) prefix) (mountpoints svc) with
  | None => do tell (Lookup prefix false); reject (not_found_error prefix)
  | Some mount =>
      do tell (Lookup prefix true);
      let adapter :=
        match mount_adapter mount with
        | Some a => if String.eqb a EmptyString then adapters svc !! "system" else adapters svc !! a
        | None => adapters svc !! "system"
        end in
      resolve (mkResolved mount adapter)
  end.

End WithBackend.
Arguments adapter W : clear implicits.
Arguments resolved W : clear implicits.
Arguments vfs_service W : clear implicits.
Arguments single_op W : clear implicits.
Arguments cross_op W : clear implicits.

End VfsUtils.

Import VfsUtils.

(** ** [vfs.js]: the dispatcher *)

Module Vfs.

(** [respondNumber] *)
Definition respondNumber (result : value) : value :=
  match typeof result with
  | TNumber => result
  | _ => Num (-1)%float
  end.

(** [respondBoolean] *)
Definition respondBoolean (result : value) : value :=
  match typeof result with
  | TBoolean => result
  | _ => Bool (truthy result)
  end.

(** [v.k] on a value that is known not to be nullish. *)
Definition prop (v : value) (k : string) : value :=
  match v with
  | Obj o => default Undefined (o !! k)
  | _ => Undefined
  end.

Definition nullish (v : value) : bool :=
  match v with Undefined | Null => true | _ => false end.

(** The own enumerable properties that [{...v}] copies. *)
Definition indexed (l : list value) : gmap string value :=
  list_to_map (imap (fun i x => (pretty i, x)) l).

Definition chars (s : string) : list value :=
  (fun c => Str (String c EmptyString)) <$> list_ascii_of_string s.

Definition spread (v : value) : gmap string value :=
  match v with
  | Obj o => o
  | Arr l => indexed l
  | Str s => indexed (chars s)
  | _ => ∅
  end.

(** [{ ...(req.session || {}) }] *)
Definition user_value (u : user) : value :=
  Obj (<["username" := Str (username u)]>
        {["groups" := Arr (Str <$> user_groups u)]}).

Definition session_value (s : option session) : value :=
  match s with
  | None => Obj ∅
  | Some s => Obj {["user" := user_value (session_user s)]}
  end.

(** [streamFromRequest(req)] *)
Definition streamFromRequest (req : request) : promise value :=
  match req_upload req with
  | None => Rejected (type_error "Cannot read properties of undefined (reading 'filepath')")
  | Some (UploadStream d) => Resolved (Stream d)
  | Some (UploadFile p d) =>
      if String.eqb p EmptyString
      then Rejected (mkError ErrorC NoCode "File path is empty or undefined.")
      else Resolved (Stream d)
  end.

(** The getters: the target first, the other arguments after it. *)
Definition getter : Type := request -> promise (address * list value).

Definition requestSelection : getter := fun req =>
  match sanitize (field req "selection") with
  | Rejected e => Rejected e
  | Resolved a => Resolved (a, [])
  end.

Definition requestPath : getter := fun req =>
  match sanitize (field req "path") with
  | Rejected e => Rejected e
  | Resolved a => Resolved (a, [])
  end.

Definition requestSearch : getter := fun req =>
  match sanitize (field req "root") with
  | Rejected e => Rejected e
  | Resolved a => Resolved (a, [field req "pattern"])
  end.

Definition requestFile : getter := fun req =>
  match sanitize (field req "path") with
  | Rejected e => Rejected e
  | Resolved a =>
      match streamFromRequest req with
      | Rejected e => Rejected e
      | Resolved s => Resolved (a, [s])
      end
  end.

Definition requestCross (req : request) : promise (address * address) :=
  match sanitize (field req "from") with
  | Rejected e => Rejected e
  | Resolved a =>
      match sanitize (field req "to") with
      | Rejected e => Rejected e
      | Resolved b => Resolved (a, b)
      end
  end.

Section Dispatcher.

(** The built-ins [JSON.parse] ([None] when it throws) and [parseInt]. *)
Variable JSON_parse : string -> option value.
Variable parseInt : string -> float.

(** [parseRangeHeader(range)] *)
Definition parseRangeHeader (range : string) : value :=
  let parts := Str.split "-" (Str.replace_first "bytes=" EmptyString range) in
  let start := parseInt (hd EmptyString parts) in
  let end_ :=
    match nth_error parts 1 with
    | Some pend => if String.eqb pend EmptyString then Undefined else Num (parseInt pend)
    | None => Undefined
    end in
  Arr [Num start; end_].

(** [createOptions(req)].  The assignment [result.range = ...] adds a
    property when [result] is an object or an array and does nothing on
    a primitive; the returned object has the properties of [result],
    then [session]. *)
Definition createOptions (req : request) : gmap string value :=
  let options := field req "options" in
  let session := session_value (req_session req) in
  let result := if truthy options then options else Obj ∅ in
  let result :=
    match options with
    | Str s =>
        match JSON_parse s with
        | Some parsed => if truthy parsed then parsed else Obj ∅
        | None => result
        end
    | _ => result
    end in
  let props := spread result in
  let props :=
    match req_range req with
    | Some range =>
        if negb (String.eqb range EmptyString) then
          match result with
          | Obj _ | Arr _ => <["range" := parseRangeHeader range]> props
          | _ => props
          end
        else props
    | None => props
    end in
  <["session" := session]> props.

Context {W : Type}.
Variable findMountpoint : address -> M (state W) (resolved W).

Definition is_false (v : value) : bool :=
  match v with Bool false => true | _ => false end.

Definition is_true (v : value) : bool :=
  match v with Bool true => true | _ => false end.

(** [found.mount.attributes || {}] *)
Definition no_attributes : attributes :=
  mkAttributes EmptyString Undefined None Undefined Undefined Undefined Undefined.

(** [vfsMethodWrapper(m)] inside [call] *)
Definition vfsMethodWrapper (found : resolved W) (target : address) (rest : list value)
    (options : gmap string value) (m : string) : M (state W) value :=
  match found_adapter found with
  | None => reject (type_error "Cannot read properties of undefined")
  | Some a =>
      match single_ops a !! m with
      | Some op =>
          do tell (AdapterCall (oid a) m);
          lift (op (found_mount found) target rest options)
      | None => reject (mkError ErrorC NoCode ("Adapter does not support " +:+ m))
      end
  end.

(** The headers of a [readfile] response.  Each header that is written
    is logged by its name; the values (sizes, offsets) are not part of
    the model. *)
Definition readfileHeaders (attrs : attributes) (options : gmap string value)
    (stat : value) : M (state W) unit :=
  let ranges :=
    negb (truthy (attr_adapter attrs))
    || match attr_adapter attrs with Str a => String.eqb a "system" | _ => false end
    || is_true (attr_ranges attrs) in
  do (if ranges && truthy (default Undefined (options !! "range")) then
        if nullish stat then resolve tt
        else if truthy (prop stat "size") then tell (Header "206") else resolve tt
      else if nullish stat then
        reject (type_error "Cannot read properties of undefined (reading 'mime')")
      else if truthy (prop stat "mime") then tell (Header "Content-Type")
      else resolve tt);
  if truthy (default Undefined (options !! "download"))
  then tell (Header "Content-Disposition")
  else resolve tt.

(** [createRequestFactory(findMountpoint)(getter, method, readOnly, respond)] *)
Definition call (req : request) (method : string) (readOnly : readOnlyArg)
    (respond : option (value -> value))
    (target : address) (rest : list value) (options : gmap string value) : M (state W) value :=
  found <~ findMountpoint target;
  let attrs := default no_attributes (mount_attributes (found_mount found)) in
  let strict := negb (is_false (attr_strictGroups attrs)) in
  if String.eqb method "search" && is_false (attr_searchable attrs) then resolve (Arr [])
  else
    do checkMountpointPermission req method readOnly (Some strict) found;
    result <~ vfsMethodWrapper found target rest options method;
    do (if String.eqb method "readfile" then
          stat <~ catch (vfsMethodWrapper found target rest options "stat")
                        (fun _ => resolve (Obj ∅));
          readfileHeaders attrs options stat
        else resolve tt);
    resolve (match respond with Some f => f result | None => result end).

Definition createRequest (get : getter) (method : string) (readOnly : readOnlyArg)
    (respond : option (value -> value)) (req : request) : M (state W) value :=
  let options := createOptions req in
  match get req with
  | Rejected e => reject e
  | Resolved (target, rest) => call req method readOnly respond target rest options
  end.

(** [srcMount.adapter === destMount.adapter] *)
Definition sameAdapter (a b : option (adapter W)) : bool :=
  match a, b with
  | Some x, Some y => Nat.eqb (oid x) (oid y)
  | None, None => true
  | _, _ => false
  end.

Definition strictGroups_of (found : resolved W) : M (state W) bool :=
  match mount_attributes (found_mount found) with
  | None => reject (type_error "Cannot read properties of undefined (reading 'strictGroups')")
  | Some attrs => resolve (negb (is_false (attr_strictGroups attrs)))
  end.

(** [adapter.m(vfs)(...)] in the cross-target request: a missing
    adapter or operation throws. *)
Definition invoke (found : resolved W) (m : string) (target : address)
    (rest : list value) (options : gmap string value) : M (state W) value :=
  match found_adapter found with
  | None => reject (type_error "Cannot read properties of undefined")
  | Some a =>
      match single_ops a !! m with
      | Some op =>
          do tell (AdapterCall (oid a) m);
          lift (op (found_mount found) target rest options)
      | None => reject (type_error (m +:+ " is not a function"))
      end
  end.

(** [createCrossRequestFactory(findMountpoint)(getter, method)] *)
Definition createCrossRequest (get : request -> promise (address * address))
    (method : string) (req : request) : M (state W) value :=
  match get req with
  | Rejected e => reject e
  | Resolved (from, to) =>
      let options := createOptions req in
      srcMount <~ findMountpoint from;
      destMount <~ findMountpoint to;
      let same := sameAdapter (found_adapter srcMount) (found_adapter destMount) in
      srcStrict <~ strictGroups_of srcMount;
      destStrict <~ strictGroups_of destMount;
      do checkMountpointPermission req "readfile" (RoBool false) (Some srcStrict) srcMount;
      do checkMountpointPermission req "writefile" (RoBool true) (Some destStrict) destMount;
      if same then
        match found_adapter srcMount with
        | None => reject (type_error "Cannot read properties of undefined")
        | Some a =>
            match cross_ops a !! method with
            | Some op =>
                do tell (AdapterCall (oid a) method);
                result <~ lift (op (found_mount srcMount) (found_mount destMount)
                                   from to options);
                resolve (Bool (truthy result))
            | None => reject (type_error (method +:+ " is not a function"))
            end
        end
      else
        stream <~ invoke srcMount "readfile" from [] options;
        result <~ invoke destMount "writefile" to [stream] options;
        do (if String.eqb method "rename"
            then do invoke srcMount "unlink" from [] options; resolve tt
            else resolve tt);
        resolve (Bool (truthy result))
  end.

End Dispatcher.

(** The routes of [vfs(core)]. *)
Inductive route : Type :=
| capabilities | realpath | exists_ | stat | readdir | readfile | writefile
| mkdir | unlink | touch | search | copy | rename | archive.

Section Routes.
Variable JSON_parse : string -> option value.
Variable parseInt : string -> float.
Context {W : Type}.
Variable svc : vfs_service W.

Definition vfs (r : route) : request -> M (state W) value :=
  let findMountpoint := mountpointResolver svc in
  let createRequest := createRequest JSON_parse parseInt findMountpoint in
  let createCrossRequest := createCrossRequest JSON_parse parseInt findMountpoint in
  match r with
  | capabilities => createRequest requestPath "capabilities" (RoBool false) None
  | realpath => createRequest requestPath "realpath" (RoBool false) None
  | exists_ => createRequest requestPath "exists" (RoBool false) (Some respondBoolean)
  | stat => createRequest requestPath "stat" (RoBool false) None
  | readdir => createRequest requestPath "readdir" (RoBool false) None
  | readfile => createRequest requestPath "readfile" (RoBool false) None
  | writefile => createRequest requestFile "writefile" (RoBool true) (Some respondNumber)
  | mkdir => createRequest requestPath "mkdir" (RoBool true) (Some respondBoolean)
  | unlink => createRequest requestPath "unlink" (RoBool true) (Some respondBoolean)
  | touch => createRequest requestPath "touch" (RoBool true) (Some respondBoolean)
  | search => createRequest requestSearch "search" (RoBool false) None
  | copy => createCrossRequest requestCross "copy"
  | rename => createCrossRequest requestCross "rename"
  | archive => createRequest requestSelection "archive" (RoBool false) None
  end.

End Routes.

(** The route table, column by column: what [vfs] passes to the request
    factories for each route. *)
Definition is_cross (r : route) : bool :=
  match r with copy | rename => true | _ => false end.

Definition route_getter (r : route) : getter :=
  match r with
  | writefile => requestFile
  | search => requestSearch
  | archive => requestSelection
  | _ => requestPath
  end.

Definition route_method (r : route) : string :=
  match r with
  | capabilities => "capabilities" | realpath => "realpath" | exists_ => "exists"
  | stat => "stat" | readdir => "readdir" | readfile => "readfile"
  | writefile => "writefile" | mkdir => "mkdir" | unlink => "unlink"
  | touch => "touch" | search => "search" | copy => "copy" | rename => "rename"
  | archive => "archive"
  end.

Definition route_readOnly (r : route) : bool :=
  match r with writefile | mkdir | unlink | touch => true | _ => false end.

Definition route_respond (r : route) : option (value -> value) :=
  match r with
  | writefile => Some respondNumber
  | exists_ | mkdir | unlink | touch => Some respondBoolean
  | _ => None
  end.

End Vfs.

Import Vfs.

(** ** Node's [path] module (POSIX) *)

Module NodePath.

Definition is_slash (c : ascii) : bool := Ascii.eqb c "/".

Definition starts_with_slash (s : string) : bool :=
  match s with String c _ => is_slash c | EmptyString => false end.

Definition ends_with_slash (s : string) : bool :=
  match rev (list_ascii_of_string s) with c :: _ => is_slash c | [] => false end.

Definition is_empty (s : string) : bool :=
  match s with EmptyString => true | String _ _ => false end.

(** [normalizeString]: empty and [.] segments go, [..] removes the
    segment before it; above the root it is kept only in a relative
    path.  [acc] holds the segments so far, last first. *)
Fixpoint normalizeString (allowAboveRoot : bool) (acc : list string) (segs : list string)
  : list string :=
  match segs with
  | [] => rev acc
  | s :: rest =>
      if is_empty s || String.eqb s "." then normalizeString allowAboveRoot acc rest
      else if String.eqb s ".." then
        match acc with
        | top :: acc' =>
            if String.eqb top ".."
            then normalizeString allowAboveRoot (s :: acc) rest
            else normalizeString allowAboveRoot acc' rest
        | [] =>
            if allowAboveRoot
            then normalizeString allowAboveRoot [s] rest
            else normalizeString allowAboveRoot [] rest
        end
      else normalizeString allowAboveRoot (s :: acc) rest
  end.

(** [path.normalize] *)
Definition normalize (path : string) : string :=
  if is_empty path then "."
  else
    let isAbsolute := starts_with_slash path in
    let trailingSeparator := ends_with_slash path in
    let p := Str.join "/" (normalizeString (negb isAbsolute) [] (Str.split "/" path)) in
    if is_empty p then
      if isAbsolute then "/" else if trailingSeparator then "./" else "."
    else
      (if isAbsolute then "/" else EmptyString) +:+ p
      +:+ (if trailingSeparator then "/" else EmptyString).

(** [path.join(a, b)] *)
Definition join (a b : string) : string :=
  match is_empty a, is_empty b with
  | true, true => "."
  | true, false => normalize b
  | false, true => normalize a
  | false, false => normalize (a +:+ "/" +:+ b)
  end.

Fixpoint drop_while {A} (p : A -> bool) (l : list A) : list A :=
  match l with
  | [] => []
  | x :: l' => if p x then drop_while p l' else l
  end.

Fixpoint take_while {A} (p : A -> bool) (l : list A) : list A :=
  match l with
  | [] => []
  | x :: l' => if p x then x :: take_while p l' else []
  end.

(** [path.basename(p)]: trailing slashes are ignored; what follows the
    last slash before them. *)
Definition basename (path : string) : string :=
  let r := drop_while is_slash (rev (list_ascii_of_string path)) in
  string_of_list_ascii (rev (take_while (fun c => negb (is_slash c)) r)).

(** The scan [path.dirname] and [path.parse] share: going back from the
    end over the characters from index [start] on, skip the trailing
    slashes, then the last component; what is left ends with the slash
    before that component, if there is one. *)
Definition before_base (tail : string) : list ascii :=
  drop_while (fun c => negb (is_slash c))
    (drop_while is_slash (rev (list_ascii_of_string tail))).

(** [path.dirname(p)] *)
Definition dirname (path : string) : string :=
  match path with
  | EmptyString => "."
  | String c0 tail =>
      match before_base tail with
      | [] => if is_slash c0 then "/" else "."
      | _ :: before =>
          if is_slash c0 && match before with [] => true | _ => false end then "//"
          else String c0 (string_of_list_ascii (rev before))
      end
  end.

(** [path.parse(p).dir] *)
Definition parse_dir (path : string) : string :=
  match path with
  | EmptyString => EmptyString
  | String c0 tail =>
      if is_slash c0 then
        match before_base tail with
        | [] => "/"
        | _ :: before => String c0 (string_of_list_ascii (rev before))
        end
      else
        match before_base path with
        | [] => EmptyString
        | _ :: before => string_of_list_ascii (rev before)
        end
  end.

End NodePath.

(** ** The filesystem under the system adapter *)

Module Fs.

(** A file with its bytes, or a directory with its entries. *)
Inductive node : Type :=
| File (data : string)
| Dir (entries : list (string * node)).

Fixpoint assoc {A} (k : string) (l : list (string * A)) : option A :=
  match l with
  | [] => None
  | (k', v) :: l' => if String.eqb k k' then Some v else assoc k l'
  end.

(** Replace or add ([Some]), or remove ([None]), what is named [k]. *)
Fixpoint set_entry {A} (k : string) (v : option A) (l : list (string * A))
  : list (string * A) :=
  match l with
  | [] => match v with Some x => [(k, x)] | None => [] end
  | (k', x') :: l' =>
      if String.eqb k k'
      then match v with Some x => (k, x) :: l' | None => set_entry k v l' end
      else (k', x') :: set_entry k v l'
  end.

(** The components the operating system walks for a path.  The working
    directory of the process is the root of the tree. *)
Definition components (path : string) : list string :=
  NodePath.normalizeString false [] (Str.split "/" path).

Fixpoint lookup (cs : list string) (t : node) : option node :=
  match cs with
  | [] => Some t
  | c :: cs' =>
      match t with
      | Dir es =>
          match assoc c es with
          | Some child => lookup cs' child
          | None => None
          end
      | File _ => None
      end
  end.

(** Set or remove what is at [cs]; [None] when the parent is missing or
    is a file, or when [cs] is the root. *)
Fixpoint put (cs : list string) (v : option node) (t : node) : option node :=
  match cs, t with
  | [], _ => None
  | [c], Dir es => Some (Dir (set_entry c v es))
  | c :: cs', Dir es =>
      match assoc c es with
      | Some child =>
          match put cs' v child with
          | Some child' => Some (Dir (set_entry c (Some child') es))
          | None => None
          end
      | None => None
      end
  | _ :: _, File _ => None
  end.

(** [mkdir -p] of [cs], then [leaf] at its end. *)
Fixpoint put_p (cs : list string) (leaf : node) (t : node) : option node :=
  match cs, t with
  | [], _ => None
  | [c], Dir es => Some (Dir (set_entry c (Some leaf) es))
  | c :: cs', Dir es =>
      match put_p cs' leaf (default (Dir []) (assoc c es)) with
      | Some child' => Some (Dir (set_entry c (Some child') es))
      | None => None
      end
  | _ :: _, File _ => None
  end.

Fixpoint height (t : node) : nat :=
  match t with
  | File _ => 0
  | Dir es =>
      S ((fix go (es : list (string * node)) : nat :=
            match es with
            | [] => 0
            | (_, c) :: es' => Nat.max (height c) (go es')
            end) es)
  end.

(** [fs-extra]'s [copy] of a directory onto a directory merges. *)
Fixpoint merge (src dst : node) : node :=
  match src with
  | File d => File d
  | Dir es =>
      match dst with
      | File _ => src
      | Dir ds =>
          Dir ((fix go (es : list (string * node)) (ds : list (string * node))
                  : list (string * node) :=
                  match es with
                  | [] => ds
                  | (n, c) :: es' =>
                      go es' (set_entry n
                                (Some match assoc n ds with
                                      | Some d => merge c d
                                      | None => c
                                      end) ds)
                  end) es ds)
      end
  end.

Definition errno (c msg : string) : error := mkError ErrorC (StrCode c) msg.
Definition ENOENT : error := errno "ENOENT" "ENOENT: no such file or directory".
Definition ENOTDIR : error := errno "ENOTDIR" "ENOTDIR: not a directory".
Definition EEXIST : error := errno "EEXIST" "EEXIST: file already exists".
Definition EISDIR : error := errno "EISDIR" "EISDIR: illegal operation on a directory".
Definition ENOTEMPTY : error := errno "ENOTEMPTY" "ENOTEMPTY: directory not empty".

(** [fs.stat(p)], [fs.access(p, F_OK)] *)
Definition stat (path : string) : M node node := fun t =>
  match lookup (components path) t with
  | Some n => (Resolved n, t)
  | None => (Rejected ENOENT, t)
  end.

Definition isDirectory (n : node) : bool :=
  match n with Dir _ => true | File _ => false end.

Definition isFile (n : node) : bool :=
  match n with File _ => true | Dir _ => false end.

Definition size (n : node) : nat :=
  match n with File d => String.length d | Dir _ => 0 end.

(** [fs.readdir(p)] *)
Definition readdir (path : string) : M node (list string) := fun t =>
  match lookup (components path) t with
  | Some (Dir es) => (Resolved (map fst es), t)
  | Some (File _) => (Rejected ENOTDIR, t)
  | None => (Rejected ENOENT, t)
  end.

(** What a read stream on [p] delivers, once it is consumed. *)
Definition content (path : string) (t : node) : string :=
  match lookup (components path) t with
  | Some (File d) => d
  | _ => EmptyString
  end.

(** A write stream on [p], fed [data] and ended.  When the file cannot
    be opened (no parent directory, or a directory in the way) the tree
    stays as it is. *)
Definition write (path : string) (data : string) (t : node) : node :=
  match lookup (components path) t with
  | Some (Dir _) => t
  | _ => default t (put (components path) (Some (File data)) t)
  end.

(** [fs.mkdir(p)] *)
Definition mkdir (path : string) : M node unit := fun t =>
  match lookup (components path) t with
  | Some _ => (Rejected EEXIST, t)
  | None =>
      match put (components path) (Some (Dir [])) t with
      | Some t' => (Resolved tt, t')
      | None => (Rejected ENOENT, t)
      end
  end.

(** [fs.remove(p)]: recursive, silent when there is nothing. *)
Definition remove (path : string) : M node unit := fun t =>
  match lookup (components path) t with
  | Some _ => (Resolved tt, default t (put (components path) None t))
  | None => (Resolved tt, t)
  end.

(** [fs.unlink(p)]: a file only. *)
Definition unlink (path : string) : M node unit := fun t =>
  match lookup (components path) t with
  | Some (File _) => (Resolved tt, default t (put (components path) None t))
  | Some (Dir _) => (Rejected EISDIR, t)
  | None => (Rejected ENOENT, t)
  end.

(** [fs.ensureFile(p)] *)
Definition ensureFile (path : string) : M node unit := fun t =>
  match lookup (components path) t with
  | Some (File _) => (Resolved tt, t)
  | Some (Dir _) => (Rejected EISDIR, t)
  | None =>
      match put_p (components path) (File EmptyString) t with
      | Some t' => (Resolved tt, t')
      | None => (Rejected ENOTDIR, t)
      end
  end.

(** [fs.rename(src, dest)] *)
Definition rename (src dest : string) : M node unit := fun t =>
  match lookup (components src) t with
  | None => (Rejected ENOENT, t)
  | Some n =>
      match n, lookup (components dest) t with
      | File _, Some (Dir _) => (Rejected EISDIR, t)
      | Dir _, Some (File _) => (Rejected ENOTDIR, t)
      | Dir _, Some (Dir (_ :: _)) => (Rejected ENOTEMPTY, t)
      | _, _ =>
          match put (components src) None t with
          | None => (Rejected ENOENT, t)
          | Some t1 =>
              match put (components dest) (Some n) t1 with
              | Some t2 => (Resolved tt, t2)
              | None => (Rejected ENOENT, t)
              end
          end
      end
  end.

(** [fs.copy(src, dest)] of [fs-extra] *)
Definition copy (src dest : string) : M node unit := fun t =>
  match lookup (components src) t with
  | None => (Rejected ENOENT, t)
  | Some n =>
      match n, lookup (components dest) t with
      | File _, Some (Dir _) =>
          (Rejected (mkError ErrorC NoCode
                       "Cannot overwrite directory with non-directory"), t)
      | Dir _, Some (File _) =>
          (Rejected (mkError ErrorC NoCode
                       "Cannot overwrite non-directory with directory"), t)
      | _, old =>
          match put_p (components dest)
                  (match old with Some d => merge n d | None => n end) t with
          | Some t' => (Resolved tt, t')
          | None => (Rejected ENOTDIR, t)
          end
      end
  end.

End Fs.

(** ** [adapters/vfs/system.js] *)

Module System.

(** The core instance, as far as the adapter asks it: [process.cwd()],
    [core.config("vfs.root")] and the mime resolver of the VFS service. *)
Record core := mkCore {
  cwd : string;
  vfs_root : option string;
  mime : string -> string
}.

(** What the adapter relies on from the platform and from its packages:
    [ToString] on a value that is not a string; the bytes a read stream
    delivers for [options.range]; the check [yazl] makes on the name of
    an entry ([Some] error when it throws); the bytes of a zip given
    its entries; [extract-zip]. *)
Record platform := mkPlatform {
  ToString : value -> string;
  read_range : value -> string -> string;
  yazl_check : string -> option error;
  zip_bytes : list (string * string) -> string;
  extract : string -> string -> M Fs.node unit
}.

Section Adapter.
Variable core_ : core.
Variable host : platform.

Definition to_string (v : value) : string :=
  match v with Str s => s | _ => ToString host v end.

(** The names every object inherits from [Object.prototype]: looked up
    in [segments] they are found, and have no [fn]. *)
Definition inherited : list string :=
  ["constructor"; "toString"; "valueOf"; "hasOwnProperty"; "isPrototypeOf";
   "propertyIsEnumerable"; "toLocaleString"; "__proto__"; "__defineGetter__";
   "__defineSetter__"; "__lookupGetter__"; "__lookupSetter__"].

(** [getSegment(core, session, seg)] with the [segments] table: [root],
    [vfs] and [username]. *)
Definition getSegment (session : value) (seg : string) : promise string :=
  if String.eqb seg "root" then Resolved (cwd core_)
  else if String.eqb seg "vfs" then Resolved (default (cwd core_) (vfs_root core_))
  else if String.eqb seg "username" then
    if nullish session
    then Rejected (type_error "Cannot read properties of undefined (reading 'user')")
    else if nullish (prop session "user")
    then Rejected (type_error "Cannot read properties of undefined (reading 'username')")
    else Resolved (to_string (prop (prop session "user") "username"))
  else if existsb (String.eqb seg) inherited
  then Rejected (type_error "segments[seg].fn is not a function")
  else Resolved EmptyString.

(** [matchSegments(str)]: the matches of an opening brace, one or more
    word characters and a closing brace, left to right; each is given
    by the name between its braces.  [cur] is the run of word characters
    since the last opening brace, if one is open. *)
Fixpoint scanSegments (cur : option string) (s : string) : list string :=
  match s with
  | EmptyString => []
  | String c s' =>
      if Ascii.eqb c "{" then scanSegments (Some EmptyString) s'
      else
        match cur with
        | Some name =>
            if Str.is_word c then scanSegments (Some (name +:+ String c EmptyString)) s'
            else if Ascii.eqb c "}" && negb (NodePath.is_empty name)
            then name :: scanSegments None s'
            else scanSegments None s'
        | None => scanSegments None s'
        end
  end.

Definition matchSegments (str : string) : list string := scanSegments None str.

(** The replacement patterns of [String.prototype.replace]: in the
    replacement, [$$] is a dollar, [$&] the match, [$`] what precedes
    it and [$'] what follows it. *)
Fixpoint expand (matched before after : string) (rep : string) : string :=
  match rep with
  | EmptyString => EmptyString
  | String c rest =>
      if Ascii.eqb c "$" then
        match rest with
        | String d rest' =>
            if Ascii.eqb d "$" then String "$" (expand matched before after rest')
            else if Ascii.eqb d "&" then matched +:+ expand matched before after rest'
            else if Ascii.eqb d "`" then before +:+ expand matched before after rest'
            else if Ascii.eqb d "'" then after +:+ expand matched before after rest'
            else String c (expand matched before after rest)
        | EmptyString => String c EmptyString
        end
      else String c (expand matched before after rest)
  end.

(** [s.replace(pat, rep)] for a string [pat]: the first occurrence.
    [before] holds what has been passed, last character first. *)
Fixpoint replaceFrom (before : list ascii) (pat rep s : string) : string :=
  if Str.prefix pat s then
    let b := string_of_list_ascii (rev before) in
    let a := Str.drop (String.length pat) s in
    b +:+ expand pat b a rep +:+ a
  else
    match s with
    | EmptyString => string_of_list_ascii (rev before)
    | String c s' => replaceFrom (c :: before) pat rep s'
    end.

Definition replace (pat rep s : string) : string := replaceFrom [] pat rep s.

(** [resolveSegments(core, session, str)] *)
Definition resolveSegments (session : value) (str : string) : promise string :=
  fold_left
    (fun result name =>
       match result with
       | Rejected e => Rejected e
       | Resolved r =>
           match getSegment session name with
           | Rejected e => Rejected e
           | Resolved v => Resolved (replace ("{" +:+ name +:+ "}") v r)
           end
       end)
    (matchSegments str) (Resolved str).

(** [getRealPath(core, session, mount, file)] *)
Definition getRealPath (session : value) (mount : mountpoint) (file : address)
  : promise string :=
  match mount_attributes mount with
  | None => Rejected (type_error "Cannot read properties of undefined (reading 'root')")
  | Some attrs =>
      match resolveSegments session (attr_root attrs) with
      | Rejected e => Rejected e
      | Resolved root =>
          match file with
          | One f =>
              let str := Str.drop (String.length (mount_root mount) - 1) f in
              Resolved (NodePath.join root str)
          | Many _ => Rejected (type_error "file.substring is not a function")
          end
      end
  end.

(** [options.session] *)
Definition session_of (options : gmap string value) : value :=
  default Undefined (options !! "session").

(** What [createFileIter] reads from the backend for an entry. *)
Record fileIter := mkFileIter {
  fi_isDirectory : bool;
  fi_isFile : bool;
  fi_mime : option string;
  fi_size : nat;
  fi_path : string;
  fi_filename : string
}.

(** [createFileIter(core, realRoot, file)]: when [stat] fails the entry
    counts as an empty file. *)
Definition createFileIter (realRoot file : string) : M Fs.node fileIter :=
  let filename := NodePath.basename file in
  let realPath := NodePath.join realRoot filename in
  catch
    (st <~ Fs.stat realPath;
     resolve (mkFileIter (Fs.isDirectory st) (Fs.isFile st)
                (if Fs.isFile st then Some (mime core_ realPath) else None)
                (Fs.size st) file filename))
    (fun _ => resolve (mkFileIter false true (Some (mime core_ realPath)) 0 file filename)).

Definition number_of_nat (n : nat) : float :=
  PrimFloat.of_uint63 (Uint63.of_Z (Z.of_nat n)).

(** The object of the file descriptor (its raw [stat] is left out). *)
Definition descriptor (fi : fileIter) : value :=
  Obj (list_to_map
         [("isDirectory", Bool (fi_isDirectory fi));
          ("isFile", Bool (fi_isFile fi));
          ("mime", match fi_mime fi with Some m => Str m | None => Null end);
          ("size", Num (number_of_nat (fi_size fi)));
          ("path", Str (fi_path fi));
          ("filename", Str (fi_filename fi))]).

(** [wrapper(method, cb, ...args)(vfs)(file, options)]: the real path,
    then the [fs] method on it. *)
Definition wrapper {A} (method : string -> M Fs.node A)
    (cb : M Fs.node A -> gmap string value -> M Fs.node value)
    (mount : mountpoint) (file : address) (options : gmap string value) : M Fs.node value :=
  realPath <~ settle (getRealPath (session_of options) mount file);
  cb (method realPath) options.

(** The default callback: [promise.then(() => true)]. *)
Definition then_true {A} (promise : M Fs.node A) (_ : gmap string value) : M Fs.node value :=
  do promise; resolve (Bool true).

(** [crossWrapper(method)(srcVfs, destVfs)(src, dest, options)] *)
Definition crossWrapper (method : string -> string -> M Fs.node unit)
    (srcMount destMount : mountpoint) (src dest : address)
    (options : gmap string value) : M Fs.node value :=
  realSource <~ settle (getRealPath (session_of options) srcMount src);
  realDest <~ settle (getRealPath (session_of options) destMount dest);
  do method realSource realDest;
  resolve (Bool true).

Definition capabilities_op : single_op Fs.node := fun _ _ _ _ =>
  resolve (Obj (list_to_map [("sort", Bool false); ("pagination", Bool false)])).

Definition realpath_op : single_op Fs.node := fun mount file _ options =>
  realPath <~ settle (getRealPath (session_of options) mount file);
  resolve (Str realPath).

Definition exists_op : single_op Fs.node := fun mount file _ options =>
  wrapper Fs.stat
    (fun promise _ => catch (do promise; resolve (Bool true))
                            (fun _ => resolve (Bool false)))
    mount file options.

Definition stat_op : single_op Fs.node := fun mount file _ options =>
  realPath <~ settle (getRealPath (session_of options) mount file);
  do Fs.stat realPath;
  fi <~ createFileIter (NodePath.dirname realPath) realPath;
  resolve (descriptor fi).

(** [s.replace(/\/?$/, "/")] *)
Definition ensure_slash (s : string) : string :=
  if NodePath.ends_with_slash s then s else s +:+ "/".

Fixpoint all {A B} (f : A -> M Fs.node B) (l : list A) : M Fs.node (list B) :=
  match l with
  | [] => resolve []
  | x :: xs => y <~ f x; ys <~ all f xs; resolve (y :: ys)
  end.

Definition readdir_op : single_op Fs.node := fun mount root _ options =>
  realPath <~ settle (getRealPath (session_of options) mount root);
  files <~ Fs.readdir realPath;
  fis <~ all (fun file =>
                createFileIter realPath
                  (ensure_slash (address_to_string root) +:+ file)) files;
  resolve (Arr (descriptor <$> fis)).

Definition readfile_op : single_op Fs.node := fun mount file _ options =>
  realPath <~ settle (getRealPath (session_of options) mount file);
  st <~ Fs.stat realPath;
  if negb (Fs.isFile st) then resolve (Bool false)
  else fun t =>
    (Resolved (Stream (read_range host (default Undefined (options !! "range"))
                         (Fs.content realPath t))), t).

Definition mkdir_op : single_op Fs.node := fun mount file _ options =>
  wrapper Fs.mkdir
    (fun promise options =>
       catch (do promise; resolve (Bool true))
             (fun e =>
                if truthy (default Undefined (options !! "ensure"))
                   && match code e with StrCode c => String.eqb c "EEXIST" | _ => false end
                then resolve (Bool true)
                else reject e))
    mount file options.

(** [writefile]: an existing directory refuses the write with [false];
    otherwise the data are piped to the file and the promise resolves
    [true] when they end.  Data that are no stream have no [on] to call:
    over an existing file the promise rejects with that [TypeError];
    where the file is missing the source leaves the promise pending,
    which is given here as the same rejection: in either case nothing
    is written and no value comes back. *)
Definition writefile_op : single_op Fs.node := fun mount file rest options =>
  realPath <~ settle (getRealPath (session_of options) mount file);
  let write : M Fs.node value :=
    match rest with
    | Stream data :: _ => fun t => (Resolved (Bool true), Fs.write realPath data t)
    | _ => reject (type_error "data.on is not a function")
    end in
  fun t =>
    match Fs.stat realPath t with
    | (Resolved st, _) =>
        if Fs.isDirectory st then (Resolved (Bool false), t) else write t
    | (Rejected err, _) =>
        match code err with
        | StrCode c => if String.eqb c "ENOENT" then write t else (Rejected err, t)
        | _ => (Rejected err, t)
        end
    end.

Definition unlink_op : single_op Fs.node := fun mount file _ options =>
  wrapper Fs.remove then_true mount file options.

Definition touch_op : single_op Fs.node := fun mount file _ options =>
  wrapper Fs.ensureFile then_true mount file options.

Definition rename_op : cross_op Fs.node := crossWrapper Fs.rename.
Definition copy_op : cross_op Fs.node := crossWrapper Fs.copy.

(** The archive under construction: where its output goes, and the
    entries added so far -- the name in the archive and the real path
    the bytes are read from. *)
Record zipfile := mkZip {
  zip_location : string;
  zip_entries : list (string * string)
}.

(** [addFileToArchive(zipfile, realPath)] *)
Definition addFileToArchive (zip : zipfile) (realPath : string) : M Fs.node zipfile :=
  let archiveRoot := NodePath.parse_dir (zip_location zip) +:+ "/" in
  let destination := replace archiveRoot EmptyString realPath in
  match yazl_check host destination with
  | Some e => reject e
  | None =>
      resolve (mkZip (zip_location zip) (zip_entries zip ++ [(destination, realPath)]))
  end.

(** [for (const x of l) { s = await f(s, x) }] *)
Fixpoint for_each {A S} (f : S -> A -> M Fs.node S) (l : list A) (s : S) : M Fs.node S :=
  match l with
  | [] => resolve s
  | x :: xs => s' <~ f s x; for_each f xs s'
  end.

(** [addDirToArchive(zipfile, realPath)], given [addToArchive]. *)
Definition addDirToArchive (addToArchive : zipfile -> string -> M Fs.node zipfile)
    (zip : zipfile) (realPath : string) : M Fs.node zipfile :=
  names <~ Fs.readdir realPath;
  files <~ all (fun fileName =>
                  let filePath := ensure_slash realPath +:+ fileName in
                  createFileIter (NodePath.dirname filePath) filePath) names;
  for_each (fun zip file =>
              if fi_isDirectory file
              then addToArchive zip (fi_path file)
              else addFileToArchive zip (fi_path file))
           files zip.

Definition stack_overflow : error :=
  mkError ErrorC NoCode "Maximum call stack size exceeded".

(** [addToArchive(zipfile, realPath)].  The recursion follows the
    directories of the backend; [fuel] bounds its depth. *)
Fixpoint addToArchive (fuel : nat) (zip : zipfile) (realPath : string)
  : M Fs.node zipfile :=
  match fuel with
  | O => reject stack_overflow
  | S fuel' =>
      st <~ Fs.stat realPath;
      if Fs.isDirectory st
      then addDirToArchive (addToArchive fuel') zip realPath
      else addFileToArchive zip realPath
  end.

(** [selection.map((file) => getRealPath(...))] *)
Fixpoint realPaths_of (session : value) (mount : mountpoint) (files : list address)
  : promise (list string) :=
  match files with
  | [] => Resolved []
  | f :: fs =>
      match getRealPath session mount f with
      | Rejected e => Rejected e
      | Resolved p =>
          match realPaths_of session mount fs with
          | Rejected e => Rejected e
          | Resolved ps => Resolved (p :: ps)
          end
      end
  end.

(** The bytes of the finished archive: each entry with what its read
    stream delivers. *)
Definition archive_bytes (zip : zipfile) (t : Fs.node) : string :=
  zip_bytes host (map (fun e => (fst e, Fs.content (snd e) t)) (zip_entries zip)).

(** The [compress] case of [archive].  The output stream creates the
    file; the entries are added within [try]; on success the archive is
    ended, on an error it is ended, the file is unlinked and the error
    is thrown again. *)
Definition compress (realPaths : list string) : M Fs.node value := fun t0 =>
  let location := hd "undefined" realPaths +:+ ".zip" in
  let t1 := Fs.write location EmptyString t0 in
  match for_each (addToArchive (S (Fs.height t1))) realPaths (mkZip location []) t1 with
  | (Resolved zip, t2) => (Resolved (Bool true), Fs.write location (archive_bytes zip t2) t2)
  | (Rejected err, t2) => (Rejected err, snd (Fs.unlink location t2))
  end.

(** The [extract] case: the target is the path without its last
    extension. *)
Definition extract_all (realPaths : list string) : M Fs.node value :=
  do for_each (fun _ realPath =>
                 let target := Str.join "." (removelast (Str.split "." realPath)) in
                 extract host realPath target)
              realPaths tt;
  resolve (Bool true).

(** [archive(vfs)(selection, options)] *)
Definition archive_op : single_op Fs.node := fun mount selection _ options =>
  match selection with
  | One _ => reject (type_error "selection.map is not a function")
  | Many files =>
      realPaths <~ settle (realPaths_of (session_of options) mount files);
      let action :=
        let a := default Undefined (options !! "action") in
        if truthy a then a else Str "compress" in
      match action with
      | Str a =>
          if String.eqb a "compress" then compress realPaths
          else if String.eqb a "extract" then extract_all realPaths
          else reject (mkError ErrorC NoCode ("Unknown archive action: '" +:+ a +:+ "'"))
      | _ =>
          reject (mkError ErrorC NoCode
                    ("Unknown archive action: '" +:+ to_string action +:+ "'"))
      end
  end.

(** The object the module exports for [core]; [search] and [watch],
    which rest on [filehound] and [chokidar], are left out.  [id] is
    the identity of the object: every call of the export makes a new
    one. *)
Definition systemAdapter (id : nat) : adapter Fs.node :=
  mkAdapter id
    (list_to_map
       [("capabilities", capabilities_op); ("realpath", realpath_op);
        ("exists", exists_op); ("stat", stat_op); ("readdir", readdir_op);
        ("readfile", readfile_op); ("mkdir", mkdir_op); ("writefile", writefile_op);
        ("unlink", unlink_op); ("touch", touch_op); ("archive", archive_op)])
    (list_to_map [("rename", rename_op); ("copy", copy_op)]).

End Adapter.

End System.

(** ** [vfs.js]: the end of a request *)

Module Finally.

(** [fs.existsSync(n)]: false for what is no path. *)
Definition existsSync (n : value) (t : Fs.node) : bool :=
  match n with
  | Str s => negb (NodePath.is_empty s) && bool_decide (is_Some (Fs.lookup (Fs.components s) t))
  | _ => false
  end.

(** [onDone(req, res)] on the disk of the temporary files: [req.files]
    is given by its properties in the order [for ... in] visits them.
    For each, the file named by its [path] property is removed when it
    exists; reading [path] of [null] or [undefined] throws, which the
    [try] around it catches. *)
Definition onDone (files : option (list (string * value))) (t : Fs.node) : Fs.node :=
  match files with
  | None => t
  | Some entries =>
      fold_left
        (fun t e =>
           match prop (snd e) "path" with
           | Str s => if existsSync (Str s) t then snd (Fs.remove s t) else t
           | _ => t
           end)
        entries t
  end.

End Finally.

(** ** Valid addresses *)

(** The spec's valid address, in its words: a non-empty prefix of word
    characters, hyphens and underscores, followed by a colon and a
    path. *)
Definition valid_address (s : string) : Prop :=
  exists nm path,
    s = nm +:+ ":" +:+ path
    /\ nm <> EmptyString
    /\ Str.forallb is_name_char nm = true.

(** The same, decided: the longest run of name characters is not empty
    and a colon follows it. *)
Definition has_prefix (s : string) : bool :=
  match Str.span is_name_char s with
  | (String _ _, String c _) => Ascii.eqb c ":"
  | _ => false
  end.

(** [b] is empty or starts with a character that fails [p]. *)
Definition starts_off (p : ascii -> bool) (b : string) : Prop :=
  match b with String c _ => p c = false | EmptyString => True end.

(** No character of [s] is [sep]. *)
Definition free_of (sep : ascii) (s : string) : bool :=
  Str.forallb (fun c => negb (Ascii.eqb c sep)) s.

(** No two slashes of [s] are adjacent. *)
Fixpoint collapsed (s : string) : bool :=
  match s with
  | EmptyString => true
  | String c s' =>
      match s' with
      | String d _ => negb (Ascii.eqb c "/" && Ascii.eqb d "/") && collapsed s'
      | EmptyString => true
      end
  end.

(** A name a directory entry can have: not empty, without slash, and
    neither [.] nor [..]. *)
Definition file_name (s : string) : bool :=
  negb (NodePath.is_empty s) && free_of "/" s
  && negb (String.eqb s ".") && negb (String.eqb s "..").






(** The name under which the adapter of a mountpoint is registered. *)
Definition adapter_name (mount : mountpoint) : string :=
  match mount_adapter mount with
  | Some a => if String.eqb a EmptyString then "system" else a
  | None => "system"
  end.

(** The field of the request that holds the address of a single-target
    route, as the getters read it. *)
Definition route_field (r : route) : string :=
  match r with
  | search => "root"
  | archive => "selection"
  | _ => "path"
  end.

(** ** Reading the log *)

Module Trace.

Definition is_adapter_call (ev : event) : bool :=
  match ev with AdapterCall _ _ => true | _ => false end.

Definition is_group_check (ev : event) : bool :=
  match ev with GroupCheck _ _ _ => true | _ => false end.

Definition is_granted (ev : event) : bool :=
  match ev with Granted _ _ => true | _ => false end.

(** Resolution found no mount, or the gate rejected. *)
Definition is_failure (ev : event) : bool :=
  match ev with Lookup _ false | Denied _ _ => true | _ => false end.

(** What the adapter phase of a request logs. *)
Definition is_backend_event (ev : event) : bool :=
  match ev with AdapterCall _ _ | Header _ => true | _ => false end.

(** Every adapter call of the trace comes after at least [n] grants of
    the gate and after no failure. *)
Definition authorized_before_calls (n : nat) (tr : list event) : Prop :=
  forall pre ev post,
    tr = pre ++ ev :: post ->
    is_adapter_call ev = true ->
    n <= length (List.filter is_granted pre)
    /\ existsb is_failure pre = false.

(** [c] appends to the log only events that satisfy [Q], and with
    [keep] it leaves the backend as it is. *)
Definition appends {W A} (Q : event -> bool) (keep : bool) (c : M (state W) A) : Prop :=
  forall st, exists evs,
    log (snd (c st)) = log st ++ evs
    /\ forallb Q evs = true
    /\ (keep = true -> backend (snd (c st)) = backend st).


(** [c] leaves the state as it finds it, however it settles. *)
Definition keeps {S A} (c : M S A) : Prop := forall st, snd (c st) = st.

End Trace.

Import Trace.

(** ** Fixtures: the mounts and requests the properties are tried on *)

Module Fixtures.

(** The mount of the repository's permission tests, with [groups] set to
    the list of names [G]. *)
Definition mount_with_groups (G : option (list string)) : mountpoint :=
  mkMount "meeseOS" "meeseOS:/" None
    (Some (mkAttributes EmptyString (Bool true)
             (match G with Some l => Some (Named <$> l) | None => None end)
             Undefined Undefined Undefined Undefined)).

Definition no_flags (root : string) (readOnly : value) (groups : option (list group_entry))
  : attributes :=
  mkAttributes root readOnly groups Undefined Undefined Undefined Undefined.

(** Three mounts: a home directory per user, a read-only library, and
    an archive reserved to the group [staff]. *)
Definition home : mountpoint :=
  mkMount "home" "home:/" None (Some (no_flags "{vfs}/{username}" Undefined None)).

Definition library : mountpoint :=
  mkMount "library" "library:/" None (Some (no_flags "{root}/library" (Bool true) None)).

Definition vault : mountpoint :=
  mkMount "vault" "vault:/" (Some "backup")
    (Some (no_flags "{vfs}/vault" Undefined (Some [Named "staff"]))).

Definition alice : session := mkSession (mkUser "alice" ["users"]).

(** A request with the given fields, made by [alice]. *)
Definition request_of (fields : list (string * value)) : request :=
  mkRequest (list_to_map fields) None (Some alice) None.

(** An adapter over a backend without content: every operation it has
    resolves [true]. *)
Definition yes_op : single_op unit := fun _ _ _ _ => resolve (Bool true).

Definition yes_adapter (id : nat) : adapter unit :=
  mkAdapter id
    (list_to_map [("readfile", yes_op); ("writefile", yes_op); ("unlink", yes_op);
                  ("mkdir", yes_op); ("touch", yes_op); ("exists", yes_op)])
    (list_to_map [("copy", fun _ _ _ _ _ => resolve (Bool true));
                  ("rename", fun _ _ _ _ _ => resolve (Bool true))]).

Definition plain_service : vfs_service unit :=
  mkService (list_to_map [("system", yes_adapter 0); ("backup", yes_adapter 1)])
            [home; library; vault].

Definition shared : mountpoint :=
  mkMount "shared" "shared:/" (Some "backup") (Some (no_flags "{vfs}/shared" Undefined None)).

(** A server rooted at [/srv], with its VFS under [/srv/vfs]. *)
Definition the_core : System.core :=
  System.mkCore "/srv" (Some "/srv/vfs") (fun _ => "application/octet-stream").

(** A platform for the examples: whole-file reads; entry names that are
    empty, absolute or climb with [..] are refused; an archive lists its
    entries. *)
Definition refuse_entry (name : string) : option error :=
  if NodePath.is_empty name then Some (mkError ErrorC NoCode "empty metadataPath")
  else if NodePath.starts_with_slash name
  then Some (mkError ErrorC NoCode ("absolute path: " +:+ name))
  else if existsb (String.eqb "..") (Str.split "/" name)
  then Some (mkError ErrorC NoCode ("invalid relative path: " +:+ name))
  else None.

Definition list_entries (es : list (string * string)) : string :=
  Str.join ";" (map (fun e => fst e +:+ "=" +:+ snd e) es).

Definition the_host : System.platform :=
  System.mkPlatform (fun _ => "[object Object]") (fun _ data => data)
    refuse_entry list_entries (fun _ _ => resolve tt).

(** The disk: alice's home with a note and a folder of documents, and
    the shared area with an inbox. *)
Definition disk : Fs.node :=
  Fs.Dir
    [("srv", Fs.Dir
       [("vfs", Fs.Dir
          [("alice", Fs.Dir
             [("notes.txt", Fs.File "hello");
              ("docs", Fs.Dir
                 [("a.txt", Fs.File "A");
                  ("sub", Fs.Dir [("b.txt", Fs.File "B")])])]);
           ("shared", Fs.Dir [("inbox", Fs.Dir [])])])])].

(** Two objects made by the export of [system.js], registered as
    [system] and as [backup]. *)
Definition disk_service : vfs_service Fs.node :=
  mkService
    (list_to_map [("system", System.systemAdapter the_core the_host 0);
                  ("backup", System.systemAdapter the_core the_host 1)])
    [home; library; vault; shared].

Definition on_disk : state Fs.node := mkState [] disk.

Definition public : mountpoint :=
  mkMount "public" "public:/" None (Some (no_flags "{vfs}/shared" Undefined None)).

(** The same disk served with [public] next to [shared]: both mounts
    name the shared area, the first through the [system] object, the
    second through the [backup] object. *)
Definition disk_service2 : vfs_service Fs.node :=
  mkService (adapters disk_service) [home; library; vault; shared; public].





Definition no_json : string -> option value := fun _ => None.
Definition no_int : string -> float := fun _ => 0%float.

Definition start : state unit := mkState [] tt.

(** The options of a call made for [alice]. *)
Definition as_alice : gmap string value :=
  {["session" := session_value (Some alice)]}.

End Fixtures.

Import Fixtures.

(** * Properties *)

(** ** How the dispatcher's computations extend the log *)

Ltac run_monad :=
  repeat progress
    (unfold deny, await, catch, tell, reject, resolve, settle in *;
     cbn [fst snd log backend] in *).

Lemma appends_resolve {W A} Q keep (a : A) : appends (W:=W) Q keep (resolve a).
Proof. intros st. exists []. cbn. rewrite app_nil_r. auto. Qed.

Lemma appends_reject {W A} Q keep e : appends (W:=W) (A:=A) Q keep (reject e).
Proof. intros st. exists []. cbn. rewrite app_nil_r. auto. Qed.

Lemma appends_tell {W} (Q : event -> bool) keep ev :
  Q ev = true -> appends (W:=W) Q keep (tell ev).
Proof. intros H st. exists [ev]. cbn. rewrite H. auto. Qed.

Lemma appends_lift {W A} Q (f : M W A) : appends Q false (lift f).
Proof.
  intros st. exists []. unfold lift. destruct (f (backend st)) as [r w]. cbn.
  rewrite app_nil_r. repeat split; auto; discriminate.
Qed.

Lemma appends_await {W A B} Q keep (c : M (state W) A) (k : A -> M (state W) B) :
  appends Q keep c -> (forall a, appends Q keep (k a)) -> appends Q keep (await c k).
Proof.
  intros Hc Hk st. unfold await.
  destruct (Hc st) as (e1 & H1 & Q1 & B1).
  destruct (c st) as [[a|e] st1]; cbn [snd] in *.
  - destruct (Hk a st1) as (e2 & H2 & Q2 & B2).
    exists (e1 ++ e2). rewrite H2, H1, app_assoc, forallb_app, Q1, Q2.
    repeat split; auto. intros Hkeep. rewrite B2, B1; auto.
  - exists e1. auto.
Qed.

Lemma appends_catch {W A} Q keep (c : M (state W) A) (h : error -> M (state W) A) :
  appends Q keep c -> (forall e, appends Q keep (h e)) -> appends Q keep (catch c h).
Proof.
  intros Hc Hh st. unfold catch.
  destruct (Hc st) as (e1 & H1 & Q1 & B1).
  destruct (c st) as [[a|e] st1]; cbn [snd] in *.
  - exists e1. auto.
  - destruct (Hh e st1) as (e2 & H2 & Q2 & B2).
    exists (e1 ++ e2). rewrite H2, H1, app_assoc, forallb_app, Q1, Q2.
    repeat split; auto. intros Hkeep. rewrite B2, B1; auto.
Qed.

Lemma appends_weaken {W A} Q (c : M (state W) A) :
  appends Q true c -> appends Q false c.
Proof.
  intros H st. destruct (H st) as (evs & ? & ? & ?). exists evs. repeat split; auto;
  discriminate.
Qed.

(** ** Strings *)

Section Strings.
Implicit Types (s a b : string) (p : ascii -> bool) (c : ascii).

Lemma app_nil_string b : EmptyString +:+ b = b.
Proof. reflexivity. Qed.

Lemma app_cons_string c a b : String c a +:+ b = String c (a +:+ b).
Proof. reflexivity. Qed.

Lemma span_app p a b :
  Str.forallb p a = true -> starts_off p b -> Str.span p (a +:+ b) = (a, b).
Proof.
  induction a as [|c a IH]; intros Ha Hb.
  - rewrite app_nil_string. destruct b as [|c b]; cbn in *; [reflexivity | now rewrite Hb].
  - rewrite app_cons_string. cbn in *. apply andb_prop in Ha as [Hc Ha]. now rewrite Hc, IH.
Qed.

Lemma span_spec p s :
  s = fst (Str.span p s) +:+ snd (Str.span p s)
  /\ Str.forallb p (fst (Str.span p s)) = true
  /\ starts_off p (snd (Str.span p s)).
Proof.
  induction s as [|c s (IH1 & IH2 & IH3)]; cbn; [auto|].
  destruct (p c) eqn:Hc.
  - destruct (Str.span p s) as [a b]. cbn in *. rewrite ?Hc, IH2, app_cons_string.
    repeat split; auto. now f_equal.
  - cbn. auto.
Qed.

Lemma collapse_cons c s :
  Ascii.eqb c "/" = false -> Str.collapse (String c s) = String c (Str.collapse s).
Proof. intros H. destruct s; cbn; now rewrite H. Qed.

Lemma collapse_head c s : exists t, Str.collapse (String c s) = String c t.
Proof.
  revert c. induction s as [|d s IH]; intros c.
  - cbn. destruct (Ascii.eqb c "/"); eauto.
  - change (Str.collapse (String c (String d s)))
      with (if Ascii.eqb c "/"
            then if Ascii.eqb d "/" then Str.collapse (String d s)
                 else String c (Str.collapse (String d s))
            else String c (Str.collapse (String d s))).
    destruct (Ascii.eqb c "/") eqn:Hc; [|eauto].
    destruct (Ascii.eqb d "/") eqn:Hd; [|eauto].
    apply Ascii.eqb_eq in Hc, Hd. subst. apply IH.
Qed.

Lemma span_collapse p s :
  p "/"%char = false ->
  Str.span p (Str.collapse s)
  = (fst (Str.span p s), Str.collapse (snd (Str.span p s))).
Proof.
  intros Hp. induction s as [|c s IH]; [reflexivity|].
  cbn [Str.span]. destruct (p c) eqn:Hc.
  - assert (Hne : Ascii.eqb c "/" = false).
    { destruct (Ascii.eqb c "/") eqn:E; [|reflexivity].
      apply Ascii.eqb_eq in E. congruence. }
    rewrite (collapse_cons _ _ Hne). cbn [Str.span]. rewrite Hc, IH.
    now destruct (Str.span p s).
  - destruct (collapse_head c s) as [t Ht]. cbn [fst snd]. rewrite Ht.
    cbn [Str.span]. now rewrite Hc.
Qed.




Lemma split_cons_sep (sep : ascii) s :
  Str.split sep (String sep s) = EmptyString :: Str.split sep s.
Proof. cbn. now rewrite Ascii.eqb_refl. Qed.

Lemma split_not_nil (sep : ascii) s : Str.split sep s <> [].
Proof.
  induction s as [|c s IH]; cbn; [discriminate|].
  destruct (Ascii.eqb c sep); [discriminate|].
  destruct (Str.split sep s); discriminate.
Qed.

Lemma split_cons_other (sep c : ascii) s h t :
  Ascii.eqb c sep = false ->
  Str.split sep s = h :: t ->
  Str.split sep (String c s) = String c h :: t.
Proof. intros Hc Hs. cbn. now rewrite Hc, Hs. Qed.

Lemma join_cons2 (sep x y : string) l :
  Str.join sep (x :: y :: l) = x +:+ sep +:+ Str.join sep (y :: l).
Proof. reflexivity. Qed.

(** Splitting and joining on a separator. *)
Lemma join_split (sep : ascii) s :
  Str.join (String sep EmptyString) (Str.split sep s) = s.
Proof.
  induction s as [|c s IH]; [reflexivity|].
  destruct (Str.split sep s) as [|h t] eqn:Hs; [now elim (split_not_nil sep s)|].
  cbn [Str.split]. rewrite Hs. destruct (Ascii.eqb c sep) eqn:Hc.
  - apply Ascii.eqb_eq in Hc. subst c. rewrite join_cons2, IH. reflexivity.
  - rewrite <- IH. destruct t; reflexivity.
Qed.

Lemma split_free (sep : ascii) s : free_of sep s = true -> Str.split sep s = [s].
Proof.
  induction s as [|c s IH]; [reflexivity|]. cbn. intros H.
  apply andb_prop in H as [Hc H]. apply negb_true_iff in Hc.
  now rewrite Hc, (IH H).
Qed.

Lemma split_app_sep (sep : ascii) x s :
  free_of sep x = true ->
  Str.split sep (x +:+ String sep s) = x :: Str.split sep s.
Proof.
  induction x as [|c x IH]; intros H.
  - rewrite app_nil_string. apply split_cons_sep.
  - cbn in H. apply andb_prop in H as [Hc H]. apply negb_true_iff in Hc.
    rewrite app_cons_string. now apply split_cons_other; [|apply IH].
Qed.

Lemma split_join (sep : ascii) (l : list string) :
  l <> [] ->
  Forall (fun x => free_of sep x = true) l ->
  Str.split sep (Str.join (String sep EmptyString) l) = l.
Proof.
  induction l as [|x l IH]; [congruence|]. intros _ H.
  apply Forall_cons in H as [Hx Hl].
  destruct l as [|y l]; [now apply split_free|].
  rewrite join_cons2. change (String sep EmptyString +:+ ?s) with (String sep s).
  rewrite (split_app_sep sep x _ Hx), IH; [reflexivity | discriminate | assumption].
Qed.

Lemma collapse_unfold c d s :
  Str.collapse (String c (String d s))
  = if Ascii.eqb c "/" && Ascii.eqb d "/" then Str.collapse (String d s)
    else String c (Str.collapse (String d s)).
Proof.
  change (Str.collapse (String c (String d s)))
    with (if Ascii.eqb c "/"
          then if Ascii.eqb d "/" then Str.collapse (String d s)
               else String c (Str.collapse (String d s))
          else String c (Str.collapse (String d s))).
  destruct (Ascii.eqb c "/"), (Ascii.eqb d "/"); reflexivity.
Qed.

Lemma collapse_single c : Str.collapse (String c EmptyString) = String c EmptyString.
Proof. cbn. now destruct (Ascii.eqb c "/"). Qed.

Lemma collapse_collapsed s : collapsed (Str.collapse s) = true.
Proof.
  induction s as [|c s IH]; [reflexivity|].
  destruct s as [|d s]; [now rewrite collapse_single|].
  rewrite collapse_unfold.
  destruct (Ascii.eqb c "/" && Ascii.eqb d "/") eqn:Hcd; [exact IH|].
  destruct (collapse_head d s) as [t Ht]. rewrite Ht in *.
  change (negb (Ascii.eqb c "/" && Ascii.eqb d "/") && collapsed (String d t) = true).
  now rewrite Hcd, IH.
Qed.









Lemma forallb_impl p q s :
  (forall c, p c = true -> q c = true) ->
  Str.forallb p s = true -> Str.forallb q s = true.
Proof.
  intros Hpq. induction s as [|c s IH]; [reflexivity|]. cbn. intros H.
  apply andb_prop in H as [Hc H]. now rewrite (Hpq c Hc), (IH H).
Qed.





End Strings.

(** ** Paths *)

Section Paths.
Import NodePath.

Lemma split_app_sep_any (sep : ascii) (a b : string) :
  Str.split sep (a +:+ String sep b) = Str.split sep a ++ Str.split sep b.
Proof.
  induction a as [|c a IH].
  - rewrite app_nil_string. apply split_cons_sep.
  - rewrite app_cons_string. cbn [Str.split]. rewrite IH.
    destruct (Ascii.eqb c sep); [reflexivity|].
    destruct (Str.split sep a) as [|h t] eqn:E; [now elim (split_not_nil sep a)|].
    reflexivity.
Qed.

Lemma split_elem_free (sep : ascii) (s x : string) :
  x ∈ Str.split sep s -> free_of sep x = true.
Proof.
  revert x. induction s as [|c s IH]; intros x Hx.
  - cbn in Hx. apply list_elem_of_singleton in Hx. now subst.
  - cbn [Str.split] in Hx. destruct (Ascii.eqb c sep) eqn:Hc.
    + apply elem_of_cons in Hx as [-> | Hx]; [reflexivity | now apply IH].
    + destruct (Str.split sep s) as [|h t] eqn:E; [now elim (split_not_nil sep s)|].
      apply elem_of_cons in Hx as [-> | Hx].
      * cbn. rewrite Hc. apply IH, list_elem_of_here.
      * apply IH. now apply list_elem_of_further.
Qed.

Lemma normalizeString_app allow acc l1 l2 :
  normalizeString allow acc (l1 ++ l2)
  = normalizeString allow (rev (normalizeString allow acc l1)) l2.
Proof.
  revert acc. induction l1 as [|s l1 IH]; intros acc.
  - cbn. now rewrite rev_involutive.
  - cbn [app normalizeString]. repeat case_match; apply IH.
Qed.

Lemma file_name_pushes allow acc s l :
  file_name s = true ->
  normalizeString allow acc (s :: l) = normalizeString allow (s :: acc) l.
Proof.
  unfold file_name. intros H.
  apply andb_prop in H as [H H3]. apply andb_prop in H as [H H2].
  apply andb_prop in H as [H0 H1].
  apply negb_true_iff in H0, H2, H3. cbn [normalizeString].
  now rewrite H0, H2, H3.
Qed.

(** A list of entry names is normal already. *)
Lemma normalizeString_names allow acc l :
  Forall (fun s => file_name s = true) l ->
  normalizeString allow acc l = rev acc ++ l.
Proof.
  revert acc. induction l as [|s l IH]; intros acc H.
  - cbn. now rewrite app_nil_r.
  - apply Forall_cons in H as [Hs Hl].
    rewrite (file_name_pushes _ _ _ _ Hs), (IH _ Hl). cbn. now rewrite <- app_assoc.
Qed.

(** What [normalizeString] returns for an absolute path are entry names. *)
Lemma normalizeString_false_names acc l :
  Forall (fun s => free_of "/" s = true) l ->
  Forall (fun s => file_name s = true) acc ->
  Forall (fun s => file_name s = true) (normalizeString false acc l).
Proof.
  revert acc. induction l as [|s l IH]; intros acc Hl Hacc.
  - cbn. now apply Forall_rev.
  - apply Forall_cons in Hl as [Hs Hl]. cbn [normalizeString].
    destruct (is_empty s || String.eqb s ".") eqn:E1; [now apply IH|].
    destruct (String.eqb s "..") eqn:E2.
    + destruct acc as [|top acc]; [now apply IH|].
      apply Forall_cons in Hacc as [Htop Hacc].
      destruct (String.eqb top "..") eqn:E3; [|now apply IH].
      apply String.eqb_eq in E3. subst top. discriminate Htop.
    + apply IH; [assumption|]. apply Forall_cons. split; [|assumption].
      apply orb_false_iff in E1 as [E0 E1]. unfold file_name.
      now rewrite E0, Hs, E1, E2.
Qed.

Lemma components_names (path : string) :
  Forall (fun s => file_name s = true) (Fs.components path).
Proof.
  unfold Fs.components. apply normalizeString_false_names; [|constructor].
  apply Forall_forall. intros x Hx. now apply split_elem_free in Hx.
Qed.

(** In a relative path the result is that of the absolute reading, after
    some [..]. *)
Lemma replicate_snoc {A} (x : A) k : replicate k x ++ [x] = x :: replicate k x.
Proof. induction k as [|k IH]; cbn; [reflexivity | now rewrite IH]. Qed.

Lemma rev_replicate {A} (x : A) k : rev (replicate k x) = replicate k x.
Proof.
  induction k as [|k IH]; [reflexivity|]. cbn. now rewrite IH, replicate_snoc.
Qed.

Lemma normalizeString_true_false l acc k :
  Forall (fun s => String.eqb s ".." = false) acc ->
  exists k',
    normalizeString true (acc ++ replicate k "..") l
    = replicate k' ".." ++ normalizeString false acc l.
Proof.
  revert acc k. induction l as [|s l IH]; intros acc k Hacc.
  - exists k. cbn. now rewrite rev_app_distr, rev_replicate.
  - cbn [normalizeString].
    destruct (is_empty s || String.eqb s ".") eqn:E1; [now apply IH|].
    destruct (String.eqb s "..") eqn:E2.
    + apply String.eqb_eq in E2. subst s.
      destruct acc as [|top acc].
      * cbn [app]. destruct k as [|k].
        -- apply (IH [] 1). constructor.
        -- change (replicate (S k) "..") with (".." :: replicate k "..").
           cbv iota. change (String.eqb ".." "..") with true. cbv iota.
           change (".." :: ".." :: replicate k "..") with ([] ++ replicate (S (S k)) "..").
           apply (IH [] (S (S k))). constructor.
      * apply Forall_cons in Hacc as [Htop Hacc].
        cbn [app]. rewrite Htop. now apply IH.
    + change (s :: acc ++ replicate k "..") with ((s :: acc) ++ replicate k "..").
      apply IH. apply Forall_cons. now split.
Qed.

Lemma file_name_not_dots (s : string) : file_name s = true -> String.eqb s ".." = false.
Proof.
  unfold file_name. intros H. apply andb_prop in H as [_ H]. now apply negb_true_iff.
Qed.

Lemma normalizeString_skip_dots k l :
  normalizeString false [] (replicate k ".." ++ l) = normalizeString false [] l.
Proof. induction k as [|k IH]; [reflexivity | exact IH]. Qed.

Lemma normalizeString_skip_empty allow acc l :
  normalizeString allow acc (EmptyString :: l) = normalizeString allow acc l.
Proof. reflexivity. Qed.

Lemma normalizeString_skip_last allow acc l :
  normalizeString allow acc (l ++ [EmptyString]) = normalizeString allow acc l.
Proof. rewrite normalizeString_app. cbn. now rewrite rev_involutive. Qed.

Lemma app_empty_string (s : string) : s +:+ EmptyString = s.
Proof. induction s as [|c s IH]; [reflexivity|]. now rewrite app_cons_string, IH. Qed.

Lemma join_is_empty (sep : string) (l : list string) :
  is_empty (Str.join sep l) = true ->
  Forall (fun s => is_empty s = false) l ->
  l = [].
Proof.
  destruct l as [|x l]; [reflexivity|]. intros H Hl.
  apply Forall_cons in Hl as [Hx _].
  destruct l as [|y l]; [cbn in H; congruence|].
  rewrite join_cons2 in H. destruct x; [discriminate Hx | discriminate H].
Qed.

Lemma file_name_free (s : string) : file_name s = true -> free_of "/" s = true.
Proof.
  unfold file_name. intros H. apply andb_prop in H as [H _].
  apply andb_prop in H as [H _]. now apply andb_prop in H as [_ H].
Qed.

Lemma file_name_nonempty (s : string) : file_name s = true -> is_empty s = false.
Proof.
  unfold file_name. intros H. apply andb_prop in H as [H _].
  apply andb_prop in H as [H _]. apply andb_prop in H as [H _].
  now apply negb_true_iff.
Qed.

(** The segments [normalize] puts together: the components of the path,
    after some [..] when the path is relative. *)
Lemma normalize_segments (path : string) (allow : bool) :
  exists k,
    normalizeString allow [] (Str.split "/" path)
    = replicate k ".." ++ Fs.components path.
Proof.
  destruct allow.
  - apply (normalizeString_true_false (Str.split "/" path) [] 0). constructor.
  - now exists 0.
Qed.

Lemma dotted_free k l :
  Forall (fun s => file_name s = true) l ->
  Forall (fun s => free_of "/" s = true) (replicate k ".." ++ l).
Proof.
  intros H. apply Forall_app. split.
  - clear. induction k; constructor; auto.
  - eapply Forall_impl; [exact H|]. apply file_name_free.
Qed.

Lemma dotted_nonempty k l :
  Forall (fun s => file_name s = true) l ->
  Forall (fun s => is_empty s = false) (replicate k ".." ++ l).
Proof.
  intros H. apply Forall_app. split.
  - clear. induction k; constructor; auto.
  - eapply Forall_impl; [exact H|]. apply file_name_nonempty.
Qed.

(** The operating system walks a path and its normal form alike. *)
Lemma components_normalize (path : string) :
  Fs.components (normalize path) = Fs.components path.
Proof.
  unfold normalize. destruct (is_empty path) eqn:He.
  { destruct path; [reflexivity | discriminate]. }
  destruct (normalize_segments path (negb (starts_with_slash path))) as [k Hk].
  rewrite Hk. set (N := replicate k ".." ++ Fs.components path).
  pose proof (components_names path) as Hnames.
  destruct (is_empty (Str.join "/" N)) eqn:Hp.
  - apply join_is_empty in Hp; [|now apply dotted_nonempty].
    assert (Hc : Fs.components path = []).
    { subst N. destruct k; [exact Hp | discriminate Hp]. }
    rewrite Hc. now destruct (starts_with_slash path), (ends_with_slash path).
  - assert (Hsplit : Str.split "/" (Str.join "/" N) = N).
    { apply (split_join "/"); [|now apply dotted_free].
      intros ->. discriminate Hp. }
    assert (Hnorm : normalizeString false [] N = Fs.components path).
    { subst N. rewrite normalizeString_skip_dots.
      now rewrite normalizeString_names. }
    unfold Fs.components at 1.
    destruct (starts_with_slash path), (ends_with_slash path).
    + change ("/" +:+ Str.join "/" N +:+ "/")
        with (String "/" (Str.join "/" N +:+ String "/" EmptyString)).
      rewrite split_cons_sep, split_app_sep_any, Hsplit.
      now rewrite normalizeString_skip_empty, normalizeString_skip_last.
    + change ("/" +:+ Str.join "/" N +:+ EmptyString)
        with (String "/" (Str.join "/" N +:+ EmptyString)).
      rewrite app_empty_string, split_cons_sep, Hsplit.
      now rewrite normalizeString_skip_empty.
    + change (EmptyString +:+ Str.join "/" N +:+ "/")
        with (Str.join "/" N +:+ String "/" EmptyString).
      rewrite split_app_sep_any, Hsplit. now rewrite normalizeString_skip_last.
    + change (EmptyString +:+ Str.join "/" N +:+ EmptyString)
        with (Str.join "/" N +:+ EmptyString).
      now rewrite app_empty_string, Hsplit.
Qed.



Lemma app_assoc_string (a b c : string) : (a +:+ b) +:+ c = a +:+ (b +:+ c).
Proof. induction a as [|x a IH]; [reflexivity|]. now rewrite !app_cons_string, IH. Qed.

Lemma chars_app (a b : string) :
  list_ascii_of_string (a +:+ b) = list_ascii_of_string a ++ list_ascii_of_string b.
Proof. induction a as [|x a IH]; [reflexivity|]. rewrite app_cons_string. cbn. now rewrite IH. Qed.


Lemma drop_while_all {A} (p : A -> bool) l1 l2 :
  forallb p l1 = true -> drop_while p (l1 ++ l2) = drop_while p l2.
Proof.
  induction l1 as [|x l1 IH]; [reflexivity|]. cbn. intros H.
  apply andb_prop in H as [-> H]. now apply IH.
Qed.


Lemma forallb_rev {A} (p : A -> bool) l : forallb p (rev l) = forallb p l.
Proof.
  induction l as [|x l IH]; [reflexivity|]. cbn.
  rewrite forallb_app, IH. cbn. rewrite andb_true_r. apply andb_comm.
Qed.

Lemma free_chars (s : string) :
  free_of "/" s = true ->
  forallb (fun c => negb (is_slash c)) (list_ascii_of_string s) = true.
Proof.
  induction s as [|c s IH]; [reflexivity|]. cbn. intros H.
  apply andb_prop in H as [Hc H]. unfold is_slash at 1. now rewrite Hc, (IH H).
Qed.

(** The characters of an entry name, read backwards: none is a slash,
    and there is a first one. *)
Lemma name_backwards (name : string) :
  file_name name = true ->
  exists c r,
    rev (list_ascii_of_string name) = c :: r
    /\ is_slash c = false
    /\ forallb (fun c => negb (is_slash c)) (c :: r) = true.
Proof.
  intros Hn. pose proof (free_chars name (file_name_free _ Hn)) as Hf.
  rewrite <- forallb_rev in Hf.
  destruct (rev (list_ascii_of_string name)) as [|c r] eqn:E.
  - apply (f_equal (@rev ascii)) in E. rewrite rev_involutive in E. cbn in E.
    destruct name; [discriminate Hn | discriminate E].
  - exists c, r. repeat split; [|exact Hf]. cbn in Hf.
    apply andb_prop in Hf as [Hc _]. now apply negb_true_iff.
Qed.

Lemma chars_child_backwards (q name : string) :
  rev (list_ascii_of_string (q +:+ String "/" name))
  = rev (list_ascii_of_string name) ++ "/"%char :: rev (list_ascii_of_string q).
Proof.
  rewrite chars_app. cbn [list_ascii_of_string]. rewrite rev_app_distr.
  cbn [rev]. now rewrite <- app_assoc.
Qed.


Lemma before_base_child (q name : string) :
  file_name name = true ->
  before_base (q +:+ String "/" name) = "/"%char :: rev (list_ascii_of_string q).
Proof.
  intros Hn. unfold before_base. rewrite chars_child_backwards.
  destruct (name_backwards name Hn) as (c & r & Hrev & Hc & Hall).
  rewrite Hrev. cbn [app drop_while]. rewrite Hc.
  change (c :: r ++ "/"%char :: rev (list_ascii_of_string q))
    with ((c :: r) ++ "/"%char :: rev (list_ascii_of_string q)).
  now rewrite drop_while_all.
Qed.






End Paths.

(** ** The tree *)

Section Tree.
Import Fs.


Lemma lookup_file (cs : list string) (d d' : string) :
  lookup cs (File d) = Some (File d') -> cs = [] /\ d' = d.
Proof. destruct cs; cbn; [intros [= ->]; auto | discriminate]. Qed.








Lemma assoc_set_entry_same {A} (k : string) (v : option A) (l : list (string * A)) :
  assoc k (set_entry k v l) = v.
Proof.
  induction l as [|[k' x'] l IH]; cbn.
  - destruct v; cbn; [now rewrite String.eqb_refl | reflexivity].
  - destruct (String.eqb k k') eqn:E.
    + destruct v; [cbn; now rewrite String.eqb_refl | exact IH].
    + cbn. now rewrite E.
Qed.

Lemma assoc_set_entry_other {A} (k k0 : string) (v : option A) (l : list (string * A)) :
  String.eqb k0 k = false -> assoc k0 (set_entry k v l) = assoc k0 l.
Proof.
  intros Hne. induction l as [|[k' x'] l IH]; cbn.
  - destruct v; cbn; [now rewrite Hne | reflexivity].
  - destruct (String.eqb k k') eqn:E.
    + apply String.eqb_eq in E. subst k'. rewrite Hne.
      destruct v; [cbn; now rewrite Hne | exact IH].
    + cbn. now rewrite IH.
Qed.

Lemma put_more (c c' : string) (cs : list string) (v : option node)
    (es : list (string * node)) :
  put (c :: c' :: cs) v (Dir es)
  = match assoc c es with
    | Some child =>
        match put (c' :: cs) v child with
        | Some child' => Some (Dir (set_entry c (Some child') es))
        | None => None
        end
    | None => None
    end.
Proof. reflexivity. Qed.

(** What is put at a place where something is can be found there. *)
Lemma put_lookup_same (cs : list string) (v : option node) (t n0 : node) :
  cs <> [] ->
  lookup cs t = Some n0 ->
  exists t', put cs v t = Some t' /\ lookup cs t' = v.
Proof.
  revert t. induction cs as [|c cs IH]; [congruence|]. intros t _ Hl.
  destruct t as [d|es]; [discriminate Hl|]. cbn [lookup] in Hl.
  destruct (assoc c es) as [child|] eqn:Ha; [|discriminate Hl].
  destruct cs as [|c' cs].
  - eexists. split; [reflexivity|]. cbn [lookup]. rewrite assoc_set_entry_same.
    now destruct v.
  - destruct (IH child) as (child' & Hput & Hlook); [discriminate | exact Hl|].
    exists (Dir (set_entry c (Some child') es)).
    split; [now rewrite put_more, Ha, Hput|].
    change (lookup (c :: c' :: cs) (Dir (set_entry c (Some child') es)))
      with (match assoc c (set_entry c (Some child') es) with
            | Some ch => lookup (c' :: cs) ch
            | None => None
            end).
    now rewrite assoc_set_entry_same.
Qed.













End Tree.

(** ** The walk of [archive] *)

Section Walk.
Import Fs.
Variable core_ : System.core.
Variable host : System.platform.











End Walk.

(** ** Addresses that [sanitize] accepts *)

Lemma match_address_some (s : string) :
  has_prefix s = true <-> is_Some (match_address s).
Proof.
  unfold has_prefix, match_address.
  destruct (Str.span is_name_char s) as [[|n nm] [|c rest]]; cbn;
    try (split; [discriminate | intros [? ?]; discriminate]).
  destruct (Ascii.eqb c ":"); split; eauto; try discriminate.
  intros [? ?]; discriminate.
Qed.

Lemma has_prefix_valid (s : string) : has_prefix s = true <-> valid_address s.
Proof.
  unfold has_prefix. split.
  - destruct (span_spec is_name_char s) as (Hs & Hall & _).
    destruct (Str.span is_name_char s) as [[|n nm] [|c rest]]; try discriminate.
    intros Hc. apply Ascii.eqb_eq in Hc. subst c. cbn [fst snd] in *.
    exists (String n nm), rest. repeat split; auto; discriminate.
  - intros (nm & path & -> & Hne & Hall).
    rewrite (span_app is_name_char nm (":" +:+ path) Hall) by reflexivity.
    destruct nm; [congruence | reflexivity].
Qed.

Lemma has_prefix_collapse (s : string) : has_prefix (Str.collapse s) = has_prefix s.
Proof.
  unfold has_prefix. rewrite span_collapse by reflexivity.
  destruct (Str.span is_name_char s) as [[|n nm] [|c rest]]; cbn [fst snd]; try reflexivity.
  destruct (collapse_head c rest) as [t ->]. reflexivity.
Qed.

Lemma sanitize_string_invalid (sf : string -> string) (s : string) :
  ~ valid_address s ->
  sanitize_string sf s
  = Rejected (type_error "Cannot read properties of undefined (reading 'split')").
Proof.
  intros H. unfold sanitize_string.
  destruct (match_address (Str.collapse s)) as [[nm str]|] eqn:Hm; [|reflexivity].
  elim H. apply has_prefix_valid. rewrite <- has_prefix_collapse.
  apply match_address_some. rewrite Hm. eauto.
Qed.

Lemma sanitize_string_valid (sf : string -> string) (s : string) :
  valid_address s -> exists r, sanitize_string sf s = Resolved r.
Proof.
  intros H. unfold sanitize_string.
  apply has_prefix_valid in H. rewrite <- has_prefix_collapse in H.
  apply match_address_some in H as [[nm str] ->]. eauto.
Qed.

Lemma sanitize_invalid (sf : string -> string) (s : string) :
  ~ valid_address s ->
  sanitize_with sf (Str s)
  = Rejected (type_error "Cannot read properties of undefined (reading 'split')").
Proof. intros H. cbn. now rewrite (sanitize_string_invalid sf s H). Qed.

Lemma route_getter_invalid (r : route) (req : request) (s : string) :
  field req (route_field r) = Str s ->
  ~ valid_address s ->
  route_getter r req
  = Rejected (type_error "Cannot read properties of undefined (reading 'split')").
Proof.
  intros Hf Hs.
  destruct r; cbn [route_getter route_field] in *;
    unfold requestPath, requestFile, requestSearch, requestSelection, sanitize;
    now rewrite Hf, (sanitize_invalid _ s Hs).
Qed.

(** ** [sanitize] on its own results *)



Section Idempotence.

(** The segment sanitizer: applying it twice is applying it once; its
    results hold neither slash nor colon; it brings no line terminator
    into a segment that has none. *)
Variable sf : string -> string.
Hypothesis sf_idem : forall x, sf (sf x) = sf x.
Hypothesis sf_clean :
  forall x, Str.forallb (fun c => negb (Ascii.eqb c "/") && negb (Ascii.eqb c ":")) (sf x)
            = true.
Hypothesis sf_lines :
  forall x, Str.forallb (fun c => negb (Str.is_line_terminator c)) x = true ->
            Str.forallb (fun c => negb (Str.is_line_terminator c)) (sf x) = true.






End Idempotence.




(** ** Traces *)

Lemma backend_event_not_failure (l : list event) :
  forallb is_backend_event l = true -> existsb is_failure l = false.
Proof.
  induction l as [|ev l IH]; [reflexivity|]. cbn. intros H.
  apply andb_prop in H as [Hev Hl]. rewrite (IH Hl).
  destruct ev as [? []| | | | |]; cbn in *; congruence.
Qed.

Lemma no_call_authorized (n : nat) (evs : list event) :
  existsb is_adapter_call evs = false -> authorized_before_calls n evs.
Proof.
  intros H pre ev post -> Hev. rewrite existsb_app in H. cbn in H.
  rewrite Hev, orb_true_r in H. discriminate.
Qed.

(** A trace that opens with [fixed] -- without adapter call or failure,
    with [n] grants -- and goes on with backend events only. *)
Lemma authorized_prefix (n : nat) (fixed more : list event) :
  existsb is_adapter_call fixed = false ->
  existsb is_failure fixed = false ->
  n <= length (List.filter is_granted fixed) ->
  forallb is_backend_event more = true ->
  authorized_before_calls n (fixed ++ more).
Proof.
  intros Hcall Hfail Hn Hmore pre ev post Heq Hev.
  apply app_eq_app in Heq as [k [[Hf Hm] | [Hp Hm]]].
  - subst fixed. rewrite existsb_app in Hcall.
    destruct k as [|x k]; cbn in Hm.
    + subst more. rewrite app_nil_r in *. split; assumption.
    + injection Hm as -> _. cbn in Hcall. rewrite Hev, orb_true_r in Hcall. discriminate.
  - subst pre more. rewrite List.filter_app, length_app, existsb_app, Hfail.
    split; [lia|]. cbn. rewrite forallb_app in Hmore.
    apply andb_prop in Hmore as [Hk _]. now apply backend_event_not_failure.
Qed.

(** ** The gate and the resolver, step by step *)

Section Steps.
Context {W : Type}.
Implicit Types (st : state W) (found : resolved W) (svc : vfs_service W).

(** The gate resolves [true] after a successful group validation, or
    rejects; either way the backend is as it was. *)
Lemma gate_settles req method ro strict found st :
  let name := mount_name (found_mount found) in
  checkMountpointPermission req method ro strict found st
  = (Resolved true,
     mkState (log st ++ [GroupCheck name method true; Granted name method]) (backend st))
  \/ exists e evs,
       checkMountpointPermission req method ro strict found st
       = (Rejected e, mkState (log st ++ evs ++ [Denied name method]) (backend st))
       /\ (evs = [] \/ evs = [GroupCheck name method false]).
Proof.
  intros name. unfold checkMountpointPermission. fold name.
  destruct (req_session req) as [sess|].
  2:{ run_monad. right. eexists _, []. split; [reflexivity | now left]. }
  destruct (validateGroups _ _ _ _) as [[|]|e];
    destruct ro as [[|]|f]; cbn [readOnly_truthy];
    try destruct (mount_attributes (found_mount found)) as [attrs|];
    try destruct (truthy (attr_readOnly attrs));
    try destruct (String.eqb _ _);
    run_monad; cbn [log backend]; rewrite <- ?app_assoc;
    first [ left; reflexivity
          | right; eexists _, []; split; [reflexivity | now left]
          | right; eexists _, [_]; split; [reflexivity | now right] ].
Qed.



Lemma resolver_settles svc path st :
  let prefix := getPrefix path in
  (exists found,
      mountpointResolver svc path st
      = (Resolved found, mkState (log st ++ [Lookup prefix true]) (backend st))
      /\ List.find (fun m => String.eqb (mount_name m) prefix) (mountpoints svc)
         = Some (found_mount found))
  \/ (mountpointResolver svc path st
      = (Rejected (not_found_error prefix),
         mkState (log st ++ [Lookup prefix false]) (backend st))
      /\ List.find (fun m => String.eqb (mount_name m) prefix) (mountpoints svc) = None).
Proof.
  intros prefix. unfold mountpointResolver. fold prefix.
  destruct (List.find _ _) as [mount|]; run_monad.
  - left. eexists. split; reflexivity.
  - right. split; reflexivity.
Qed.



Lemma resolver_registered svc path st mount :
  List.find (fun m => String.eqb (mount_name m) (getPrefix path)) (mountpoints svc)
  = Some mount ->
  exists found,
    found_mount found = mount
    /\ mountpointResolver svc path st
       = (Resolved found, mkState (log st ++ [Lookup (getPrefix path) true]) (backend st)).
Proof.
  intros Hf. unfold mountpointResolver. rewrite Hf. run_monad.
  eexists. split; [|reflexivity]. reflexivity.
Qed.

(** The adapter phase logs adapter calls and headers only. *)
Lemma vfsMethodWrapper_appends found target rest options m :
  appends is_backend_event false (vfsMethodWrapper found target rest options m).
Proof.
  unfold vfsMethodWrapper.
  destruct (found_adapter found) as [a|]; [|apply appends_reject].
  destruct (single_ops a !! m) as [op|]; [|apply appends_reject].
  apply appends_await; [now apply appends_tell | intros _; apply appends_lift].
Qed.

Lemma invoke_appends found m target rest options :
  appends is_backend_event false (invoke found m target rest options).
Proof.
  unfold invoke.
  destruct (found_adapter found) as [a|]; [|apply appends_reject].
  destruct (single_ops a !! m) as [op|]; [|apply appends_reject].
  apply appends_await; [now apply appends_tell | intros _; apply appends_lift].
Qed.

Lemma readfileHeaders_appends attrs options stat :
  appends (W:=W) is_backend_event false (readfileHeaders attrs options stat).
Proof.
  unfold readfileHeaders. apply appends_await.
  - repeat case_match;
      first [apply appends_resolve | apply appends_reject | now apply appends_tell].
  - intros _. case_match; [now apply appends_tell | apply appends_resolve].
Qed.

(** How a single-target request runs: resolution fails; or the search
    short-circuit answers; or the gate rejects; or the gate grants and
    the adapter phase follows. *)
Lemma call_shape svc req method ro respond target rest options st r st' :
  call (mountpointResolver svc) req method ro respond target rest options st = (r, st') ->
  let prefix := getPrefix target in
  (r, st') = (Rejected (not_found_error prefix),
              mkState (log st ++ [Lookup prefix false]) (backend st))
  \/ (r, st') = (Resolved (Arr []), mkState (log st ++ [Lookup prefix true]) (backend st))
  \/ (exists e n evs,
        (r, st') = (Rejected e,
                    mkState (log st ++ [Lookup prefix true] ++ evs ++ [Denied n method])
                            (backend st))
        /\ (evs = [] \/ evs = [GroupCheck n method false]))
  \/ (exists n more,
        log st'
        = log st ++ [Lookup prefix true; GroupCheck n method true; Granted n method] ++ more
        /\ forallb is_backend_event more = true).
Proof.
  intros Hrun prefix. unfold call in Hrun. unfold await at 1 in Hrun.
  destruct (resolver_settles svc target st) as [(found & Hres & _) | [Hres _]];
    rewrite Hres in Hrun; fold prefix in Hrun; [|left; now rewrite <- Hrun].
  right.
  destruct (andb (String.eqb method "search") _); [left; now rewrite <- Hrun|].
  right. unfold await at 1 in Hrun.
  set (st1 := mkState (log st ++ [Lookup prefix true]) (backend st)) in *.
  destruct (gate_settles req method ro (Some (negb (is_false
              (attr_strictGroups (default no_attributes
                 (mount_attributes (found_mount found))))))) found st1)
    as [Hg | (e & evs & Hg & Hevs)]; rewrite Hg in Hrun.
  - right.
    match type of Hrun with ?phase ?s = _ =>
      assert (Hp : appends is_backend_event false phase) end.
    { apply appends_await; [apply vfsMethodWrapper_appends|].
      intros result. apply appends_await; [|intros _; apply appends_resolve].
      case_match; [|apply appends_resolve].
      apply appends_await; [|intros s; apply readfileHeaders_appends].
      apply appends_catch; [apply vfsMethodWrapper_appends|].
      intros _. apply appends_resolve. }
    match type of Hrun with ?phase ?s = _ =>
      destruct (Hp s) as (more & Hlog & Hq & _) end.
    rewrite Hrun in Hlog. cbn [snd] in Hlog.
    exists (mount_name (found_mount found)), more. split; [|exact Hq].
    rewrite Hlog. subst st1. cbn [log backend]. now rewrite <- !app_assoc.
  - left. exists e, (mount_name (found_mount found)), evs. split; [|exact Hevs].
    rewrite <- Hrun. subst st1. cbn [log backend]. now rewrite <- !app_assoc.
Qed.

Lemma strictGroups_of_settles found st :
  (exists b, strictGroups_of found st = (Resolved b, st)
             /\ b = negb (is_false (attr_strictGroups
                     (default no_attributes (mount_attributes (found_mount found))))))
  \/ (exists e, strictGroups_of found st = (Rejected e, st)).
Proof.
  unfold strictGroups_of. destruct (mount_attributes _); run_monad; eauto.
Qed.

(** How a cross-target request runs: it rejects without having called an
    adapter, or both gates grant and the adapter phase follows. *)
Lemma cross_shape JSON_parse parseInt svc get method req st r st' :
  createCrossRequest JSON_parse parseInt (mountpointResolver svc) get method req st
  = (r, st') ->
  (exists e evs,
      (r, st') = (Rejected e, mkState (log st ++ evs) (backend st))
      /\ existsb is_adapter_call evs = false)
  \/ (exists pf pt ns nd more,
        log st'
        = log st ++ [Lookup pf true; Lookup pt true;
                     GroupCheck ns "readfile" true; Granted ns "readfile";
                     GroupCheck nd "writefile" true; Granted nd "writefile"] ++ more
        /\ forallb is_backend_event more = true).
Proof.
  intros Hrun. unfold createCrossRequest in Hrun.
  destruct (get req) as [[from to]|e].
  2:{ left. exists e, []. rewrite app_nil_r. rewrite <- Hrun. destruct st; auto. }
  unfold await at 1 in Hrun.
  destruct (resolver_settles svc from st) as [(src & Hres & _) | [Hres _]];
    rewrite Hres in Hrun.
  2:{ left. eexists _, [_]. rewrite <- Hrun. split; reflexivity. }
  unfold await at 1 in Hrun.
  match type of Hrun with context [mountpointResolver svc to ?s] =>
    destruct (resolver_settles svc to s) as [(dst & Hres2 & _) | [Hres2 _]];
    rewrite Hres2 in Hrun end; cbn [log backend] in Hrun.
  2:{ left. eexists _, [_; _]. rewrite <- Hrun, <- app_assoc. split; reflexivity. }
  unfold await at 1 in Hrun.
  match type of Hrun with context [strictGroups_of src ?s] =>
    destruct (strictGroups_of_settles src s) as [(b1 & Hs1 & _) | (e1 & Hs1)];
    rewrite Hs1 in Hrun end.
  2:{ left. eexists _, [_; _]. rewrite <- Hrun, <- app_assoc. split; reflexivity. }
  unfold await at 1 in Hrun.
  match type of Hrun with context [strictGroups_of dst ?s] =>
    destruct (strictGroups_of_settles dst s) as [(b2 & Hs2 & _) | (e2 & Hs2)];
    rewrite Hs2 in Hrun end.
  2:{ left. eexists _, [_; _]. rewrite <- Hrun, <- app_assoc. split; reflexivity. }
  unfold await at 1 in Hrun.
  match type of Hrun with context [checkMountpointPermission req ?m ?ro ?s src ?s0] =>
    destruct (gate_settles req m ro s src s0) as [Hg | (e & evs & Hg & Hevs)];
    rewrite Hg in Hrun end; cbn [log backend] in Hrun.
  2:{ left. exists e. eexists. rewrite <- Hrun, <- !app_assoc. split; [reflexivity|].
      destruct Hevs as [-> | ->]; reflexivity. }
  unfold await at 1 in Hrun.
  match type of Hrun with context [checkMountpointPermission req ?m ?ro ?s dst ?s0] =>
    destruct (gate_settles req m ro s dst s0) as [Hg2 | (e & evs & Hg2 & Hevs)];
    rewrite Hg2 in Hrun end; cbn [log backend] in Hrun.
  2:{ left. exists e. eexists. rewrite <- Hrun, <- !app_assoc. split; [reflexivity|].
      destruct Hevs as [-> | ->]; reflexivity. }
  right.
  match type of Hrun with ?phase ?s = _ =>
    assert (Hp : appends is_backend_event false phase) end.
  { case_match.
    - destruct (found_adapter src) as [a|]; [|apply appends_reject].
      destruct (cross_ops a !! method); [|apply appends_reject].
      apply appends_await; [now apply appends_tell|]. intros _.
      apply appends_await; [apply appends_lift | intros ?; apply appends_resolve].
    - apply appends_await; [apply invoke_appends|]. intros stream.
      apply appends_await; [apply invoke_appends|]. intros result.
      apply appends_await; [|intros _; apply appends_resolve].
      case_match; [|apply appends_resolve].
      apply appends_await; [apply invoke_appends | intros _; apply appends_resolve]. }
  match type of Hrun with ?phase ?s = _ =>
    destruct (Hp s) as (more & Hlog & Hq & _) end.
  rewrite Hrun in Hlog. cbn [snd log] in Hlog.
  eexists _, _, _, _, more. split; [|exact Hq].
  rewrite Hlog, <- !app_assoc. reflexivity.
Qed.

End Steps.

(** ** The route table *)

Section RouteTable.
Context {W : Type}.
Variable JSON_parse : string -> option value.
Variable parseInt : string -> float.
Variable svc : vfs_service W.

Lemma vfs_single (r : route) :
  is_cross r = false ->
  vfs JSON_parse parseInt svc r
  = createRequest JSON_parse parseInt (mountpointResolver svc)
      (route_getter r) (route_method r) (RoBool (route_readOnly r)) (route_respond r).
Proof. destruct r; intros H; try discriminate H; reflexivity. Qed.

Lemma vfs_cross (r : route) :
  is_cross r = true ->
  vfs JSON_parse parseInt svc r
  = createCrossRequest JSON_parse parseInt (mountpointResolver svc)
      requestCross (route_method r).
Proof. destruct r; intros H; try discriminate H; reflexivity. Qed.

Lemma createRequest_trace get method ro respond req (st : state W) :
  let run := createRequest JSON_parse parseInt (mountpointResolver svc)
               get method ro respond req st in
  exists new,
    log (snd run) = log st ++ new
    /\ (existsb is_failure new = true ->
        is_rejected (fst run) = true
        /\ backend (snd run) = backend st
        /\ existsb is_adapter_call new = false)
    /\ authorized_before_calls 1 new.
Proof.
  intros run. subst run. unfold createRequest.
  destruct (get req) as [[target rest]|e].
  2:{ exists []. cbn. rewrite app_nil_r. split; [reflexivity|].
      split; [discriminate | now apply no_call_authorized]. }
  destruct (call _ _ _ _ _ _ _ _ st) as [r st'] eqn:Hrun.
  apply call_shape in Hrun. cbn [fst snd].
  destruct Hrun as [Hs | [Hs | [(e & n & evs & Hs & Hevs) | (n & more & Hlog & Hq)]]].
  - injection Hs as -> ->. eexists [_]. cbn [log backend]. split; [reflexivity|].
    split; [auto | now apply no_call_authorized].
  - injection Hs as -> ->. eexists [_]. cbn [log backend]. split; [reflexivity|].
    split; [discriminate | now apply no_call_authorized].
  - injection Hs as -> ->. eexists. cbn [log backend]. split; [reflexivity|].
    assert (Hc : existsb is_adapter_call
                   ([Lookup (getPrefix target) true] ++ evs ++ [Denied n method]) = false)
      by (destruct Hevs as [-> | ->]; reflexivity).
    split; [auto | now apply no_call_authorized].
  - exists ([Lookup (getPrefix target) true; GroupCheck n method true; Granted n method]
            ++ more).
    split; [exact Hlog|]. split.
    + rewrite existsb_app, (backend_event_not_failure more Hq). cbn. discriminate.
    + apply authorized_prefix; auto.
Qed.

Lemma createCrossRequest_trace get method req (st : state W) :
  let run := createCrossRequest JSON_parse parseInt (mountpointResolver svc)
               get method req st in
  exists new,
    log (snd run) = log st ++ new
    /\ (existsb is_failure new = true ->
        is_rejected (fst run) = true
        /\ backend (snd run) = backend st
        /\ existsb is_adapter_call new = false)
    /\ authorized_before_calls 2 new.
Proof.
  intros run. subst run.
  destruct (createCrossRequest _ _ _ _ _ _ st) as [r st'] eqn:Hrun.
  apply cross_shape in Hrun. cbn [fst snd].
  destruct Hrun as [(e & evs & Hs & Hc) | (pf & pt & ns & nd & more & Hlog & Hq)].
  - injection Hs as -> ->. exists evs. cbn [log backend]. split; [reflexivity|].
    split; [auto | now apply no_call_authorized].
  - eexists. split; [exact Hlog|]. split.
    + rewrite existsb_app, (backend_event_not_failure more Hq). cbn. discriminate.
    + apply authorized_prefix; auto.
Qed.


End RouteTable.

(** C4.  A request factory's run extends the log by [new].  Whenever
    [new] holds a failed mountpoint lookup or a rejection of the gate,
    the request is rejected, the backend is as it was and [new] holds no
    adapter call; and every adapter call in [new] comes after the gate
    has granted (once for a single-target request, for the source and
    for the destination in a cross-target one) and after no failure.
    This holds for the two factories with any getter and method, hence
    for every route of the table. *)
Theorem no_adapter_call_before_authorization :
  forall (W : Type) (JSON_parse : string -> option value) (parseInt : string -> float)
         (svc : vfs_service W),
    (forall get method ro respond req (st : state W),
        let run := createRequest JSON_parse parseInt (mountpointResolver svc)
                     get method ro respond req st in
        exists new,
          log (snd run) = log st ++ new
          /\ (existsb is_failure new = true ->
              is_rejected (fst run) = true
              /\ backend (snd run) = backend st
              /\ existsb is_adapter_call new = false)
          /\ authorized_before_calls 1 new)
    /\ (forall get method req (st : state W),
          let run := createCrossRequest JSON_parse parseInt (mountpointResolver svc)
                       get method req st in
          exists new,
            log (snd run) = log st ++ new
            /\ (existsb is_failure new = true ->
                is_rejected (fst run) = true
                /\ backend (snd run) = backend st
                /\ existsb is_adapter_call new = false)
            /\ authorized_before_calls 2 new)
    /\ (forall r req (st : state W),
          let run := vfs JSON_parse parseInt svc r req st in
          exists new,
            log (snd run) = log st ++ new
            /\ (existsb is_failure new = true ->
                is_rejected (fst run) = true
                /\ backend (snd run) = backend st
                /\ existsb is_adapter_call new = false)
            /\ authorized_before_calls (if is_cross r then 2 else 1) new).
Proof.
  intros W JSON_parse parseInt svc. split; [|split].
  - intros. apply createRequest_trace.
  - intros. apply createCrossRequest_trace.
  - intros r req st. destruct (is_cross r) eqn:Hr.
    + rewrite (vfs_cross _ _ _ _ Hr). apply createCrossRequest_trace.
    + rewrite (vfs_single _ _ _ _ Hr). apply createRequest_trace.
Qed.

Lemma no_adapter_call_before_authorization_witness :
  let run :=
    vfs no_json no_int plain_service unlink (request_of [("path", Str "vault:/x")]) start in
  existsb is_failure (log (snd run)) = true
  /\ exists new,
      log (snd run) = log start ++ new
      /\ (existsb is_failure new = true ->
          is_rejected (fst run) = true
          /\ backend (snd run) = backend start
          /\ existsb is_adapter_call new = false)
      /\ authorized_before_calls 1 new.
Proof.
  split; [reflexivity|].
  exact (proj2 (proj2 (no_adapter_call_before_authorization unit no_json no_int
                         plain_service))
           unlink (request_of [("path", Str "vault:/x")]) start).
Defined.

(** ** Unregistered prefixes *)



(** ** Read-only mounts *)



(** ** Addresses without a valid prefix *)

(** C10.  [sanitize] is partial on strings: a string that does not begin
    with a non-empty run of word characters, hyphens and underscores
    followed by a colon makes it throw a [TypeError] (so do the empty
    string and a path without a colon), while every valid address is
    sanitized to a string.  A route whose address field holds such a
    string is rejected with that error and its state is untouched: no
    mountpoint lookup and no adapter call has happened. *)
Theorem sanitize_throws_on_invalid_address :
  let thrown :=
    type_error "Cannot read properties of undefined (reading 'split')" in
  (forall sf s, ~ valid_address s ->
      sanitize_with sf (Str s) = Rejected thrown /\ eclass thrown = TypeErrorC)
  /\ (forall sf s, valid_address s -> exists a, sanitize_with sf (Str s) = Resolved (One a))
  /\ sanitize (Str EmptyString) = Rejected thrown
  /\ sanitize (Str "/home/alice/notes.txt") = Rejected thrown
  /\ (forall (W : Type) JSON_parse parseInt (svc : vfs_service W) r req s (st : state W),
        is_cross r = false ->
        field req (route_field r) = Str s ->
        ~ valid_address s ->
        vfs JSON_parse parseInt svc r req st = (Rejected thrown, st))
  /\ (forall (W : Type) JSON_parse parseInt (svc : vfs_service W) r req s (st : state W),
        is_cross r = true ->
        field req "from" = Str s ->
        ~ valid_address s ->
        vfs JSON_parse parseInt svc r req st = (Rejected thrown, st))
  /\ (forall (W : Type) JSON_parse parseInt (svc : vfs_service W) r req from s (st : state W),
        is_cross r = true ->
        sanitize (field req "from") = Resolved from ->
        field req "to" = Str s ->
        ~ valid_address s ->
        vfs JSON_parse parseInt svc r req st = (Rejected thrown, st)).
Proof.
  intros thrown. repeat apply conj.
  - intros sf s H. split; [now apply sanitize_invalid | reflexivity].
  - intros sf s H. destruct (sanitize_string_valid sf s H) as [a Ha].
    exists a. cbn. now rewrite Ha.
  - reflexivity.
  - reflexivity.
  - intros W JSON_parse parseInt svc r req s st Hr Hf Hs.
    rewrite (vfs_single _ _ _ _ Hr). unfold createRequest.
    now rewrite (route_getter_invalid r req s Hf Hs).
  - intros W JSON_parse parseInt svc r req s st Hr Hf Hs.
    rewrite (vfs_cross _ _ _ _ Hr). unfold createCrossRequest, requestCross, sanitize.
    now rewrite Hf, (sanitize_invalid _ s Hs).
  - intros W JSON_parse parseInt svc r req from s st Hr Hfrom Hf Hs.
    rewrite (vfs_cross _ _ _ _ Hr). unfold createCrossRequest, requestCross.
    rewrite Hfrom. unfold sanitize. now rewrite Hf, (sanitize_invalid _ s Hs).
Qed.

Lemma no_colon_is_invalid : ~ valid_address "notes.txt".
Proof.
  intros H. apply has_prefix_valid in H. discriminate H.
Defined.

Lemma sanitize_throws_on_invalid_address_witness :
  vfs no_json no_int plain_service readfile (request_of [("path", Str "notes.txt")]) start
  = (Rejected (type_error "Cannot read properties of undefined (reading 'split')"), start).
Proof.
  apply (proj1 (proj2 (proj2 (proj2 (proj2 sanitize_throws_on_invalid_address))))
           unit no_json no_int plain_service readfile
           (request_of [("path", Str "notes.txt")]) "notes.txt" start).
  - reflexivity.
  - reflexivity.
  - exact no_colon_is_invalid.
Defined.

(** ** Idempotence of [sanitize] *)




(** ** The session of the options *)






(** ** Group validation *)

Lemma includes_spec (U : list string) (g : string) :
  includes U g = true <-> g ∈ U.
Proof.
  unfold includes. rewrite existsb_exists, list_elem_of_In. split.
  - intros (x & Hx & Heq). apply String.eqb_eq in Heq. now subst.
  - intros H. exists g. split; [assumption | apply String.eqb_refl].
Qed.

Lemma named_groups_of_names (G : list string) :
  omap (fun g => match g with Named s => Some s | MethodMap _ => None end)
       (Named <$> G) = G.
Proof. induction G as [|g G IH]; csimpl; [reflexivity | now rewrite IH]. Qed.

Lemma no_method_map_among_names (method : string) (G : list string) :
  List.find (fun g => match g with
                      | Named _ => false
                      | MethodMap m => bool_decide (is_Some (m !! method))
                      end) (Named <$> G) = None.
Proof. induction G as [|g G IH]; simpl; [reflexivity | exact IH]. Qed.

Lemma validateAll_strict (arr U : list string) :
  validateAll arr U (Some true) = true <-> (forall g, g ∈ arr -> g ∈ U).
Proof.
  unfold validateAll. simpl. rewrite forallb_forall. split.
  - intros H g Hg. apply includes_spec, H, list_elem_of_In, Hg.
  - intros H g Hg. apply includes_spec, H, list_elem_of_In, Hg.
Qed.

Lemma validateAll_default (arr U : list string) :
  validateAll arr U None = validateAll arr U (Some true).
Proof. reflexivity. Qed.

Lemma validateAll_lenient (arr U : list string) :
  validateAll arr U (Some false) = true <-> (exists g, g ∈ arr /\ g ∈ U).
Proof.
  unfold validateAll. simpl. rewrite existsb_exists. split.
  - intros (g & Hg & Hin). exists g. split; [now apply list_elem_of_In | now apply includes_spec].
  - intros (g & Hg & Hin). exists g. split; [now apply list_elem_of_In | now apply includes_spec].
Qed.

Lemma validateGroups_names (U G : list string) (method : string) (mount : mountpoint)
    (attrs : attributes) (strict : option bool) :
  mount_attributes mount = Some attrs ->
  attr_groups attrs = Some (Named <$> G) ->
  G <> [] ->
  validateGroups U method mount strict = Resolved (validateAll G U strict).
Proof.
  intros Hat Hg Hne. unfold validateGroups. rewrite Hat, Hg.
  destruct G as [|g G]; [congruence|].
  unfold validateNamedGroups, validateMethodGroups.
  cbn [default from_option id].
  rewrite named_groups_of_names, no_method_map_among_names.
  cbn [fmap list_fmap]. now rewrite andb_true_r.
Qed.

(** C2.  For user groups [U] and a mount whose [groups] is a non-empty
    list [G] of plain names, validation settles with a boolean: in strict
    mode (also when [strict] is left out) it is true exactly when every
    name of [G] is in [U], in lenient mode exactly when some name of [G]
    is in [U].  A mount without [groups], or with an empty list, passes.
    With U = [required] and G = [required, other] strict fails and
    lenient succeeds; with U = [required, other] and G = [required] both
    succeed. *)
Theorem validateGroups_strict_lenient :
  (forall (U G : list string) (method : string) (mount : mountpoint) (attrs : attributes),
      mount_attributes mount = Some attrs ->
      attr_groups attrs = Some (Named <$> G) ->
      G <> [] ->
      (exists b, validateGroups U method mount (Some true) = Resolved b
                 /\ validateGroups U method mount None = Resolved b
                 /\ (b = true <-> forall g, g ∈ G -> g ∈ U))
      /\ (exists b, validateGroups U method mount (Some false) = Resolved b
                    /\ (b = true <-> exists g, g ∈ G /\ g ∈ U)))
  /\ (forall (U : list string) (method : string) (mount : mountpoint) (attrs : attributes)
             (strict : option bool),
         mount_attributes mount = Some attrs ->
         attr_groups attrs = None \/ attr_groups attrs = Some [] ->
         validateGroups U method mount strict = Resolved true)
  /\ validateGroups ["required"] "readdir"
       (mount_with_groups (Some ["required"; "other"])) (Some true) = Resolved false
  /\ validateGroups ["required"] "readdir"
       (mount_with_groups (Some ["required"; "other"])) (Some false) = Resolved true
  /\ validateGroups ["required"; "other"] "readdir"
       (mount_with_groups (Some ["required"])) (Some true) = Resolved true
  /\ validateGroups ["required"; "other"] "readdir"
       (mount_with_groups (Some ["required"])) (Some false) = Resolved true.
Proof.
  split; [|split].
  - intros U G method mount attrs Hat Hg Hne. split.
    + exists (validateAll G U (Some true)).
      rewrite !(validateGroups_names U G method mount attrs) by assumption.
      rewrite validateAll_default. split; [reflexivity|]. split; [reflexivity|].
      apply validateAll_strict.
    + exists (validateAll G U (Some false)).
      rewrite (validateGroups_names U G method mount attrs) by assumption.
      split; [reflexivity | apply validateAll_lenient].
  - intros U method mount attrs strict Hat [Hg | Hg];
      unfold validateGroups; rewrite Hat, Hg; reflexivity.
  - repeat split; reflexivity.
Qed.

Lemma validateGroups_strict_lenient_witness :
  (exists b, validateGroups ["a"] "stat" (mount_with_groups (Some ["a"; "b"])) (Some true)
             = Resolved b
             /\ validateGroups ["a"] "stat" (mount_with_groups (Some ["a"; "b"])) None
                = Resolved b
             /\ (b = true <-> forall g, g ∈ ["a"; "b"] -> g ∈ ["a"]))
  /\ (exists b, validateGroups ["a"] "stat" (mount_with_groups (Some ["a"; "b"])) (Some false)
                = Resolved b
                /\ (b = true <-> exists g, g ∈ ["a"; "b"] /\ g ∈ ["a"])).
Proof.
  apply (proj1 validateGroups_strict_lenient ["a"] ["a"; "b"] "stat"
           (mount_with_groups (Some ["a"; "b"]))
           (mkAttributes EmptyString (Bool true) (Some (Named <$> ["a"; "b"]))
              Undefined Undefined Undefined Undefined)).
  - reflexivity.
  - reflexivity.
  - discriminate.
Defined.

(** ** Result shapes *)




(** ** Copy and rename across adapters *)

(** C5.  On the disk of the examples, with [home] served by one adapter
    object and [shared] by another, renaming alice's note onto the
    existing directory [inbox] goes the simulated way: readfile on the
    source, writefile on the destination -- which refuses the write and
    resolves [false] -- and then unlink on the source all the same.  The
    request resolves [false]; the note is gone and the inbox does not
    hold it.  Renamed to a new name in the inbox the note arrives, and
    the disk ends as the native rename of one adapter leaves it; that
    native rename, asked to rename onto the directory, rejects and
    leaves the note where it is. *)
Theorem rename_onto_directory_loses_source :
  let note := Fs.components "/srv/vfs/alice/notes.txt" in
  let inbox := Fs.components "/srv/vfs/shared/inbox" in
  let onto to :=
    request_of [("from", Str "home:/notes.txt"); ("to", Str to)] in
  let simulated := vfs no_json no_int disk_service2 rename (onto "shared:/inbox") on_disk in
  let native := vfs no_json no_int disk_service2 rename (onto "public:/inbox") on_disk in
  let simulated_ok :=
    vfs no_json no_int disk_service2 rename (onto "shared:/inbox/notes.txt") on_disk in
  let native_ok :=
    vfs no_json no_int disk_service2 rename (onto "public:/inbox/notes.txt") on_disk in
  Fs.lookup note disk = Some (Fs.File "hello")
  /\ fst simulated = Resolved (Bool false)
  /\ List.filter is_adapter_call (log (snd simulated))
     = [AdapterCall 0 "readfile"; AdapterCall 1 "writefile"; AdapterCall 0 "unlink"]
  /\ Fs.lookup note (backend (snd simulated)) = None
  /\ Fs.lookup inbox (backend (snd simulated)) = Some (Fs.Dir [])
  /\ is_rejected (fst native) = true
  /\ List.filter is_adapter_call (log (snd native)) = [AdapterCall 0 "rename"]
  /\ backend (snd native) = disk
  /\ fst simulated_ok = Resolved (Bool true)
  /\ fst native_ok = Resolved (Bool true)
  /\ backend (snd simulated_ok) = backend (snd native_ok)
  /\ Fs.lookup (inbox ++ ["notes.txt"]) (backend (snd simulated_ok)) = Some (Fs.File "hello")
  /\ Fs.lookup note (backend (snd simulated_ok)) = None.
Proof. vm_compute. repeat split. Qed.

(** ** [archive] with the action [compress] *)




(** * Further properties of the gateway *)

(** ** [sanitize] and [getPrefix] *)

Lemma name_char_not_colon (c : ascii) :
  is_name_char c = true -> negb (Ascii.eqb c ":") = true.
Proof.
  destruct (Ascii.eqb c ":") eqn:E; [|reflexivity].
  apply Ascii.eqb_eq in E. subst c. discriminate.
Qed.

Lemma prefix_of_address (nm rest : string) :
  Str.forallb is_name_char nm = true ->
  getPrefix (One (nm +:+ String ":" rest)) = nm.
Proof.
  intros H. unfold getPrefix. cbn [address_to_string].
  rewrite split_app_sep; [reflexivity|].
  unfold free_of. eapply forallb_impl; [|exact H]. apply name_char_not_colon.
Qed.

(** What [sanitize] makes of a string it accepts. *)
Lemma sanitize_string_shape (sf : string -> string) (s r : string) :
  sanitize_string sf s = Resolved r ->
  exists nm rest sane,
    s = nm +:+ String ":" rest
    /\ nm <> EmptyString
    /\ Str.forallb is_name_char nm = true
    /\ r = nm +:+ String ":" sane
    /\ collapsed sane = true.
Proof.
  unfold sanitize_string.
  destruct (match_address (Str.collapse s)) as [[nm str]|] eqn:E; [|discriminate].
  intros [= <-]. unfold match_address in E.
  rewrite span_collapse in E by reflexivity.
  destruct (span_spec is_name_char s) as (Hs & Hall & _).
  destruct (Str.span is_name_char s) as [a b]. cbn [fst snd] in *.
  destruct a as [|n a']; [discriminate E|].
  destruct b as [|c b']; [discriminate E|].
  destruct (collapse_head c b') as [t Ht]. rewrite Ht in E.
  destruct (Ascii.eqb c ":") eqn:Ec; [|discriminate E].
  apply Ascii.eqb_eq in Ec. subst c. injection E as <- _.
  eexists _, b', _. split; [exact Hs|]. split; [discriminate|]. split; [exact Hall|].
  split; [reflexivity|]. apply collapse_collapsed.
Qed.

(** X1.  [sanitize] keeps the prefix: the string it makes of an address
    has the prefix of the address, as [getPrefix] reads it, then a
    colon, and then a path in which no two slashes are adjacent. *)
Theorem sanitize_keeps_prefix (sf : string -> string) (s r : string) :
  sanitize_with sf (Str s) = Resolved (One r) ->
  getPrefix (One r) = getPrefix (One s)
  /\ exists sane,
      r = getPrefix (One s) +:+ String ":" sane
      /\ collapsed sane = true.
Proof.
  cbn [sanitize_with].
  destruct (sanitize_string sf s) as [r'|] eqn:E; [|discriminate].
  intros [= ->].
  destruct (sanitize_string_shape sf s r E) as (nm & rest & sane & -> & _ & Hnm & -> & Hc).
  rewrite !prefix_of_address by exact Hnm.
  split; [reflexivity|]. exists sane. split; [reflexivity | exact Hc].
Qed.

Lemma sanitize_keeps_prefix_witness :
  getPrefix (One "home-dir:/a/bc") = getPrefix (One "home-dir::/a//b?c")
  /\ exists sane,
      "home-dir:/a/bc" = getPrefix (One "home-dir::/a//b?c") +:+ String ":" sane
      /\ collapsed sane = true.
Proof.
  exact (sanitize_keeps_prefix sanitizeFilename "home-dir::/a//b?c" "home-dir:/a/bc"
           eq_refl).
Defined.

(** [sanitize] on an array, element by element. *)
Lemma sanitize_array_spec (sf : string -> string) (l : list value) :
  (exists ys,
      sanitize_with sf (Arr l) = Resolved (Many ys)
      /\ Forall2 (fun x y => sanitize_with sf x = Resolved y) l ys)
  \/ (exists e l1 x l2 ys1,
        sanitize_with sf (Arr l) = Rejected e
        /\ l = l1 ++ x :: l2
        /\ Forall2 (fun x y => sanitize_with sf x = Resolved y) l1 ys1
        /\ sanitize_with sf x = Rejected e).
Proof.
  induction l as [|x l IH].
  - left. exists []. split; [reflexivity | constructor].
  - cbn [sanitize_with] in *.
    destruct (sanitize_with sf x) as [y|e] eqn:Ex.
    + revert IH.
      match goal with
      | |- context [match ?run with
                    | Resolved ys0 => Resolved (y :: ys0)
                    | Rejected e0 => Rejected e0
                    end] => destruct run as [ys|e']
      end.
      * intros [(ys0 & [= <-] & HF) | (e & _ & _ & _ & _ & H & _)]; [|discriminate H].
        left. exists (y :: ys). split; [reflexivity|]. now constructor.
      * intros [(ys0 & H & _) | (e & l1 & x0 & l2 & ys1 & [= <-] & -> & HF & Hx)];
          [discriminate H|].
        right. exists e', (x :: l1), x0, l2, (y :: ys1).
        split; [reflexivity|]. split; [reflexivity|]. split; [now constructor | exact Hx].
    + right. exists e, [], x, l, []. repeat split; [constructor | exact Ex].
Qed.

(** X2.  [sanitize] maps an array element by element: it resolves to
    the array of the sanitized elements, of the same length and in the
    same order, exactly when every element is sanitized; otherwise it is
    rejected with the error of the first element that is not.  A value
    that is neither a string nor an array makes it throw a
    [TypeError]. *)
Theorem sanitize_maps_arrays (sf : string -> string) (l : list value) :
  (forall a,
      sanitize_with sf (Arr l) = Resolved a
      <-> exists ys,
            a = Many ys
            /\ Forall2 (fun x y => sanitize_with sf x = Resolved y) l ys)
  /\ (forall e,
        sanitize_with sf (Arr l) = Rejected e
        <-> exists l1 x l2 ys1,
              l = l1 ++ x :: l2
              /\ Forall2 (fun x y => sanitize_with sf x = Resolved y) l1 ys1
              /\ sanitize_with sf x = Rejected e)
  /\ (forall v,
        (forall s, v <> Str s) -> (forall xs, v <> Arr xs) ->
        exists e, sanitize_with sf v = Rejected e /\ eclass e = TypeErrorC).
Proof.
  assert (Hdet : forall l1 ys1 x e l2 ys,
             Forall2 (fun x y => sanitize_with sf x = Resolved y) l1 ys1 ->
             sanitize_with sf x = Rejected e ->
             Forall2 (fun x y => sanitize_with sf x = Resolved y) (l1 ++ x :: l2) ys ->
             False).
  { intros l1 ys1 x e l2 ys H1 Hx H. apply Forall2_app_inv_l in H as (k1 & k2 & _ & H & _).
    inversion H; subst. congruence. }
  assert (Hfun : forall l ys ys',
             Forall2 (fun x y => sanitize_with sf x = Resolved y) l ys ->
             Forall2 (fun x y => sanitize_with sf x = Resolved y) l ys' ->
             ys = ys').
  { intros l0 ys ys' H. revert ys'. induction H as [|x y l0 ys Hxy _ IH]; intros ys' H'.
    - now inversion H'.
    - inversion H' as [|x' y' l' ys'' Hxy' Hrest]; subst. f_equal; [congruence|].
      now apply IH. }
  assert (Hfirst : forall l1 ys1 x e l1' ys1' x' e' l2 l2',
             Forall2 (fun x y => sanitize_with sf x = Resolved y) l1 ys1 ->
             sanitize_with sf x = Rejected e ->
             Forall2 (fun x y => sanitize_with sf x = Resolved y) l1' ys1' ->
             sanitize_with sf x' = Rejected e' ->
             l1 ++ x :: l2 = l1' ++ x' :: l2' ->
             e = e').
  { intros l1 ys1 x e l1' ys1' x' e' l2 l2' H1. revert l1' ys1'.
    induction H1 as [|a b l1 ys1 Hab _ IH]; intros l1' ys1' Hx H1' Hx' Heq.
    - destruct H1' as [|a' b' l1' ys1' Hab' _].
      + injection Heq as <- _. congruence.
      + injection Heq as <- _. congruence.
    - destruct H1' as [|a' b' l1' ys1' Hab' H1'].
      + injection Heq as <- _. congruence.
      + injection Heq as _ Heq. now apply (IH l1' ys1'). }
  destruct (sanitize_array_spec sf l)
    as [(ys & Hrun & HF) | (e & l1 & x & l2 & ys1 & Hrun & -> & HF & Hx)].
  - split; [|split].
    + intros a. rewrite Hrun. split.
      * intros [= <-]. eauto.
      * intros (ys' & -> & HF'). now rewrite (Hfun l ys ys' HF HF').
    + intros e. rewrite Hrun. split; [discriminate|].
      intros (l1 & x & l2 & ys1 & -> & H1 & Hx). destruct (Hdet _ _ _ _ _ _ H1 Hx HF).
    + intros v Hs Ha.
      destruct v as [| | | |s|xs| |]; try (eexists; split; reflexivity);
        [now destruct (Hs s) | now destruct (Ha xs)].
  - split; [|split].
    + intros a. rewrite Hrun. split; [discriminate|].
      intros (ys' & -> & HF'). destruct (Hdet _ _ _ _ _ _ HF Hx HF').
    + intros e'. rewrite Hrun. split.
      * intros [= <-]. eauto 10.
      * intros (l1' & x' & l2' & ys1' & Heq & H1' & Hx').
        now rewrite (Hfirst _ _ _ _ _ _ _ _ _ _ HF Hx H1' Hx' Heq).
    + intros v Hs Ha.
      destruct v as [| | | |s|xs| |]; try (eexists; split; reflexivity);
        [now destruct (Hs s) | now destruct (Ha xs)].
Qed.

Lemma join_head (sep x : string) (xs : list string) :
  exists tail, Str.join sep (x :: xs) = x +:+ tail.
Proof.
  destruct xs as [|y xs].
  - exists EmptyString. cbn [Str.join]. now rewrite app_empty_string.
  - eexists. apply join_cons2.
Qed.

Lemma selection_prefix (sf : string -> string) (s : string) (l : list value) (a : address) :
  sanitize_with sf (Arr (Str s :: l)) = Resolved a ->
  getPrefix a = getPrefix (One s).
Proof.
  intros Hrun.
  destruct (sanitize_array_spec sf (Str s :: l))
    as [(ys & Hys & HF) | (e & _ & _ & _ & _ & He & _)]; [|congruence].
  rewrite Hrun in Hys. injection Hys as ->.
  inversion HF as [|x y l' ys' Hy _]; subst.
  destruct y as [r|]; [|cbn in Hy; destruct (sanitize_string sf s); discriminate].
  assert (Hr : sanitize_string sf s = Resolved r).
  { cbn [sanitize_with] in Hy. destruct (sanitize_string sf s); congruence. }
  destruct (sanitize_string_shape sf s r Hr) as (nm & rest & sane & -> & _ & Hnm & -> & _).
  rewrite prefix_of_address by exact Hnm.
  unfold getPrefix. cbn [address_to_string map].
  destruct (join_head "," (nm +:+ String ":" sane) (map address_to_string ys')) as [tail ->].
  rewrite app_assoc_string, app_cons_string.
  rewrite split_app_sep; [reflexivity|].
  unfold free_of. eapply forallb_impl; [|exact Hnm]. apply name_char_not_colon.
Qed.

(** X3.  The address of an archive request is the sanitized array of
    the selection, and [getPrefix] of an array is the prefix of its first
    element (of an empty array, the empty string).  So the request is
    resolved -- and authorized -- against the mountpoint of the first
    selected address alone: the lookup its run starts with is that of
    this prefix, whatever the prefixes of the other addresses. *)
Theorem archive_goes_to_the_first_mount :
  (forall sf s l a,
      sanitize_with sf (Arr (Str s :: l)) = Resolved a ->
      getPrefix a = getPrefix (One s))
  /\ (forall sf,
        sanitize_with sf (Arr []) = Resolved (Many [])
        /\ getPrefix (Many []) = EmptyString)
  /\ (forall (W : Type) JSON_parse parseInt (svc : vfs_service W) req s l (st : state W),
        field req "selection" = Arr (Str s :: l) ->
        is_rejected (sanitize (field req "selection")) = false ->
        exists found more,
          log (snd (vfs JSON_parse parseInt svc archive req st))
          = log st ++ Lookup (getPrefix (One s)) found :: more).
Proof.
  split; [exact selection_prefix|]. split; [intros sf; split; reflexivity|].
  intros W JSON_parse parseInt svc req s l st Hf Hok.
  rewrite (vfs_single JSON_parse parseInt svc archive eq_refl).
  unfold createRequest. cbn [route_getter route_method route_readOnly route_respond].
  unfold requestSelection.
  destruct (sanitize (field req "selection")) as [a|] eqn:Ha; [|discriminate Hok].
  rewrite Hf in Ha. unfold sanitize in Ha. apply selection_prefix in Ha.
  destruct (call (mountpointResolver svc) req "archive" (RoBool false) None a []
              (createOptions JSON_parse parseInt req) st) as [r st'] eqn:Hrun.
  apply call_shape in Hrun. rewrite Ha in Hrun. cbn [snd].
  destruct Hrun as [[= _ ->] | [[= _ ->] | [(e & n & evs & [= _ ->] & _) | (n & more & -> & _)]]];
    cbn [log]; eauto.
Qed.

(** ** Groups given per method *)

Lemma find_method_map_none (method : string) (gs : list group_entry) :
  Forall (fun g => match g with
                   | Named _ => True
                   | MethodMap m => m !! method = None
                   end) gs ->
  List.find (fun g => match g with
                      | Named _ => false
                      | MethodMap m => bool_decide (is_Some (m !! method))
                      end) gs = None.
Proof.
  induction 1 as [|g gs Hg _ IH]; [reflexivity|]. cbn [List.find].
  destruct g as [n|m]; [exact IH|]. rewrite Hg.
  rewrite bool_decide_eq_false_2; [exact IH|]. now intros [x Hx].
Qed.

Lemma find_method_map_first (method : string) (before after : list group_entry)
    (m : gmap string (list string)) (G : list string) :
  Forall (fun g => match g with
                   | Named _ => True
                   | MethodMap m => m !! method = None
                   end) before ->
  m !! method = Some G ->
  List.find (fun g => match g with
                      | Named _ => false
                      | MethodMap m => bool_decide (is_Some (m !! method))
                      end) (before ++ MethodMap m :: after) = Some (MethodMap m).
Proof.
  intros Hb Hm. induction Hb as [|g gs Hg _ IH]; cbn [List.find app].
  - rewrite Hm. now rewrite bool_decide_eq_true_2 by eauto.
  - destruct g as [n|m']; [exact IH|]. rewrite Hg.
    rewrite bool_decide_eq_false_2; [exact IH|]. now intros [x Hx].
Qed.

(** X4.  An object among the [groups] of a mount restricts the methods
    it names and no others.  When no object names the method, the plain
    names alone decide.  Otherwise the first object that names it adds
    its list for the method -- every group of the list in strict mode,
    one of them in lenient mode -- and the objects after it are not
    looked at.  An empty list for a method therefore lets every user
    pass in strict mode and none in lenient mode. *)
Theorem method_groups_restrict_their_methods
    (U : list string) (method : string) (mount : mountpoint) (attrs : attributes)
    (strict : option bool) :
  mount_attributes mount = Some attrs ->
  let unnamed :=
    Forall (fun g => match g with
                     | Named _ => True
                     | MethodMap m => m !! method = None
                     end) in
  (forall gs,
      attr_groups attrs = Some gs ->
      unnamed gs ->
      validateGroups U method mount strict = Resolved (validateNamedGroups gs U strict))
  /\ (forall before m G after,
        attr_groups attrs = Some (before ++ MethodMap m :: after) ->
        unnamed before ->
        m !! method = Some G ->
        validateGroups U method mount strict
        = Resolved (validateNamedGroups (before ++ MethodMap m :: after) U strict
                    && validateAll G U strict))
  /\ (forall m,
        attr_groups attrs = Some [MethodMap m] ->
        match m !! method with
        | None => validateGroups U method mount strict = Resolved true
        | Some G =>
            exists b,
              validateGroups U method mount strict = Resolved b
              /\ (b = true <->
                  if default true strict
                  then forall g, g ∈ G -> g ∈ U
                  else exists g, g ∈ G /\ g ∈ U)
        end).
Proof.
  intros Hat unnamed.
  assert (H1 : forall gs,
             attr_groups attrs = Some gs -> unnamed gs ->
             validateGroups U method mount strict
             = Resolved (validateNamedGroups gs U strict)).
  { intros gs Hg Hun. unfold validateGroups. rewrite Hat, Hg. cbn [default from_option id].
    destruct gs as [|g gs]; [reflexivity|].
    unfold validateMethodGroups. rewrite (find_method_map_none method _ Hun).
    now rewrite andb_true_r. }
  assert (H2 : forall before m G after,
             attr_groups attrs = Some (before ++ MethodMap m :: after) ->
             unnamed before -> m !! method = Some G ->
             validateGroups U method mount strict
             = Resolved (validateNamedGroups (before ++ MethodMap m :: after) U strict
                         && validateAll G U strict)).
  { intros before m G after Hg Hun Hm. unfold validateGroups. rewrite Hat, Hg.
    cbn [default from_option id].
    destruct (before ++ MethodMap m :: after) as [|g gs] eqn:E;
      [now destruct before|]. rewrite <- E.
    unfold validateMethodGroups at 1.
    rewrite (find_method_map_first method before after m G Hun Hm), Hm. reflexivity. }
  split; [exact H1|]. split; [exact H2|].
  intros m Hg. destruct (m !! method) as [G|] eqn:Hm.
  - exists (validateAll G U strict). split.
    + rewrite (H2 [] m G [] Hg ltac:(constructor) Hm). reflexivity.
    + destruct strict as [[|]|]; cbn [default from_option id].
      * apply validateAll_strict.
      * apply validateAll_lenient.
      * rewrite validateAll_default. apply validateAll_strict.
  - rewrite (H1 [MethodMap m] Hg); [reflexivity|].
    constructor; [exact Hm | constructor].
Qed.

Lemma method_groups_restrict_their_methods_witness :
  validateGroups ["failure"] "readdir"
    (mkMount "meeseOS" "meeseOS:/" None
       (Some (no_flags EmptyString Undefined
                (Some [MethodMap {["readdir" := ["successful"]]}]))))
    None
  = Resolved false
  /\ validateGroups ["failure"] "stat"
       (mkMount "meeseOS" "meeseOS:/" None
          (Some (no_flags EmptyString Undefined
                   (Some [MethodMap {["readdir" := ["successful"]]}]))))
       None
     = Resolved true.
Proof.
  pose proof (method_groups_restrict_their_methods ["failure"] "readdir"
                (mkMount "meeseOS" "meeseOS:/" None
                   (Some (no_flags EmptyString Undefined
                            (Some [MethodMap {["readdir" := ["successful"]]}]))))
                _ None eq_refl) as Hreaddir.
  pose proof (method_groups_restrict_their_methods ["failure"] "stat"
                (mkMount "meeseOS" "meeseOS:/" None
                   (Some (no_flags EmptyString Undefined
                            (Some [MethodMap {["readdir" := ["successful"]]}]))))
                _ None eq_refl) as Hstat.
  split.
  - apply (proj1 (proj2 Hreaddir) [] {["readdir" := ["successful"]]} ["successful"] []);
      [reflexivity | constructor | reflexivity].
  - apply (proj1 Hstat [MethodMap {["readdir" := ["successful"]]}]);
      [reflexivity | constructor; [reflexivity | constructor]].
Defined.

(** ** The gate, apart from read-only mounts *)

Lemma gate_by_groups {W : Type} req method ro strict (found : resolved W) attrs sess st valid :
  req_session req = Some sess ->
  mount_attributes (found_mount found) = Some attrs ->
  readOnly_truthy ro = false \/ truthy (attr_readOnly attrs) = false ->
  validateGroups (user_groups (session_user sess)) method (found_mount found) strict
  = Resolved valid ->
  let name := mount_name (found_mount found) in
  checkMountpointPermission req method ro strict found st
  = if valid
    then (Resolved true,
          mkState (log st ++ [GroupCheck name method true; Granted name method]) (backend st))
    else (Rejected (denied_error method name),
          mkState (log st ++ [GroupCheck name method false; Denied name method])
                  (backend st)).
Proof.
  intros Hs Ha Hro Hv name. unfold checkMountpointPermission.
  rewrite Hs, Hv, Ha.
  assert (Hpass :
    (if readOnly_truthy ro then
       if truthy (attr_readOnly attrs) then
         if match ro with
            | RoFn f => String.eqb (getPrefix (f req)) (mount_name (found_mount found))
            | RoBool b => b
            end
         then deny (mount_name (found_mount found)) method
                (read_only_error (mount_name (found_mount found)))
         else resolve tt
       else resolve tt
     else resolve tt) = (resolve tt : M (state W) unit)).
  { destruct Hro as [-> | ->]; [reflexivity|]. now destruct (readOnly_truthy ro). }
  rewrite Hpass. destruct valid; run_monad; now rewrite <- ?app_assoc.
Qed.

(** X5.  Where the gate does not stop at a read-only mount -- it was
    called without the read-only check, as for the reading routes, or
    the mount is not read-only -- the groups alone decide.  When
    [validateGroups] is true the gate resolves [true]; when it is false
    the gate rejects with the 403 error
    "Permission was denied for '<method>' in '<mount>'".  So a reading
    route on a read-only mount is served to a user with the groups, and
    a single-target route is refused with that error to a user without
    them, before any adapter call. *)
Theorem permission_is_decided_by_groups :
  forall (W : Type) (JSON_parse : string -> option value) (parseInt : string -> float)
         (svc : vfs_service W),
    (forall req method ro strict (found : resolved W) attrs sess st valid,
        req_session req = Some sess ->
        mount_attributes (found_mount found) = Some attrs ->
        readOnly_truthy ro = false \/ truthy (attr_readOnly attrs) = false ->
        validateGroups (user_groups (session_user sess)) method (found_mount found) strict
        = Resolved valid ->
        let name := mount_name (found_mount found) in
        checkMountpointPermission req method ro strict found st
        = (if valid
           then (Resolved true,
                 mkState (log st ++ [GroupCheck name method true; Granted name method])
                         (backend st))
           else (Rejected (denied_error method name),
                 mkState (log st ++ [GroupCheck name method false; Denied name method])
                         (backend st)))
        /\ code (denied_error method name) = NumCode 403
        /\ message (denied_error method name)
           = "Permission was denied for '" +:+ method +:+ "' in '" +:+ name +:+ "'")
    /\ (forall r req target rest mount attrs sess (st : state W),
          is_cross r = false ->
          route_getter r req = Resolved (target, rest) ->
          List.find (fun m => String.eqb (mount_name m) (getPrefix target)) (mountpoints svc)
          = Some mount ->
          mount_attributes mount = Some attrs ->
          req_session req = Some sess ->
          route_readOnly r = false \/ truthy (attr_readOnly attrs) = false ->
          (r = search -> is_false (attr_searchable attrs) = false) ->
          validateGroups (user_groups (session_user sess)) (route_method r) mount
            (Some (negb (is_false (attr_strictGroups attrs)))) = Resolved false ->
          vfs JSON_parse parseInt svc r req st
          = (Rejected (denied_error (route_method r) (mount_name mount)),
             mkState (log st ++ [Lookup (getPrefix target) true;
                                 GroupCheck (mount_name mount) (route_method r) false;
                                 Denied (mount_name mount) (route_method r)])
                     (backend st))).
Proof.
  intros W JSON_parse parseInt svc. split.
  - intros req method ro strict found attrs sess st valid Hs Ha Hro Hv name.
    split; [now apply gate_by_groups with attrs sess | split; reflexivity].
  - intros r req target rest mount attrs sess st Hc Hget Hreg Ha Hs Hro Hsearch Hv.
    rewrite (vfs_single _ _ _ _ Hc). unfold createRequest. rewrite Hget.
    unfold call. unfold await at 1.
    destruct (resolver_registered svc target st mount Hreg) as (found & Hfm & ->).
    rewrite Hfm, Ha. cbn [default from_option id].
    assert (Hshort : String.eqb (route_method r) "search" && is_false (attr_searchable attrs)
                     = false).
    { destruct r; try reflexivity. cbn [route_method]. now rewrite Hsearch. }
    rewrite Hshort. unfold await at 1.
    rewrite (gate_by_groups req _ _ _ found attrs sess _ false)
      by (rewrite ?Hfm; cbn [readOnly_truthy]; assumption).
    rewrite Hfm. cbn [log backend]. now rewrite <- app_assoc.
Qed.

Lemma permission_is_decided_by_groups_witness :
  vfs no_json no_int plain_service exists_ (request_of [("path", Str "vault:/x")]) start
  = (Rejected (denied_error "exists" "vault"),
     mkState [Lookup "vault" true; GroupCheck "vault" "exists" false;
              Denied "vault" "exists"] tt).
Proof.
  apply (proj2 (permission_is_decided_by_groups unit no_json no_int plain_service)
           exists_ (request_of [("path", Str "vault:/x")]) (One "vault:/x") []
           vault (no_flags "{vfs}/vault" Undefined (Some [Named "staff"])) alice start);
    try reflexivity; try (now left); discriminate.
Defined.

(** ** The registry of mountpoints *)

Lemma find_first {A} (f : A -> bool) (l : list A) (x : A) :
  List.find f l = Some x ->
  exists before after,
    l = before ++ x :: after /\ f x = true /\ forall y, y ∈ before -> f y = false.
Proof.
  induction l as [|a l IH]; [discriminate|]. cbn [List.find].
  destruct (f a) eqn:Fa.
  - intros [= <-]. exists [], l. split; [reflexivity|]. split; [exact Fa|].
    intros y Hy. now apply elem_of_nil in Hy.
  - intros H. destruct (IH H) as (before & after & -> & Fx & Hb).
    exists (a :: before), after. split; [reflexivity|]. split; [exact Fx|].
    intros y Hy. apply elem_of_cons in Hy as [-> | Hy]; [exact Fa | now apply Hb].
Qed.

(** X6.  [mountpointResolver] resolves exactly when a registered
    mountpoint has the prefix of the address as its name.  It then
    yields the first such mountpoint of the list, together with the
    adapter registered under the name the mountpoint gives, or under
    [system] when it gives none; the backend is not touched. *)
Theorem resolver_finds_the_first_mount :
  forall (W : Type) (svc : vfs_service W) (path : address) (st : state W),
    (is_rejected (fst (mountpointResolver svc path st)) = false
     <-> exists m, m ∈ mountpoints svc /\ mount_name m = getPrefix path)
    /\ (forall found st',
          mountpointResolver svc path st = (Resolved found, st') ->
          exists before after,
            mountpoints svc = before ++ found_mount found :: after
            /\ mount_name (found_mount found) = getPrefix path
            /\ (forall m, m ∈ before -> mount_name m <> getPrefix path)
            /\ found_adapter found
               = adapters svc !! match mount_adapter (found_mount found) with
                                 | Some a => if String.eqb a EmptyString then "system" else a
                                 | None => "system"
                                 end
            /\ st' = mkState (log st ++ [Lookup (getPrefix path) true]) (backend st)).
Proof.
  intros W svc path st. unfold mountpointResolver.
  destruct (List.find (fun m => String.eqb (mount_name m) (getPrefix path)) (mountpoints svc))
    as [mount|] eqn:Hfind.
  - destruct (find_first _ _ _ Hfind) as (before & after & Hl & Hname & Hb).
    apply String.eqb_eq in Hname. split.
    + split; [|reflexivity]. intros _. exists mount. split; [|exact Hname].
      rewrite Hl. apply elem_of_app. right. apply list_elem_of_here.
    + run_monad. intros found st' [= <- <-]. exists before, after. cbn [found_mount found_adapter].
      split; [exact Hl|]. split; [exact Hname|]. split.
      * intros m Hm. apply Hb in Hm. now apply String.eqb_neq in Hm.
      * split; [|reflexivity].
        destruct (mount_adapter mount) as [a|]; [|reflexivity].
        now destruct (String.eqb a EmptyString).
  - split.
    + split; [run_monad; discriminate|]. intros (m & Hm & Hname).
      apply list_elem_of_In in Hm.
      pose proof (find_none _ _ Hfind m Hm) as Hn. cbn in Hn.
      rewrite Hname, String.eqb_refl in Hn. discriminate.
    + run_monad. discriminate.
Qed.

(** ** The options of a request *)

Lemma prefix_app (p s : string) : Str.prefix p (p +:+ s) = true.
Proof.
  induction p as [|c p IH]; [now destruct s|].
  rewrite app_cons_string. cbn [Str.prefix]. now rewrite Ascii.eqb_refl, IH.
Qed.

Lemma drop_app (p s : string) : Str.drop (String.length p) (p +:+ s) = s.
Proof.
  induction p as [|c p IH]; [reflexivity|]. rewrite app_cons_string. exact IH.
Qed.

Lemma replace_first_unfold (pat rep s : string) :
  Str.replace_first pat rep s
  = if Str.prefix pat s then rep +:+ Str.drop (String.length pat) s
    else match s with
         | EmptyString => EmptyString
         | String c s' => String c (Str.replace_first pat rep s')
         end.
Proof. now destruct s. Qed.

Lemma replace_first_at_start (pat s : string) :
  Str.replace_first pat EmptyString (pat +:+ s) = s.
Proof. now rewrite replace_first_unfold, prefix_app, drop_app, app_nil_string. Qed.

(** X7.  [parseRangeHeader] reads [bytes=a-b] as the pair of
    [parseInt a] and [parseInt b]; when nothing follows the dash, or
    there is no dash, the end is [undefined]. *)
Theorem range_header_bounds (parseInt : string -> float) (a b : string) :
  free_of "-" a = true -> free_of "-" b = true ->
  parseRangeHeader parseInt ("bytes=" +:+ a +:+ "-" +:+ b)
  = Arr [Num (parseInt a);
         if NodePath.is_empty b then Undefined else Num (parseInt b)]
  /\ parseRangeHeader parseInt ("bytes=" +:+ a) = Arr [Num (parseInt a); Undefined].
Proof.
  intros Ha Hb. unfold parseRangeHeader. rewrite !replace_first_at_start. split.
  - change ("-" +:+ b) with (String "-" b).
    rewrite (split_app_sep "-" a b Ha), (split_free "-" b Hb). cbn [hd nth_error].
    now destruct b.
  - now rewrite (split_free "-" a Ha).
Qed.

Lemma range_header_bounds_witness :
  parseRangeHeader no_int ("bytes=" +:+ "500" +:+ "-" +:+ EmptyString)
  = Arr [Num (no_int "500"); Undefined]
  /\ parseRangeHeader no_int ("bytes=" +:+ "500") = Arr [Num (no_int "500"); Undefined].
Proof. exact (range_header_bounds no_int "500" EmptyString eq_refl eq_refl). Defined.

(** X8.  The options of a request: when the client sends an object, or
    a JSON text of an object, as [options], its properties reach the
    adapter, except [session] and, when the request has a (non-empty)
    [Range] header, [range], which is then [parseRangeHeader] of the
    header.  Without the header a [range] of the client is passed on as
    it is.  A request without [options] has the session only, and the
    range of its header. *)
Theorem options_are_passed_on
    (JSON_parse : string -> option value) (parseInt : string -> float)
    (req : request) (o : gmap string value) :
  field req "options" = Obj o
  \/ (exists s, field req "options" = Str s /\ JSON_parse s = Some (Obj o))
  \/ (field req "options" = Undefined /\ o = ∅) ->
  let options := createOptions JSON_parse parseInt req in
  (forall k, k <> "session" -> k <> "range" -> options !! k = o !! k)
  /\ (forall h,
        req_range req = Some h -> h <> EmptyString ->
        options !! "range" = Some (parseRangeHeader parseInt h))
  /\ (req_range req = None \/ req_range req = Some EmptyString ->
      options !! "range" = o !! "range").
Proof.
  intros Hopt options.
  assert (Hshape : exists ranged,
             options = <["session" := session_value (req_session req)]> ranged
             /\ ranged
                = match req_range req with
                  | Some range =>
                      if negb (String.eqb range EmptyString)
                      then <["range" := parseRangeHeader parseInt range]> o
                      else o
                  | None => o
                  end).
  { eexists. split; [|reflexivity]. unfold options, createOptions.
    destruct Hopt as [-> | [(s & -> & Hs) | [-> ->]]].
    - reflexivity.
    - rewrite Hs. reflexivity.
    - reflexivity. }
  destruct Hshape as (ranged & -> & ->). split; [|split].
  - intros k Hs Hr. rewrite lookup_insert_ne by congruence.
    destruct (req_range req) as [h|]; [|reflexivity].
    destruct (negb (String.eqb h EmptyString)); [|reflexivity].
    now rewrite lookup_insert_ne by congruence.
  - intros h -> Hh. rewrite lookup_insert_ne by discriminate.
    apply String.eqb_neq in Hh. rewrite Hh. cbn [negb]. apply lookup_insert_eq.
  - intros Hr. rewrite lookup_insert_ne by discriminate.
    destruct Hr as [-> | ->]; reflexivity.
Qed.

Lemma options_are_passed_on_witness :
  let req :=
    mkRequest (list_to_map [("path", Str "home:/notes.txt");
                            ("options", Obj {["range" := Str "all"]})])
      (Some "bytes=0-9") (Some alice) None in
  createOptions no_json no_int req !! "range" = Some (parseRangeHeader no_int "bytes=0-9").
Proof.
  intros req.
  apply (proj1 (proj2 (options_are_passed_on no_json no_int req {["range" := Str "all"]}
                         (or_introl eq_refl)))
           "bytes=0-9" eq_refl); discriminate.
Defined.

(** ** Searching a mount that is not searchable *)

(** X9.  A search in a mountpoint whose [searchable] attribute is
    [false] is answered with the empty list straight after the lookup
    of the mountpoint: the gate is not asked -- whatever the groups of
    the mount and of the user, and even without a session -- and no
    adapter is called. *)
Theorem search_of_unsearchable_mount_is_empty :
  forall (W : Type) (JSON_parse : string -> option value) (parseInt : string -> float)
         (svc : vfs_service W) req target rest mount attrs (st : state W),
    route_getter search req = Resolved (target, rest) ->
    List.find (fun m => String.eqb (mount_name m) (getPrefix target)) (mountpoints svc)
    = Some mount ->
    mount_attributes mount = Some attrs ->
    attr_searchable attrs = Bool false ->
    vfs JSON_parse parseInt svc search req st
    = (Resolved (Arr []),
       mkState (log st ++ [Lookup (getPrefix target) true]) (backend st)).
Proof.
  intros W JSON_parse parseInt svc req target rest mount attrs st Hget Hreg Ha Hs.
  rewrite (vfs_single _ _ _ _ (eq_refl : is_cross search = false)).
  unfold createRequest. rewrite Hget. unfold call. unfold await at 1.
  destruct (resolver_registered svc target st mount Hreg) as (found & Hfm & ->).
  rewrite Hfm, Ha. cbn [default from_option id]. rewrite Hs. reflexivity.
Qed.

Lemma search_of_unsearchable_mount_is_empty_witness :
  let hidden :=
    mkMount "vault" "vault:/" None
      (Some (mkAttributes "{vfs}/vault" Undefined (Some [Named "staff"]) Undefined
               (Bool false) Undefined Undefined)) in
  let svc := mkService (adapters plain_service) [home; hidden] in
  let req :=
    mkRequest (list_to_map [("root", Str "vault:/"); ("pattern", Str "*")]) None None None in
  vfs no_json no_int svc search req start
  = (Resolved (Arr []), mkState [Lookup "vault" true] tt).
Proof.
  intros hidden svc req.
  exact (search_of_unsearchable_mount_is_empty unit no_json no_int svc req
           (One "vault:/") [Str "*"] hidden
           (mkAttributes "{vfs}/vault" Undefined (Some [Named "staff"]) Undefined
              (Bool false) Undefined Undefined)
           start eq_refl eq_refl eq_refl eq_refl).
Defined.

(** ** Operations an adapter does not have *)

Lemma resolver_registered_adapter {W : Type} (svc : vfs_service W) path st mount :
  List.find (fun m => String.eqb (mount_name m) (getPrefix path)) (mountpoints svc)
  = Some mount ->
  mountpointResolver svc path st
  = (Resolved (mkResolved mount (adapters svc !! adapter_name mount)),
     mkState (log st ++ [Lookup (getPrefix path) true]) (backend st)).
Proof.
  intros H. unfold mountpointResolver. rewrite H. run_monad. unfold adapter_name.
  destruct (mount_adapter mount) as [a|]; [|reflexivity].
  now destruct (String.eqb a EmptyString).
Qed.

(** X10.  A single-target request for an operation the adapter of the
    mountpoint does not have is rejected, once the gate has granted it,
    with the error "Adapter does not support <method>"; a mountpoint
    that names an adapter which is not registered makes the request
    throw a [TypeError] at the same point.  The backend is as it was. *)
Theorem unsupported_operation_is_rejected :
  forall (W : Type) (JSON_parse : string -> option value) (parseInt : string -> float)
         (svc : vfs_service W) r req target rest mount attrs sess (st : state W),
    is_cross r = false ->
    route_getter r req = Resolved (target, rest) ->
    List.find (fun m => String.eqb (mount_name m) (getPrefix target)) (mountpoints svc)
    = Some mount ->
    mount_attributes mount = Some attrs ->
    req_session req = Some sess ->
    route_readOnly r = false \/ truthy (attr_readOnly attrs) = false ->
    (r = search -> is_false (attr_searchable attrs) = false) ->
    validateGroups (user_groups (session_user sess)) (route_method r) mount
      (Some (negb (is_false (attr_strictGroups attrs)))) = Resolved true ->
    let granted :=
      mkState (log st ++ [Lookup (getPrefix target) true;
                          GroupCheck (mount_name mount) (route_method r) true;
                          Granted (mount_name mount) (route_method r)])
              (backend st) in
    (forall a,
        adapters svc !! adapter_name mount = Some a ->
        single_ops a !! route_method r = None ->
        vfs JSON_parse parseInt svc r req st
        = (Rejected (mkError ErrorC NoCode ("Adapter does not support " +:+ route_method r)),
           granted))
    /\ (adapters svc !! adapter_name mount = None ->
        exists e,
          vfs JSON_parse parseInt svc r req st = (Rejected e, granted)
          /\ eclass e = TypeErrorC).
Proof.
  intros W JSON_parse parseInt svc r req target rest mount attrs sess st
         Hc Hget Hreg Ha Hs Hro Hsearch Hv granted.
  assert (Hshort : String.eqb (route_method r) "search" && is_false (attr_searchable attrs)
                   = false).
  { destruct r; try reflexivity. cbn [route_method]. now rewrite Hsearch. }
  assert (Hrun : forall oa,
             adapters svc !! adapter_name mount = oa ->
             vfs JSON_parse parseInt svc r req st
             = (x <~ vfsMethodWrapper (mkResolved mount oa) target rest
                       (createOptions JSON_parse parseInt req) (route_method r);
                do (if String.eqb (route_method r) "readfile" then
                      stat <~ catch (vfsMethodWrapper (mkResolved mount oa) target rest
                                       (createOptions JSON_parse parseInt req) "stat")
                                    (fun _ => resolve (Obj ∅));
                      readfileHeaders attrs (createOptions JSON_parse parseInt req) stat
                    else resolve tt);
                resolve (match route_respond r with Some f => f x | None => x end))
               granted).
  { intros oa Hoa. rewrite (vfs_single _ _ _ _ Hc). unfold createRequest. rewrite Hget.
    unfold call. unfold await at 1.
    rewrite (resolver_registered_adapter svc target st mount Hreg), Hoa.
    cbn [found_mount]. rewrite Ha. cbn [default from_option id]. rewrite Hshort.
    unfold await at 1.
    rewrite (gate_by_groups req _ _ _ (mkResolved mount oa) attrs sess _ true)
      by (cbn [found_mount readOnly_truthy]; assumption).
    cbn [found_mount log backend]. unfold granted. now rewrite <- app_assoc. }
  split.
  - intros a Hoa Hop. rewrite (Hrun _ Hoa). unfold await at 1, vfsMethodWrapper.
    simpl (found_adapter _). cbv beta iota. unfold single_op in *. now rewrite Hop.
  - intros Hoa. rewrite (Hrun _ Hoa). unfold await at 1, vfsMethodWrapper.
    simpl (found_adapter _). cbv beta iota. eexists. split; reflexivity.
Qed.

Lemma unsupported_operation_is_rejected_witness :
  vfs no_json no_int plain_service readdir (request_of [("path", Str "home:/")]) start
  = (Rejected (mkError ErrorC NoCode "Adapter does not support readdir"),
     mkState [Lookup "home" true; GroupCheck "home" "readdir" true;
              Granted "home" "readdir"] tt).
Proof.
  apply (proj1 (unsupported_operation_is_rejected unit no_json no_int plain_service
                  readdir (request_of [("path", Str "home:/")]) (One "home:/") []
                  home (no_flags "{vfs}/{username}" Undefined None) alice start
                  eq_refl eq_refl eq_refl eq_refl eq_refl (or_introl eq_refl)
                  ltac:(discriminate) eq_refl)
           (yes_adapter 0)); reflexivity.
Defined.

(** ** Copy and rename: what they answer and whom they call *)










(** X13.  Of the two mountpoints of a copy or rename only the
    destination is asked to be writable: the gate checks the source for
    [readfile] without the read-only check.  So when the groups admit
    the user on both sides and the destination is not read-only, the
    operation of the adapter is called -- for a rename too, which takes
    the source away -- whether or not the source mountpoint is
    read-only. *)
Theorem cross_source_is_not_asked_to_be_writable :
  forall (W : Type) (JSON_parse : string -> option value) (parseInt : string -> float)
         (svc : vfs_service W) r req from to src dst sattrs dattrs sess a op
         (st : state W),
    is_cross r = true ->
    requestCross req = Resolved (from, to) ->
    List.find (fun m => String.eqb (mount_name m) (getPrefix from)) (mountpoints svc)
    = Some src ->
    List.find (fun m => String.eqb (mount_name m) (getPrefix to)) (mountpoints svc)
    = Some dst ->
    mount_attributes src = Some sattrs ->
    mount_attributes dst = Some dattrs ->
    req_session req = Some sess ->
    validateGroups (user_groups (session_user sess)) "readfile" src
      (Some (negb (is_false (attr_strictGroups sattrs)))) = Resolved true ->
    validateGroups (user_groups (session_user sess)) "writefile" dst
      (Some (negb (is_false (attr_strictGroups dattrs)))) = Resolved true ->
    truthy (attr_readOnly dattrs) = false ->
    adapters svc !! adapter_name src = Some a ->
    adapters svc !! adapter_name dst = Some a ->
    cross_ops a !! route_method r = Some op ->
    let events :=
      log st ++ [Lookup (getPrefix from) true; Lookup (getPrefix to) true;
                 GroupCheck (mount_name src) "readfile" true;
                 Granted (mount_name src) "readfile";
                 GroupCheck (mount_name dst) "writefile" true;
                 Granted (mount_name dst) "writefile";
                 AdapterCall (oid a) (route_method r)] in
    vfs JSON_parse parseInt svc r req st
    = match op src dst from to (createOptions JSON_parse parseInt req) (backend st) with
      | (Resolved x, w) => (Resolved (Bool (truthy x)), mkState events w)
      | (Rejected e, w) => (Rejected e, mkState events w)
      end.
Proof.
  intros W JSON_parse parseInt svc r req from to src dst sattrs dattrs sess a op st
         Hc Hget Hsrc Hdst Hsa Hda Hs Hvs Hvd Hro Has Had Hop events.
  rewrite (vfs_cross _ _ _ _ Hc). unfold createCrossRequest. rewrite Hget.
  unfold await at 1. rewrite (resolver_registered_adapter svc from st src Hsrc), Has.
  unfold await at 1.
  match goal with |- context [mountpointResolver svc to ?s] =>
    rewrite (resolver_registered_adapter svc to s dst Hdst), Had end.
  unfold await at 1. unfold strictGroups_of at 1. cbn [found_mount]. rewrite Hsa.
  unfold resolve at 1. unfold await at 1. unfold strictGroups_of at 1.
  cbn [found_mount]. rewrite Hda. unfold resolve at 1. unfold await at 1.
  rewrite (gate_by_groups req "readfile" (RoBool false) _ (mkResolved src (Some a))
             sattrs sess _ true)
    by (cbn [found_mount readOnly_truthy]; auto).
  unfold await at 1.
  rewrite (gate_by_groups req "writefile" (RoBool true) _ (mkResolved dst (Some a))
             dattrs sess _ true)
    by (cbn [found_mount readOnly_truthy]; auto).
  simpl (found_adapter _). simpl (found_mount _). unfold sameAdapter.
  rewrite Nat.eqb_refl. cbv beta iota. unfold cross_op, M in *. rewrite Hop.
  run_monad. unfold lift. cbn [backend log].
  destruct (op src dst from to (createOptions JSON_parse parseInt req) (backend st))
    as [[x|e] w]; unfold events; cbn [log]; now rewrite <- !app_assoc.
Qed.

Lemma cross_source_is_not_asked_to_be_writable_witness :
  attr_readOnly (no_flags "{root}/library" (Bool true) None) = Bool true
  /\ vfs no_json no_int plain_service rename
       (request_of [("from", Str "library:/book"); ("to", Str "home:/book")]) start
     = (Resolved (Bool true),
        mkState [Lookup "library" true; Lookup "home" true;
                 GroupCheck "library" "readfile" true; Granted "library" "readfile";
                 GroupCheck "home" "writefile" true; Granted "home" "writefile";
                 AdapterCall 0 "rename"] tt).
Proof.
  split; [reflexivity|].
  exact (cross_source_is_not_asked_to_be_writable unit no_json no_int plain_service
           rename
           (request_of [("from", Str "library:/book"); ("to", Str "home:/book")])
           (One "library:/book") (One "home:/book") library home
           (no_flags "{root}/library" (Bool true) None)
           (no_flags "{vfs}/{username}" Undefined None) alice (yes_adapter 0)
           (fun _ _ _ _ _ => resolve (Bool true)) start
           eq_refl eq_refl eq_refl eq_refl eq_refl eq_refl eq_refl eq_refl eq_refl
           eq_refl eq_refl eq_refl eq_refl).
Defined.

(** ** Real paths *)

Lemma normalizeString_no_dotdot allow (l : list string) :
  Forall (fun s => String.eqb s ".." = false) l ->
  forall acc,
    NodePath.normalizeString allow acc l
    = rev acc ++ NodePath.normalizeString allow [] l.
Proof.
  induction 1 as [|s l Hs _ IH]; intros acc; cbn [NodePath.normalizeString].
  - now rewrite app_nil_r.
  - destruct (NodePath.is_empty s || String.eqb s "."); [apply IH|].
    rewrite Hs. rewrite (IH (s :: acc)), (IH [s]). cbn [rev app].
    now rewrite <- app_assoc.
Qed.

Lemma components_below (root str : string) :
  Forall (fun s => String.eqb s ".." = false) (Str.split "/" str) ->
  Fs.components (root +:+ String "/" str) = Fs.components root ++ Fs.components str.
Proof.
  intros H. unfold Fs.components.
  rewrite split_app_sep_any, normalizeString_app, (normalizeString_no_dotdot _ _ H).
  now rewrite rev_involutive.
Qed.

(** X14.  The real path of an address lies at or below the real root
    of its mountpoint -- the components of the root, then those of the
    address after its prefix -- provided no segment of the address is
    [..]; [getRealPath] itself does not look for such segments. *)
Theorem real_path_stays_below_the_root
    (core_ : System.core) (host : System.platform) (session : value)
    (mount : mountpoint) (attrs : attributes) (root f : string) :
  mount_attributes mount = Some attrs ->
  System.resolveSegments core_ host session (attr_root attrs) = Resolved root ->
  root <> EmptyString ->
  let str := Str.drop (String.length (mount_root mount) - 1) f in
  Forall (fun s => String.eqb s ".." = false) (Str.split "/" str) ->
  exists p,
    System.getRealPath core_ host session mount (One f) = Resolved p
    /\ Fs.components p = Fs.components root ++ Fs.components str.
Proof.
  intros Ha Hroot Hne str Hstr. unfold System.getRealPath. rewrite Ha, Hroot.
  fold str. eexists. split; [reflexivity|].
  unfold NodePath.join. destruct root as [|c root]; [congruence|].
  cbn [NodePath.is_empty]. destruct (NodePath.is_empty str) eqn:E.
  - destruct str; [|discriminate E]. rewrite components_normalize.
    change (Fs.components EmptyString) with (@nil string). now rewrite app_nil_r.
  - rewrite components_normalize.
    change ("/" +:+ str) with (String "/" str). now apply components_below.
Qed.

Lemma real_path_stays_below_the_root_witness :
  exists p,
    System.getRealPath the_core the_host (session_value (Some alice)) home
      (One "home:/docs/a.txt") = Resolved p
    /\ Fs.components p
       = Fs.components "/srv/vfs/alice"
         ++ Fs.components (Str.drop (String.length (mount_root home) - 1) "home:/docs/a.txt").
Proof.
  apply (real_path_stays_below_the_root the_core the_host (session_value (Some alice))
           home (no_flags "{vfs}/{username}" Undefined None) "/srv/vfs/alice"
           "home:/docs/a.txt" eq_refl eq_refl); [discriminate|].
  repeat constructor.
Defined.

(** ** Segments of a root *)

Lemma scan_skip (a s : string) :
  free_of "{" a = true ->
  System.scanSegments None (a +:+ s) = System.scanSegments None s.
Proof.
  induction a as [|c a IH]; [reflexivity|]. unfold free_of. cbn [Str.forallb].
  intros H. apply andb_prop in H as [Hc Ha]. apply negb_true_iff in Hc.
  rewrite app_cons_string. cbn [System.scanSegments]. rewrite Hc. now apply IH.
Qed.

Lemma scan_word (acc w s : string) :
  Str.forallb Str.is_word w = true ->
  System.scanSegments (Some acc) (w +:+ s) = System.scanSegments (Some (acc +:+ w)) s.
Proof.
  revert acc. induction w as [|c w IH]; intros acc.
  - now rewrite app_empty_string.
  - cbn [Str.forallb]. intros H. apply andb_prop in H as [Hc Hw].
    rewrite app_cons_string. cbn [System.scanSegments].
    assert (Hb : Ascii.eqb c "{" = false).
    { destruct (Ascii.eqb c "{") eqn:E; [|reflexivity].
      apply Ascii.eqb_eq in E. subst c. discriminate Hc. }
    rewrite Hb, Hc, (IH _ Hw), app_assoc_string. reflexivity.
Qed.

Lemma matchSegments_single (a name b : string) :
  free_of "{" a = true -> free_of "{" b = true ->
  name <> EmptyString -> Str.forallb Str.is_word name = true ->
  System.matchSegments (a +:+ "{" +:+ name +:+ "}" +:+ b) = [name].
Proof.
  intros Ha Hb Hne Hw. unfold System.matchSegments. rewrite (scan_skip _ _ Ha).
  change ("{" +:+ name +:+ "}" +:+ b) with (String "{" (name +:+ String "}" b)).
  cbn [System.scanSegments]. cbn [Ascii.eqb Bool.eqb]. cbv beta iota.
  rewrite (scan_word _ _ _ Hw), app_nil_string. cbn [System.scanSegments].
  cbn [Ascii.eqb Bool.eqb Str.is_word]. cbv beta iota.
  change (Str.is_word "}") with false. cbv beta iota.
  destruct name as [|c name]; [congruence|]. cbn [NodePath.is_empty negb andb].
  f_equal. rewrite <- (app_empty_string b). now rewrite (scan_skip _ _ Hb).
Qed.

Lemma replaceFrom_unfold (before : list ascii) (pat rep s : string) :
  System.replaceFrom before pat rep s
  = if Str.prefix pat s then
      string_of_list_ascii (rev before)
      +:+ System.expand pat (string_of_list_ascii (rev before))
            (Str.drop (String.length pat) s) rep
      +:+ Str.drop (String.length pat) s
    else match s with
         | EmptyString => string_of_list_ascii (rev before)
         | String c s' => System.replaceFrom (c :: before) pat rep s'
         end.
Proof. now destruct s. Qed.

Lemma replaceFrom_skip (before : list ascii) (pat rep a s : string) :
  free_of "{" a = true ->
  System.replaceFrom before (String "{" pat) rep (a +:+ s)
  = System.replaceFrom (rev (list_ascii_of_string a) ++ before) (String "{" pat) rep s.
Proof.
  revert before. induction a as [|c a IH]; intros before; [reflexivity|].
  unfold free_of. cbn [Str.forallb]. intros H. apply andb_prop in H as [Hc Ha].
  apply negb_true_iff in Hc. rewrite app_cons_string, replaceFrom_unfold.
  cbn [Str.prefix]. rewrite Ascii.eqb_sym, Hc. cbn [andb].
  rewrite (IH _ Ha). cbn [list_ascii_of_string rev]. now rewrite <- app_assoc.
Qed.

Lemma expand_plain (matched before after rep : string) :
  free_of "$" rep = true -> System.expand matched before after rep = rep.
Proof.
  induction rep as [|c rep IH]; [reflexivity|]. unfold free_of. cbn [Str.forallb].
  intros H. apply andb_prop in H as [Hc Hr]. apply negb_true_iff in Hc.
  cbn [System.expand]. rewrite Hc. now rewrite (IH Hr).
Qed.

Lemma replace_single (a name v b : string) :
  free_of "{" a = true -> free_of "$" v = true ->
  System.replace ("{" +:+ name +:+ "}") v (a +:+ "{" +:+ name +:+ "}" +:+ b)
  = a +:+ v +:+ b.
Proof.
  intros Ha Hv. unfold System.replace.
  change ("{" +:+ name +:+ "}") with (String "{" (name +:+ "}")).
  rewrite (replaceFrom_skip [] _ _ _ _ Ha), app_nil_r.
  change ("{" +:+ name +:+ "}" +:+ b) with (String "{" (name +:+ "}" +:+ b)).
  replace (String "{" (name +:+ "}" +:+ b)) with (String "{" (name +:+ "}") +:+ b)
    by (now rewrite app_cons_string, app_assoc_string).
  rewrite replaceFrom_unfold, prefix_app, drop_app, rev_involutive,
    string_of_list_ascii_of_string.
  now rewrite (expand_plain _ _ _ _ Hv).
Qed.

(** X15.  A root with one segment -- an opening brace, a name of word
    characters, a closing brace, and no other opening brace around it --
    resolves to the root with the value of the segment in its place,
    when that value holds no dollar sign (in a replacement [replace]
    reads dollar signs as patterns); when the segment has no value --
    [username] without a user in the session -- resolving throws. *)
Theorem one_segment_is_replaced_by_its_value
    (core_ : System.core) (host : System.platform) (session : value)
    (a name b : string) :
  free_of "{" a = true -> free_of "{" b = true ->
  name <> EmptyString -> Str.forallb Str.is_word name = true ->
  (forall v,
      System.getSegment core_ host session name = Resolved v ->
      free_of "$" v = true ->
      System.resolveSegments core_ host session (a +:+ "{" +:+ name +:+ "}" +:+ b)
      = Resolved (a +:+ v +:+ b))
  /\ (forall e,
        System.getSegment core_ host session name = Rejected e ->
        System.resolveSegments core_ host session (a +:+ "{" +:+ name +:+ "}" +:+ b)
        = Rejected e).
Proof.
  intros Ha Hb Hne Hw. unfold System.resolveSegments.
  rewrite (matchSegments_single a name b Ha Hb Hne Hw). cbn [fold_left]. split.
  - intros v -> Hv. now rewrite (replace_single a name v b Ha Hv).
  - now intros e ->.
Qed.

Lemma one_segment_is_replaced_by_its_value_witness :
  System.resolveSegments the_core the_host (session_value (Some alice))
    ("/home/" +:+ "{" +:+ "username" +:+ "}" +:+ "/files")
  = Resolved ("/home/" +:+ "alice" +:+ "/files")
  /\ System.resolveSegments the_core the_host (session_value None)
       ("/home/" +:+ "{" +:+ "username" +:+ "}" +:+ "/files")
     = Rejected (type_error "Cannot read properties of undefined (reading 'username')").
Proof.
  split.
  - apply (proj1 (one_segment_is_replaced_by_its_value the_core the_host
                    (session_value (Some alice)) "/home/" "username" "/files"
                    eq_refl eq_refl ltac:(discriminate) eq_refl));
      reflexivity.
  - apply (proj2 (one_segment_is_replaced_by_its_value the_core the_host
                    (session_value None) "/home/" "username" "/files"
                    eq_refl eq_refl ltac:(discriminate) eq_refl)).
    reflexivity.
Defined.

(** ** The system adapter: listing and describing *)








(** ** The system adapter: what is at the real path *)



(** ** The system adapter: making directories and writing files *)

Lemma put_then_lookup (cs : list string) (v : option Fs.node) (t t' : Fs.node) :
  Fs.put cs v t = Some t' -> Fs.lookup cs t' = v.
Proof.
  revert t t'. induction cs as [|c cs IH]; intros t t' H; [discriminate H|].
  destruct t as [d|es]; [now destruct cs|].
  destruct cs as [|c' cs].
  - injection H as <-. cbn [Fs.lookup]. rewrite assoc_set_entry_same. now destruct v.
  - rewrite put_more in H.
    destruct (Fs.assoc c es) as [child|]; [|discriminate H].
    destruct (Fs.put (c' :: cs) v child) as [child'|] eqn:Hp; [|discriminate H].
    injection H as <-. cbn [Fs.lookup]. rewrite assoc_set_entry_same.
    now apply (IH child).
Qed.

Lemma put_into_dir (cs : list string) (name : string) (v : option Fs.node)
    (t : Fs.node) (es : list (string * Fs.node)) :
  Fs.lookup cs t = Some (Fs.Dir es) ->
  exists t', Fs.put (cs ++ [name]) v t = Some t'.
Proof.
  revert t. induction cs as [|c cs IH]; intros t H.
  - injection H as ->. eexists. reflexivity.
  - destruct t as [d|es0]; [discriminate H|]. cbn [Fs.lookup] in H.
    destruct (Fs.assoc c es0) as [child|] eqn:Ha; [|discriminate H].
    destruct (IH child H) as [child' Hc].
    change ((c :: cs) ++ [name]) with (c :: (cs ++ [name])).
    destruct (cs ++ [name]) as [|c' rest] eqn:E; [now destruct cs|].
    rewrite put_more, Ha, Hc. eauto.
Qed.



(** X19.  [writefile] of the system adapter, and [readfile] after it.
    Over a directory it resolves [false] and writes nothing.  Where a
    file is, or where nothing is and the parent directory exists, it
    resolves [true], the real path then holds a file with the bytes of
    the stream, and [readfile] of the same address resolves the stream
    of these bytes. *)
Theorem writefile_then_readfile
    (core_ : System.core) (host : System.platform) (mount : mountpoint) (file : address)
    (options : gmap string value) (t : Fs.node) (p data : string) :
  System.getRealPath core_ host (System.session_of options) mount file = Resolved p ->
  let run := System.writefile_op core_ host mount file [Stream data] options t in
  (forall es,
      Fs.lookup (Fs.components p) t = Some (Fs.Dir es) ->
      run = (Resolved (Bool false), t))
  /\ (forall cs name es,
        Fs.components p = cs ++ [name] ->
        Fs.lookup cs t = Some (Fs.Dir es) ->
        (forall es', Fs.lookup (Fs.components p) t <> Some (Fs.Dir es')) ->
        exists t',
          run = (Resolved (Bool true), t')
          /\ Fs.lookup (Fs.components p) t' = Some (Fs.File data)
          /\ System.readfile_op core_ host mount file [] options t'
             = (Resolved
                  (Stream (System.read_range host
                             (default Undefined (options !! "range")) data)),
                t')).
Proof.
  intros Hreal run. split.
  - intros es Hl. unfold run, System.writefile_op, await, settle, Fs.stat.
    now rewrite Hreal, Hl.
  - intros cs name es Hc Hparent Hnd.
    destruct (put_into_dir cs name (Some (Fs.File data)) t es Hparent) as [t' Hp].
    rewrite <- Hc in Hp.
    assert (Hw : Fs.write p data t = t').
    { unfold Fs.write. rewrite Hp.
      destruct (Fs.lookup (Fs.components p) t) as [[d|es']|] eqn:Hl; try reflexivity.
      now destruct (Hnd es'). }
    assert (Hl' : Fs.lookup (Fs.components p) t' = Some (Fs.File data))
      by now apply put_then_lookup in Hp.
    exists t'. split; [|split; [exact Hl'|]].
    + unfold run, System.writefile_op, await, settle, Fs.stat. rewrite Hreal.
      destruct (Fs.lookup (Fs.components p) t) as [[d|es']|] eqn:Hl.
      * cbn [Fs.isDirectory]. now rewrite Hw.
      * now destruct (Hnd es').
      * cbn [code Fs.ENOENT Fs.errno].
        change (String.eqb "ENOENT" "ENOENT") with true. cbv beta iota. now rewrite Hw.
    + unfold System.readfile_op, await, settle, Fs.stat, Fs.content.
      rewrite Hreal, Hl'. cbn [Fs.isFile negb]. now rewrite Hl'.
Qed.

Lemma writefile_then_readfile_witness :
  exists t',
    System.writefile_op the_core the_host home (One "home:/docs/new.txt")
      [Stream "fresh"] as_alice disk
    = (Resolved (Bool true), t')
    /\ Fs.lookup (Fs.components "/srv/vfs/alice/docs/new.txt") t'
       = Some (Fs.File "fresh")
    /\ System.readfile_op the_core the_host home (One "home:/docs/new.txt") [] as_alice t'
       = (Resolved
            (Stream (System.read_range the_host (default Undefined (as_alice !! "range"))
                       "fresh")),
          t').
Proof.
  apply (proj2 (writefile_then_readfile the_core the_host home (One "home:/docs/new.txt")
                  as_alice disk "/srv/vfs/alice/docs/new.txt" "fresh" eq_refl)
           ["srv"; "vfs"; "alice"; "docs"] "new.txt"
           [("a.txt", Fs.File "A"); ("sub", Fs.Dir [("b.txt", Fs.File "B")])]
           eq_refl eq_refl).
  intros es'. discriminate.
Defined.

(** ** [archive] with the action [extract] *)

Lemma target_of_zip (p : string) :
  Str.join "." (removelast (Str.split "." (p +:+ ".zip"))) = p.
Proof.
  change (p +:+ ".zip") with (p +:+ String "." "zip").
  rewrite split_app_sep_any. change (Str.split "." "zip") with ["zip"].
  rewrite removelast_last. apply join_split.
Qed.

(** X20.  [archive] with the action [extract] unpacks each selected
    real path into the path without its last extension: an archive
    [p.zip] -- as [compress] names the one it makes for a first
    selection [p] -- goes into [p].  A path without a dot has nothing
    before a last extension: its target is the empty path. *)
Theorem extract_goes_beside_the_archive
    (core_ : System.core) (host : System.platform) :
  (forall mount files rest options realPaths t,
      System.realPaths_of core_ host (System.session_of options) mount files
      = Resolved realPaths ->
      options !! "action" = Some (Str "extract") ->
      System.archive_op core_ host mount (Many files) rest options t
      = System.extract_all host realPaths t)
  /\ (forall ps t,
        System.extract_all host (map (fun p => p +:+ ".zip") ps) t
        = (do System.for_each (fun _ p => System.extract host (p +:+ ".zip") p) ps tt;
           resolve (Bool true)) t)
  /\ (forall s t,
        free_of "." s = true ->
        System.extract_all host [s] t
        = (do System.extract host s EmptyString; resolve (Bool true)) t).
Proof.
  split; [|split].
  - intros mount files rest options realPaths t Hpaths Haction.
    unfold System.archive_op, await, settle. now rewrite Hpaths, Haction.
  - intros ps t. unfold System.extract_all, await. f_equal.
    assert (H : forall u t0,
               System.for_each
                 (fun (_ : unit) realPath =>
                    System.extract host realPath
                      (Str.join "." (removelast (Str.split "." realPath))))
                 (map (fun p => p +:+ ".zip") ps) u t0
               = System.for_each (fun _ p => System.extract host (p +:+ ".zip") p) ps u t0).
    { induction ps as [|p ps IH]; intros u t0; [reflexivity|].
      cbn [map System.for_each]. unfold await. rewrite target_of_zip.
      destruct (System.extract host (p +:+ ".zip") p t0) as [[u'|e] t1]; [apply IH|].
      reflexivity. }
    now rewrite H.
  - intros s t Hs. unfold System.extract_all. cbn [System.for_each].
    rewrite (split_free "." s Hs). cbn [removelast Str.join].
    unfold await. destruct (System.extract host s EmptyString t) as [[[]|e] t1]; reflexivity.
Qed.

(** ** Names in the archive *)

Lemma parse_dir_child (d zname : string) :
  file_name zname = true ->
  NodePath.parse_dir (String "/" d +:+ String "/" zname) = String "/" d.
Proof.
  intros H. rewrite app_cons_string. unfold NodePath.parse_dir.
  cbn [NodePath.is_slash Ascii.eqb Bool.eqb]. cbv beta iota.
  rewrite (before_base_child d zname H), rev_involutive.
  now rewrite string_of_list_ascii_of_string.
Qed.

(** X21.  An entry is named in the archive by its real path without
    the directory of the zip: for a zip in the directory [dir], the
    file at [dir/rel] is added under the name [rel] -- unless [yazl]
    refuses that name, which ends the walk with its error. *)
Theorem archive_names_are_relative
    (host : System.platform) (zip : System.zipfile) (d zname rel : string) (t : Fs.node) :
  file_name zname = true ->
  System.zip_location zip = String "/" d +:+ String "/" zname ->
  System.addFileToArchive host zip (String "/" d +:+ String "/" rel) t
  = match System.yazl_check host rel with
    | Some e => (Rejected e, t)
    | None =>
        (Resolved (System.mkZip (System.zip_location zip)
                     (System.zip_entries zip
                      ++ [(rel, String "/" d +:+ String "/" rel)])),
         t)
    end.
Proof.
  intros Hz Hloc. unfold System.addFileToArchive.
  rewrite Hloc, (parse_dir_child d zname Hz).
  assert (Hdest : System.replace (String "/" d +:+ "/") EmptyString
                    (String "/" d +:+ String "/" rel) = rel).
  { unfold System.replace.
    replace (String "/" d +:+ String "/" rel) with ((String "/" d +:+ "/") +:+ rel)
      by (now rewrite app_assoc_string).
    rewrite replaceFrom_unfold, prefix_app, drop_app. reflexivity. }
  rewrite Hdest. now destruct (System.yazl_check host rel).
Qed.

Lemma archive_names_are_relative_witness :
  System.addFileToArchive the_host (System.mkZip "/srv/vfs/alice/docs.zip" [])
    "/srv/vfs/alice/docs/a.txt" disk
  = (Resolved (System.mkZip "/srv/vfs/alice/docs.zip"
                 [("docs/a.txt", "/srv/vfs/alice/docs/a.txt")]),
     disk).
Proof.
  exact (archive_names_are_relative the_host (System.mkZip "/srv/vfs/alice/docs.zip" [])
           "srv/vfs/alice" "docs.zip" "docs/a.txt" disk eq_refl eq_refl).
Defined.

(** ** What [compress] leaves alone *)

Lemma put_keeps_other (cs : list string) (v : option Fs.node) (t t' : Fs.node) :
  (forall es, Fs.lookup cs t <> Some (Fs.Dir es)) ->
  Fs.put cs v t = Some t' ->
  forall q d, q <> cs -> Fs.lookup q t = Some (Fs.File d) -> Fs.lookup q t' = Some (Fs.File d).
Proof.
  revert t t'.
  induction cs as [|c cs IH]; intros t t' Hnd Hput q d Hne Hq; [discriminate Hput|].
  destruct t as [d0|es]; [now destruct cs|].
  destruct q as [|c0 q]; [discriminate Hq|]. cbn [Fs.lookup] in Hq.
  destruct (Fs.assoc c0 es) as [child0|] eqn:Ha0; [|discriminate Hq].
  destruct (String.eqb c0 c) eqn:E.
  - apply String.eqb_eq in E. subst c0.
    destruct cs as [|c' cs].
    + cbn [Fs.lookup] in Hnd. rewrite Ha0 in Hnd.
      destruct child0 as [d1|es1]; [|now elim (Hnd es1)].
      apply lookup_file in Hq as [-> _]. congruence.
    + rewrite put_more, Ha0 in Hput.
      destruct (Fs.put (c' :: cs) v child0) as [child'|] eqn:Hp; [|discriminate].
      injection Hput as <-. cbn [Fs.lookup]. rewrite assoc_set_entry_same.
      apply (IH child0 child'); [|exact Hp|congruence|exact Hq].
      intros es1 H. apply (Hnd es1). cbn [Fs.lookup]. now rewrite Ha0.
  - assert (Ht' : exists es', t' = Fs.Dir es' /\ Fs.assoc c0 es' = Some child0).
    { destruct cs as [|c' cs].
      - injection Hput as <-. eexists. split; [reflexivity|].
        now rewrite assoc_set_entry_other.
      - rewrite put_more in Hput. destruct (Fs.assoc c es) as [child|]; [|discriminate].
        destruct (Fs.put (c' :: cs) _ child) as [child'|]; [|discriminate].
        injection Hput as <-. eexists. split; [reflexivity|].
        now rewrite assoc_set_entry_other. }
    destruct Ht' as (es' & -> & Ha'). cbn [Fs.lookup]. now rewrite Ha'.
Qed.

Lemma write_keeps_other (path data : string) (t : Fs.node) (q : list string) (d : string) :
  q <> Fs.components path ->
  Fs.lookup q t = Some (Fs.File d) ->
  Fs.lookup q (Fs.write path data t) = Some (Fs.File d).
Proof.
  intros Hne Hq. unfold Fs.write.
  destruct (Fs.lookup (Fs.components path) t) as [[d0|es]|] eqn:Hl; [|exact Hq|].
  - destruct (Fs.put (Fs.components path) (Some (Fs.File data)) t) as [t'|] eqn:Hp;
      [|exact Hq].
    cbn. apply (put_keeps_other (Fs.components path) (Some (Fs.File data)) t t');
      try assumption.
    intros es. rewrite Hl. discriminate.
  - destruct (Fs.put (Fs.components path) (Some (Fs.File data)) t) as [t'|] eqn:Hp;
      [|exact Hq].
    cbn. apply (put_keeps_other (Fs.components path) (Some (Fs.File data)) t t');
      try assumption.
    intros es. rewrite Hl. discriminate.
Qed.

Lemma unlink_keeps_other (path : string) (t : Fs.node) (q : list string) (d : string) :
  q <> Fs.components path ->
  Fs.lookup q t = Some (Fs.File d) ->
  Fs.lookup q (snd (Fs.unlink path t)) = Some (Fs.File d).
Proof.
  intros Hne Hq. unfold Fs.unlink.
  destruct (Fs.lookup (Fs.components path) t) as [[d0|es]|] eqn:Hl; cbn [snd];
    [|exact Hq|exact Hq].
  destruct (Fs.put (Fs.components path) None t) as [t'|] eqn:Hp; [|exact Hq].
  cbn. apply (put_keeps_other (Fs.components path) None t t'); try assumption.
  intros es. rewrite Hl. discriminate.
Qed.

Lemma keeps_resolve {S A} (a : A) : keeps (S:=S) (resolve a).
Proof. intros st. reflexivity. Qed.

Lemma keeps_reject {S A} (e : error) : keeps (S:=S) (A:=A) (reject e).
Proof. intros st. reflexivity. Qed.

Lemma keeps_await {S A B} (c : M S A) (k : A -> M S B) :
  keeps c -> (forall a, keeps (k a)) -> keeps (await c k).
Proof.
  intros Hc Hk st. unfold await. specialize (Hc st).
  destruct (c st) as [[a|e] st1]; cbn [snd] in *; subst st1; [apply Hk | reflexivity].
Qed.

Lemma keeps_catch {S A} (c : M S A) (h : error -> M S A) :
  keeps c -> (forall e, keeps (h e)) -> keeps (catch c h).
Proof.
  intros Hc Hh st. unfold catch. specialize (Hc st).
  destruct (c st) as [[a|e] st1]; cbn [snd] in *; subst st1; [reflexivity | apply Hh].
Qed.

Lemma keeps_stat (p : string) : keeps (Fs.stat p).
Proof. intros t. unfold Fs.stat. now destruct (Fs.lookup _ t). Qed.

Lemma keeps_readdir (p : string) : keeps (Fs.readdir p).
Proof. intros t. unfold Fs.readdir. now destruct (Fs.lookup _ t) as [[|]|]. Qed.

Lemma keeps_all {A B} (f : A -> M Fs.node B) (l : list A) :
  (forall x, keeps (f x)) -> keeps (System.all f l).
Proof.
  intros Hf. induction l as [|x l IH]; [apply keeps_resolve|].
  cbn [System.all]. apply keeps_await; [apply Hf|]. intros y.
  apply keeps_await; [exact IH | intros ys; apply keeps_resolve].
Qed.

Lemma keeps_for_each {A S} (f : S -> A -> M Fs.node S) (l : list A) :
  (forall s x, keeps (f s x)) -> forall s, keeps (System.for_each f l s).
Proof.
  intros Hf. induction l as [|x l IH]; intros s; [apply keeps_resolve|].
  cbn [System.for_each]. apply keeps_await; [apply Hf | exact IH].
Qed.

Lemma keeps_createFileIter (core_ : System.core) (root file : string) :
  keeps (System.createFileIter core_ root file).
Proof.
  unfold System.createFileIter. apply keeps_catch.
  - apply keeps_await; [apply keeps_stat | intros st; apply keeps_resolve].
  - intros e. apply keeps_resolve.
Qed.

Lemma keeps_addFileToArchive (host : System.platform) zip p :
  keeps (System.addFileToArchive host zip p).
Proof.
  unfold System.addFileToArchive.
  destruct (System.yazl_check host _); [apply keeps_reject | apply keeps_resolve].
Qed.

(** The walk of [archive] reads the tree and never writes it. *)
Lemma keeps_addToArchive (core_ : System.core) (host : System.platform) (fuel : nat) :
  forall zip p, keeps (System.addToArchive core_ host fuel zip p).
Proof.
  induction fuel as [|fuel IH]; intros zip p; [apply keeps_reject|].
  cbn [System.addToArchive]. apply keeps_await; [apply keeps_stat|]. intros st.
  destruct (Fs.isDirectory st); [|apply keeps_addFileToArchive].
  unfold System.addDirToArchive.
  apply keeps_await; [apply keeps_readdir|]. intros names.
  apply keeps_await; [apply keeps_all; intros x; apply keeps_createFileIter|].
  intros files. apply keeps_for_each. intros z fi.
  destruct (System.fi_isDirectory fi); [apply IH | apply keeps_addFileToArchive].
Qed.

(** X22.  [compress] touches nothing but the zip: whether it resolves
    or rejects, every file of the disk elsewhere than at the place of
    the zip is there afterwards with the bytes it had (the selected
    files are not removed). *)
Theorem compress_touches_only_the_zip
    (core_ : System.core) (host : System.platform) (realPaths : list string)
    (t0 : Fs.node) (q : list string) (d : string) :
  q <> Fs.components (hd "undefined" realPaths +:+ ".zip") ->
  Fs.lookup q t0 = Some (Fs.File d) ->
  Fs.lookup q (snd (System.compress core_ host realPaths t0)) = Some (Fs.File d).
Proof.
  intros Hne Hq. unfold System.compress.
  set (location := hd "undefined" realPaths +:+ ".zip") in *.
  set (t1 := Fs.write location EmptyString t0).
  assert (H1 : Fs.lookup q t1 = Some (Fs.File d)) by now apply write_keeps_other.
  pose proof (keeps_for_each (System.addToArchive core_ host (S (Fs.height t1))) realPaths
                (fun s x => keeps_addToArchive core_ host _ s x)
                (System.mkZip location []) t1) as Hwalk.
  destruct (System.for_each _ realPaths _ t1) as [[zip|e] t2]; cbn [snd] in *; subst t2.
  - now apply write_keeps_other.
  - now apply unlink_keeps_other.
Qed.

Lemma compress_touches_only_the_zip_witness :
  Fs.lookup ["srv"; "vfs"; "alice"; "notes.txt"]
    (snd (System.compress the_core the_host ["/srv/vfs/alice/docs"] disk))
  = Some (Fs.File "hello").
Proof.
  apply (compress_touches_only_the_zip the_core the_host ["/srv/vfs/alice/docs"] disk
           ["srv"; "vfs"; "alice"; "notes.txt"] "hello"); [discriminate | reflexivity].
Defined.

(** ** [stat] of the system adapter *)



(** ** Uploads *)

(** X24.  [streamFromRequest] yields a stream exactly when the upload
    of the request is one, or is a temporary file with a path; an
    upload without a path gives the error "File path is empty or
    undefined.", and a request without upload a [TypeError].  The
    writefile route reads the upload when it reads its arguments: after
    the address has been sanitized and before the mountpoint is looked
    up.  So a writefile request without a usable upload is rejected
    with that error and nothing else has happened -- no lookup, no gate,
    no adapter call -- also when the mountpoint is read-only or does not
    exist. *)
Theorem upload_is_read_before_the_lookup :
  (forall req,
      is_rejected (streamFromRequest req) = false
      <-> (exists d, req_upload req = Some (UploadStream d))
          \/ (exists p d, req_upload req = Some (UploadFile p d) /\ p <> EmptyString))
  /\ (forall req p d,
        req_upload req = Some (UploadFile p d) -> p <> EmptyString ->
        streamFromRequest req = Resolved (Stream d))
  /\ (forall req d,
        req_upload req = Some (UploadFile EmptyString d) ->
        streamFromRequest req
        = Rejected (mkError ErrorC NoCode "File path is empty or undefined."))
  /\ (forall (W : Type) JSON_parse parseInt (svc : vfs_service W) req a e (st : state W),
        sanitize (field req "path") = Resolved a ->
        streamFromRequest req = Rejected e ->
        vfs JSON_parse parseInt svc writefile req st = (Rejected e, st)).
Proof.
  split; [|split; [|split]].
  - intros req. unfold streamFromRequest.
    destruct (req_upload req) as [[d|p d]|].
    + split; [eauto | reflexivity].
    + destruct (String.eqb p EmptyString) eqn:E.
      * apply String.eqb_eq in E. subst p. split; [discriminate|].
        intros [(d' & H) | (p' & d' & [= <- _] & Hne)]; [discriminate H | congruence].
      * apply String.eqb_neq in E. split; [|reflexivity]. intros _. right. eauto.
    + split; [discriminate|]. intros [(d & H) | (p & d & H & _)]; discriminate H.
  - intros req p d Hu Hp. unfold streamFromRequest. rewrite Hu.
    apply String.eqb_neq in Hp. now rewrite Hp.
  - intros req d Hu. unfold streamFromRequest. now rewrite Hu.
  - intros W JSON_parse parseInt svc req a e st Ha He.
    rewrite (vfs_single _ _ _ writefile eq_refl). unfold createRequest.
    cbn [route_getter]. unfold requestFile. now rewrite Ha, He.
Qed.

Lemma upload_is_read_before_the_lookup_witness :
  vfs no_json no_int plain_service writefile
    (request_of [("path", Str "library:/new.txt")]) start
  = (Rejected (type_error "Cannot read properties of undefined (reading 'filepath')"),
     start).
Proof.
  exact (proj2 (proj2 (proj2 upload_is_read_before_the_lookup)) unit no_json no_int
           plain_service (request_of [("path", Str "library:/new.txt")])
           (One "library:/new.txt") _ start eq_refl eq_refl).
Defined.

(** ** Mountpoints without attributes *)

(** X25.  A mountpoint registered without [attributes] serves nothing:
    every single-target request to it is rejected by the gate with a
    [TypeError], and so is every copy or rename between registered
    mountpoints one of which has none; no adapter is called and the
    backend is as it was. *)
Theorem mount_without_attributes_serves_nothing :
  forall (W : Type) (JSON_parse : string -> option value) (parseInt : string -> float)
         (svc : vfs_service W),
    (forall r req target rest mount (st : state W),
        is_cross r = false ->
        route_getter r req = Resolved (target, rest) ->
        List.find (fun m => String.eqb (mount_name m) (getPrefix target)) (mountpoints svc)
        = Some mount ->
        mount_attributes mount = None ->
        exists e,
          vfs JSON_parse parseInt svc r req st
          = (Rejected e,
             mkState (log st ++ [Lookup (getPrefix target) true;
                                 Denied (mount_name mount) (route_method r)])
                     (backend st))
          /\ eclass e = TypeErrorC)
    /\ (forall r req from to src dst (st : state W),
          is_cross r = true ->
          requestCross req = Resolved (from, to) ->
          List.find (fun m => String.eqb (mount_name m) (getPrefix from)) (mountpoints svc)
          = Some src ->
          List.find (fun m => String.eqb (mount_name m) (getPrefix to)) (mountpoints svc)
          = Some dst ->
          mount_attributes src = None \/ mount_attributes dst = None ->
          exists e,
            vfs JSON_parse parseInt svc r req st
            = (Rejected e,
               mkState (log st ++ [Lookup (getPrefix from) true; Lookup (getPrefix to) true])
                       (backend st))
            /\ eclass e = TypeErrorC).
Proof.
  intros W JSON_parse parseInt svc. split.
  - intros r req target rest mount st Hc Hget Hreg Hnone.
    rewrite (vfs_single _ _ _ _ Hc). unfold createRequest. rewrite Hget.
    unfold call. unfold await at 1.
    rewrite (resolver_registered_adapter svc target st mount Hreg).
    cbn [found_mount]. rewrite Hnone. cbn [default from_option id].
    change (is_false (attr_searchable no_attributes)) with false.
    rewrite andb_false_r. unfold await at 1, checkMountpointPermission.
    cbn [found_mount]. rewrite Hnone. unfold validateGroups. rewrite Hnone.
    destruct (req_session req) as [sess|].
    + destruct (readOnly_truthy (RoBool (route_readOnly r)));
        run_monad; rewrite <- ?app_assoc; eexists; split; reflexivity.
    + run_monad. rewrite <- ?app_assoc. eexists. split; reflexivity.
  - intros r req from to src dst st Hc Hget Hsrc Hdst Hnone.
    rewrite (vfs_cross _ _ _ _ Hc). unfold createCrossRequest. rewrite Hget.
    unfold await at 1. rewrite (resolver_registered_adapter svc from st src Hsrc).
    unfold await at 1.
    match goal with |- context [mountpointResolver svc to ?s] =>
      rewrite (resolver_registered_adapter svc to s dst Hdst) end.
    unfold await at 1. unfold strictGroups_of at 1. cbn [found_mount log backend].
    destruct (mount_attributes src) as [sattrs|].
    + destruct Hnone as [Hnone | Hnone]; [discriminate Hnone|].
      unfold resolve at 1. unfold await at 1, strictGroups_of at 1.
      cbn [found_mount]. rewrite Hnone. run_monad. rewrite <- ?app_assoc.
      eexists. split; reflexivity.
    + run_monad. rewrite <- ?app_assoc. eexists. split; reflexivity.
Qed.

(** ** Removing *)



(** ** Temporary files at the end of a request *)

(** X27.  [onDone] removes the temporary files of a request by their
    [path] property and by nothing else: a file of the request whose
    [path] is a name on the disk is gone afterwards, and a request
    whose files have no [path] -- none at all, or files known by
    [filepath] only, which [streamFromRequest] reads as well -- leaves
    the disk as it is. *)
Theorem temporary_files_are_removed_by_path :
  (forall t, Finally.onDone None t = t)
  /\ (forall entries t,
        Forall (fun e => forall s, prop (snd e) "path" <> Str s) entries ->
        Finally.onDone (Some entries) t = t)
  /\ (forall field s t,
        Finally.onDone (Some [(field, Obj {["filepath" := Str s]})]) t = t)
  /\ (forall field f s t,
        prop f "path" = Str s ->
        Fs.components s <> [] ->
        Fs.lookup (Fs.components s) (Finally.onDone (Some [(field, f)]) t) = None).
Proof.
  assert (H2 : forall entries t,
             Forall (fun e => forall s, prop (snd e) "path" <> Str s) entries ->
             Finally.onDone (Some entries) t = t).
  { intros entries t H. unfold Finally.onDone.
    induction H as [|e entries He _ IH]; [reflexivity|]. cbn [fold_left].
    destruct (prop (snd e) "path") as [| | | |s| | |] eqn:E; try exact IH.
    now destruct (He s). }
  split; [reflexivity|]. split; [exact H2|]. split.
  - intros field s t. apply H2. constructor; [|constructor].
    intros s'. cbn [snd prop]. rewrite lookup_singleton_ne by discriminate. discriminate.
  - intros field f s t Hp Hne. unfold Finally.onDone. cbn [fold_left snd].
    rewrite Hp. unfold Finally.existsSync.
    destruct (Fs.lookup (Fs.components s) t) as [n|] eqn:Hl.
    + assert (Hs : NodePath.is_empty s = false) by (destruct s; [now elim Hne | reflexivity]).
      rewrite Hs. rewrite bool_decide_eq_true_2 by eauto. cbn [negb andb].
      unfold Fs.remove. rewrite Hl. cbn [snd].
      destruct (put_lookup_same (Fs.components s) None t n Hne Hl) as (t' & -> & Hl').
      exact Hl'.
    + rewrite bool_decide_eq_false_2 by (now intros [x Hx]).
      rewrite andb_false_r. exact Hl.
Qed.

Lemma temporary_files_are_removed_by_path_witness :
  Fs.lookup (Fs.components "/srv/vfs/alice/notes.txt")
    (Finally.onDone
       (Some [("upload", Obj {["path" := Str "/srv/vfs/alice/notes.txt"]})]) disk)
  = None.
Proof.
  apply (proj2 (proj2 (proj2 temporary_files_are_removed_by_path)) "upload"
           (Obj {["path" := Str "/srv/vfs/alice/notes.txt"]}) "/srv/vfs/alice/notes.txt" disk);
    [vm_compute; reflexivity | discriminate].
Defined.

(** ** The statuses of the dispatcher's own errors *)

Lemma validateGroups_rejects (U : list string) method mount strict e :
  validateGroups U method mount strict = Rejected e -> status_of e = 400%Z.
Proof.
  unfold validateGroups. destruct (mount_attributes mount) as [attrs|].
  - destruct (default [] (attr_groups attrs)); discriminate.
  - now intros [= <-].
Qed.

Lemma gate_rejects_own {W : Type} req method ro strict (found : resolved W) st e st' :
  checkMountpointPermission req method ro strict found st = (Rejected e, st') ->
  status_of e = 400%Z \/ status_of e = 403%Z.
Proof.
  unfold checkMountpointPermission.
  destruct (req_session req) as [sess|].
  2:{ run_monad. intros [= <- _]. now left. }
  destruct (validateGroups _ _ _ _) as [[|]|e0] eqn:Hv;
    destruct ro as [[|]|f]; cbn [readOnly_truthy];
    try destruct (mount_attributes (found_mount found)) as [attrs|];
    try destruct (truthy (attr_readOnly attrs));
    try destruct (String.eqb _ _);
    run_monad; intros [= <- _];
    first [ now left | now right | left; now apply validateGroups_rejects in Hv ].
Qed.

Lemma single_own_errors :
  forall (W : Type) (JSON_parse : string -> option value) (parseInt : string -> float)
         (svc : vfs_service W) r req target rest (st st' : state W) e,
    is_cross r = false ->
    route_getter r req = Resolved (target, rest) ->
    vfs JSON_parse parseInt svc r req st = (Rejected e, st') ->
    (exists new, log st' = log st ++ new /\ existsb is_adapter_call new = true)
    \/ status_of e = 400%Z
    \/ status_of e = 403%Z.
Proof.
  intros W JSON_parse parseInt svc r req target rest st st' e Hc Hget.
  rewrite (vfs_single _ _ _ _ Hc). unfold createRequest. rewrite Hget.
  unfold call. unfold await at 1.
  destruct (resolver_settles svc target st) as [(found & Hres & _) | [Hres _]];
    rewrite Hres; [|intros [= <- _]; now right; right].
  destruct (andb (String.eqb (route_method r) "search") _); [discriminate|].
  unfold await at 1.
  set (st1 := mkState (log st ++ [Lookup (getPrefix target) true]) (backend st)).
  destruct (checkMountpointPermission req (route_method r) (RoBool (route_readOnly r))
              _ found st1) as [[b|e1] st2] eqn:Hg.
  2:{ intros [= <- _]. right. now apply gate_rejects_own in Hg. }
  assert (Hst2 : log st2 = log st1 ++ [GroupCheck (mount_name (found_mount found))
                                         (route_method r) true;
                                       Granted (mount_name (found_mount found))
                                         (route_method r)]).
  { match type of Hg with checkMountpointPermission ?q ?m ?ro ?s ?f ?s0 = _ =>
      destruct (gate_settles q m ro s f s0) as [Hs | (e2 & evs & Hs & _)] end;
      rewrite Hs in Hg; [|discriminate Hg]. now injection Hg as _ <-. }
  unfold await at 1. unfold vfsMethodWrapper at 1.
  destruct (found_adapter found) as [a|]; [|intros [= <- _]; right; now left].
  destruct (single_ops a !! route_method r) as [op|];
    [|intros [= <- _]; right; now left].
  unfold await at 1, tell at 1. intros Hrun. left.
  match type of Hrun with (let (_, _) := ?c ?s in _) = _ =>
    change ((await c
               (fun result =>
                  do (if String.eqb (route_method r) "readfile" then
                        stat <~ catch (vfsMethodWrapper found target rest
                                         (createOptions JSON_parse parseInt req) "stat")
                                      (fun _ => resolve (Obj ∅));
                        readfileHeaders
                          (default no_attributes (mount_attributes (found_mount found)))
                          (createOptions JSON_parse parseInt req) stat
                      else resolve tt);
                  resolve (match route_respond r with Some f => f result | None => result end))
               s) = (Rejected e, st')) in Hrun;
    assert (Hp : appends is_backend_event false
                   (await c
                      (fun result =>
                         do (if String.eqb (route_method r) "readfile" then
                               stat <~ catch (vfsMethodWrapper found target rest
                                                (createOptions JSON_parse parseInt req)
                                                "stat")
                                             (fun _ => resolve (Obj ∅));
                               readfileHeaders
                                 (default no_attributes
                                    (mount_attributes (found_mount found)))
                                 (createOptions JSON_parse parseInt req) stat
                             else resolve tt);
                         resolve (match route_respond r with
                                  | Some f => f result
                                  | None => result
                                  end))));
    [|destruct (Hp s) as (more & Hlog & _)]
  end.
  { apply appends_await; [apply appends_lift|].
    intros result. apply appends_await; [|intros _; apply appends_resolve].
    case_match; [|apply appends_resolve].
    apply appends_await; [|intros s; apply readfileHeaders_appends].
    apply appends_catch; [apply vfsMethodWrapper_appends|].
    intros _. apply appends_resolve. }
  rewrite Hrun in Hlog. cbn [snd log] in Hlog. rewrite Hst2 in Hlog.
  subst st1. cbn [log] in Hlog. eexists. split.
  - rewrite Hlog, <- !app_assoc. reflexivity.
  - cbn [app existsb is_adapter_call]. now rewrite !orb_true_r.
Qed.


Lemma strictGroups_of_rejects {W : Type} (found : resolved W) st e st' :
  strictGroups_of found st = (Rejected e, st') -> status_of e = 400%Z.
Proof.
  unfold strictGroups_of. destruct (mount_attributes (found_mount found)); [discriminate|].
  now intros [= <- _].
Qed.

Lemma called_is_logged {W A} (o : nat) (m : string) (k : M (state W) A) :
  appends is_backend_event false k ->
  forall s,
    exists more,
      log (snd (await (tell (AdapterCall o m)) (fun _ => k) s))
      = log s ++ AdapterCall o m :: more.
Proof.
  intros Hk s. unfold await, tell.
  destruct (Hk (mkState (log s ++ [AdapterCall o m]) (backend s))) as (more & Hlog & _).
  exists more. rewrite Hlog. cbn [log]. now rewrite <- app_assoc.
Qed.

Lemma invoke_rejects_or_calls {W : Type} (found : resolved W) m target rest options :
  (exists e, invoke found m target rest options = reject e /\ status_of e = 400%Z)
  \/ (exists o k,
        invoke found m target rest options = await (tell (AdapterCall o m)) (fun _ => k)
        /\ appends is_backend_event false k).
Proof.
  unfold invoke. destruct (found_adapter found) as [a|]; [|left; eexists; split; reflexivity].
  destruct (single_ops a !! m) as [op|]; [|left; eexists; split; reflexivity].
  right. eexists _, _. split; [reflexivity | apply appends_lift].
Qed.

Lemma cross_own_errors {W : Type} JSON_parse parseInt (svc : vfs_service W) method req
    from to (st st' : state W) e :
  requestCross req = Resolved (from, to) ->
  createCrossRequest JSON_parse parseInt (mountpointResolver svc) requestCross method req st
  = (Rejected e, st') ->
  (exists new, log st' = log st ++ new /\ existsb is_adapter_call new = true)
  \/ status_of e = 400%Z
  \/ status_of e = 403%Z.
Proof.
  intros Hget Hrun. unfold createCrossRequest in Hrun. rewrite Hget in Hrun.
  unfold await at 1 in Hrun.
  destruct (resolver_settles svc from st) as [(src & Hres & _) | [Hres _]];
    rewrite Hres in Hrun; [|injection Hrun as <- _; now right; right].
  unfold await at 1 in Hrun.
  match type of Hrun with context [mountpointResolver svc to ?s] =>
    destruct (resolver_settles svc to s) as [(dst & Hres2 & _) | [Hres2 _]];
    rewrite Hres2 in Hrun end; cbn [log backend] in Hrun;
    [|injection Hrun as <- _; now right; right].
  unfold await at 1 in Hrun.
  match type of Hrun with context [strictGroups_of src ?s] =>
    destruct (strictGroups_of src s) as [[b1|e1] s1] eqn:Hs1 end.
  2:{ injection Hrun as <- _. right. left. now apply strictGroups_of_rejects in Hs1. }
  assert (s1 = mkState ((log st ++ [Lookup (getPrefix from) true])
                        ++ [Lookup (getPrefix to) true]) (backend st)).
  { match type of Hs1 with strictGroups_of src ?s = _ =>
      destruct (strictGroups_of_settles src s) as [(b & Hb & _) | (e0 & Hb)] end;
      rewrite Hb in Hs1; [now injection Hs1 as _ <- | discriminate Hs1]. }
  subst s1. clear Hs1.
  unfold await at 1 in Hrun.
  match type of Hrun with context [strictGroups_of dst ?s] =>
    destruct (strictGroups_of dst s) as [[b2|e2] s2] eqn:Hs2 end.
  2:{ injection Hrun as <- _. right. left. now apply strictGroups_of_rejects in Hs2. }
  assert (s2 = mkState ((log st ++ [Lookup (getPrefix from) true])
                        ++ [Lookup (getPrefix to) true]) (backend st)).
  { match type of Hs2 with strictGroups_of dst ?s = _ =>
      destruct (strictGroups_of_settles dst s) as [(b & Hb & _) | (e0 & Hb)] end;
      rewrite Hb in Hs2; [now injection Hs2 as _ <- | discriminate Hs2]. }
  subst s2. clear Hs2.
  unfold await at 1 in Hrun.
  match type of Hrun with context [checkMountpointPermission req ?m ?ro ?s src ?s0] =>
    destruct (checkMountpointPermission req m ro s src s0) as [[g1|e1] s1] eqn:Hg1 end.
  2:{ injection Hrun as <- _. right. now apply gate_rejects_own in Hg1. }
  assert (Hl1 : exists evs1, log s1 = log st ++ evs1
                             /\ existsb is_adapter_call evs1 = false).
  { match type of Hg1 with checkMountpointPermission ?q ?m ?ro ?s ?f ?s0 = _ =>
      destruct (gate_settles q m ro s f s0) as [Hs | (e0 & evs & Hs & _)] end;
      rewrite Hs in Hg1; [|discriminate Hg1]. injection Hg1 as _ <-. cbn [log].
    eexists. rewrite <- !app_assoc. split; reflexivity. }
  unfold await at 1 in Hrun.
  match type of Hrun with context [checkMountpointPermission req ?m ?ro ?s dst ?s0] =>
    destruct (checkMountpointPermission req m ro s dst s0) as [[g2|e2] s2] eqn:Hg2 end.
  2:{ injection Hrun as <- _. right. now apply gate_rejects_own in Hg2. }
  assert (Hl2 : exists evs2, log s2 = log st ++ evs2).
  { destruct Hl1 as (evs1 & Hl1 & _).
    match type of Hg2 with checkMountpointPermission ?q ?m ?ro ?s ?f ?s0 = _ =>
      destruct (gate_settles q m ro s f s0) as [Hs | (e0 & evs & Hs & _)] end;
      rewrite Hs in Hg2; [|discriminate Hg2]. injection Hg2 as _ <-. cbn [log].
    rewrite Hl1, <- app_assoc. eauto. }
  destruct Hl2 as (evs2 & Hl2).
  assert (Hcalled : forall (c : M (state W) value) o m,
             (exists k, (forall s, c s = await (tell (AdapterCall o m)) (fun _ => k) s)
                        /\ appends is_backend_event false k) ->
             c s2 = (Rejected e, st') ->
             exists new, log st' = log st ++ new /\ existsb is_adapter_call new = true).
  { intros c o m (k & Heq & Hk) Hc.
    destruct (called_is_logged o m k Hk s2) as (more & Hlog).
    rewrite <- Heq, Hc in Hlog. cbn [snd] in Hlog. exists (evs2 ++ AdapterCall o m :: more).
    rewrite Hlog, Hl2, <- app_assoc. split; [reflexivity|].
    rewrite existsb_app. cbn [existsb is_adapter_call]. now rewrite orb_true_r. }
  destruct (sameAdapter (found_adapter src) (found_adapter dst)).
  - destruct (found_adapter src) as [a|]; [|injection Hrun as <- _; right; now left].
    destruct (cross_ops a !! method) as [op|];
      [|injection Hrun as <- _; right; now left].
    left. eapply Hcalled; [|exact Hrun]. eexists. split; [intros s; reflexivity|].
    apply appends_await; [apply appends_lift | intros ?; apply appends_resolve].
  - destruct (invoke_rejects_or_calls src "readfile" from []
                (createOptions JSON_parse parseInt req))
      as [(e0 & He0 & Hst) | (o & k & Hk & Happ)]; rewrite ?He0, ?Hk in Hrun.
    + injection Hrun as <- _. right. now left.
    + left. apply (Hcalled _ o "readfile") in Hrun; [exact Hrun|].
      exists (await k
                (fun stream =>
                   result <~ invoke dst "writefile" to [stream]
                               (createOptions JSON_parse parseInt req);
                   do (if String.eqb method "rename"
                       then do invoke src "unlink" from []
                                 (createOptions JSON_parse parseInt req);
                            resolve tt
                       else resolve tt);
                   resolve (Bool (truthy result)))).
      split; [intros s; reflexivity|].
      apply appends_await; [exact Happ|]. intros stream.
      apply appends_await; [apply invoke_appends|]. intros result.
      apply appends_await; [|intros _; apply appends_resolve].
      case_match; [|apply appends_resolve].
      apply appends_await; [apply invoke_appends | intros _; apply appends_resolve].
Qed.

(** X28.  Once its arguments are read, a request that is rejected
    before any adapter has been called is rejected with an error of the
    dispatcher's own, and the router answers such an error with status
    400 or 403.  Any other status -- 404 for a file that is not there --
    belongs to a request in which an adapter was called. *)
Theorem own_errors_are_answered_400_or_403 :
  forall (W : Type) (JSON_parse : string -> option value) (parseInt : string -> float)
         (svc : vfs_service W),
    (forall r req target rest (st st' : state W) e,
        is_cross r = false ->
        route_getter r req = Resolved (target, rest) ->
        vfs JSON_parse parseInt svc r req st = (Rejected e, st') ->
        (exists new, log st' = log st ++ new /\ existsb is_adapter_call new = true)
        \/ status_of e = 400%Z
        \/ status_of e = 403%Z)
    /\ (forall r req from to (st st' : state W) e,
          is_cross r = true ->
          requestCross req = Resolved (from, to) ->
          vfs JSON_parse parseInt svc r req st = (Rejected e, st') ->
          (exists new, log st' = log st ++ new /\ existsb is_adapter_call new = true)
          \/ status_of e = 400%Z
          \/ status_of e = 403%Z).
Proof.
  intros W JSON_parse parseInt svc. split.
  - intros r req target rest st st' e. apply single_own_errors.
  - intros r req from to st st' e Hc Hget. rewrite (vfs_cross _ _ _ _ Hc).
    now apply cross_own_errors with from to.
Qed.
Lemma own_errors_are_answered_400_or_403_witness :
  let e := mkError ErrorC NoCode "Adapter does not support readdir" in
  let st' :=
    mkState [Lookup "home" true; GroupCheck "home" "readdir" true;
             Granted "home" "readdir"] tt in
  (exists new, log st' = log start ++ new /\ existsb is_adapter_call new = true)
  \/ status_of e = 400%Z
  \/ status_of e = 403%Z.
Proof.
  intros e st'.
  apply (proj1 (own_errors_are_answered_400_or_403 unit no_json no_int plain_service)
           readdir (request_of [("path", Str "home:/")]) (One "home:/") [] start st' e
           eq_refl);
    vm_compute; reflexivity.
Defined.
